(** * apiutils/errors: the status/error taxonomy, its classifiers and its
    wire conversion, embedded from [errors/errors.go]; with the response
    writers of [httputils/responsewriter.go] and [http/responsewriter.go]
    and the permissions of [auth/permission.go].

    Conventions of the embedding.
    - Go's [int] is the 64-bit two's-complement integer of the usual
      targets; [int32] is written out as a wrap-around on [Z].
    - A Go [string] is a sequence of bytes: Rocq's [string].
    - A run-time panic is an explicit outcome ([Panic]) of the [go] monad.
    - In the first part an [error] interface value is [nilError] or one of
      the concrete error values this package and the standard library
      build: [errors.New], [fmt.Errorf] with [%w], [&StatusError{...}] and
      [&UnexpectedObjectError{...}].  Pointers held by an interface value
      are non-nil there, as every pointer built with [&T{...}] is.
    - The module [full] embeds the functions that take an error, an
      object, a list of field errors or a response on every such argument:
      nil pointers held by an interface, values of other types with a
      [Status] method, errors that wrap several errors, nil elements, a
      nil body.  What is stated of every input is stated there; the two
      embeddings are proved to agree on the values of the first part. *)

From Stdlib Require Import ZArith String Ascii List Bool Lia.
From Stdlib Require Strings.Byte.
From Stdlib Require Import DecimalString.
From Stdlib Require DecimalPos DecimalFacts.
From stdpp Require Import base option gmap strings.

Import ListNotations.
Local Open Scope string_scope.
Local Open Scope Z_scope.

(** ** Go runtime *)

(** Outcome of a Go computation that may panic. *)
Inductive go (A : Type) : Type :=
| Ok (a : A)
| Panic.
Arguments Ok {A} a.
Arguments Panic {A}.

Definition go_bind {A B : Type} (m : go A) (k : A -> go B) : go B :=
  match m with
  | Ok a => k a
  | Panic => Panic
  end.

Notation "x <-! m ; k" := (go_bind m (fun x => k))
  (at level 100, m at next level, right associativity).

(** [int32(z)]: conversion to a signed 32-bit integer keeps the low 32 bits. *)
Definition int32 (z : Z) : Z := (z + 2 ^ 31) mod 2 ^ 32 - 2 ^ 31.

Definition int_min : Z := - 2 ^ 63.
Definition int_max : Z := 2 ^ 63 - 1.
Definition int32_min : Z := - 2 ^ 31.
Definition int32_max : Z := 2 ^ 31 - 1.

(** [len(s)] of a Go string, in bytes. *)
Definition len (s : string) : Z := Z.of_nat (String.length s).

(** ** Status model *)

Definition StatusReason : Type := string.
Definition CauseType : Type := string.

(** Modelled from the spec: the type declarations of [Status],
    [StatusDetails] and [StatusCause] (data model, section 3) are not among
    the sources; the fields are the ones [errors.go] reads and writes. *)
Record StatusCause : Type := {
  Cause_Type : CauseType;
  Cause_Message : string;
  Cause_Field : string
}.

Record StatusDetails : Type := {
  Details_Name : string;
  Details_UID : string;
  Details_Causes : list StatusCause;
  Details_RetryAfterSeconds : Z
}.

Record Status : Type := {
  Status_Status : string;
  Status_Code : Z;
  Status_Reason : StatusReason;
  Status_Message : string;
  Status_Details : option StatusDetails
}.

(** Modelled from the spec: the values of the [status] field. *)
Definition StatusSuccess : string := "Success".
Definition StatusFailure : string := "Failure".

(** Modelled from the spec: the closed vocabulary of reasons; on the wire a
    reason is its name, and the empty string is [Unknown]. *)
Definition StatusReasonUnknown : StatusReason := "".
Definition StatusReasonUnauthorized : StatusReason := "Unauthorized".
Definition StatusReasonForbidden : StatusReason := "Forbidden".
Definition StatusReasonNotFound : StatusReason := "NotFound".
Definition StatusReasonAlreadyExists : StatusReason := "AlreadyExists".
Definition StatusReasonConflict : StatusReason := "Conflict".
Definition StatusReasonInvalid : StatusReason := "Invalid".
Definition StatusReasonServerTimeout : StatusReason := "ServerTimeout".
Definition StatusReasonTimeout : StatusReason := "Timeout".
Definition StatusReasonTooManyRequests : StatusReason := "TooManyRequests".
Definition StatusReasonBadRequest : StatusReason := "BadRequest".
Definition StatusReasonMethodNotAllowed : StatusReason := "MethodNotAllowed".
Definition StatusReasonNotAcceptable : StatusReason := "NotAcceptable".
Definition StatusReasonRequestEntityTooLarge : StatusReason := "RequestEntityTooLarge".
Definition StatusReasonUnsupportedMediaType : StatusReason := "UnsupportedMediaType".
Definition StatusReasonInternalError : StatusReason := "InternalError".
Definition StatusReasonServiceUnavailable : StatusReason := "ServiceUnavailable".

(** Modelled from the spec: the cause type of an unexpected server response. *)
Definition CauseTypeUnexpectedServerResponse : CauseType := "UnexpectedServerResponse".

(** Zero values, [T{}]. *)
Definition StatusCause_zero : StatusCause :=
  {| Cause_Type := ""; Cause_Message := ""; Cause_Field := "" |}.
Definition StatusDetails_zero : StatusDetails :=
  {| Details_Name := ""; Details_UID := ""; Details_Causes := [];
     Details_RetryAfterSeconds := 0 |}.
Definition Status_zero : Status :=
  {| Status_Status := ""; Status_Code := 0; Status_Reason := "";
     Status_Message := ""; Status_Details := None |}.

(** ** Error values *)

Record StatusError : Type := { ErrStatus : Status }.

(** A value of type [interface{}]: what a type switch on [*Status] sees, and
    the text [%v] prints for it. *)
Record any : Type := {
  any_Status : option Status;
  any_v : string
}.

Record UnexpectedObjectError : Type := { Object : any }.

Inductive error : Type :=
| nilError
| errorString (s : string)
| wrapError (msg : string) (err : error)
| ofStatusError (e : StatusError)
| ofUnexpectedObjectError (u : UnexpectedObjectError).

Coercion ofStatusError : StatusError >-> error.

(** The methods [Error] and [Status] of [*StatusError]. *)
Definition StatusError_Error (e : StatusError) : string :=
  Status_Message (ErrStatus e).
Definition StatusError_Status (e : StatusError) : Status := ErrStatus e.

(** The method [Error] of [*UnexpectedObjectError]. *)
Definition UnexpectedObjectError_Error (u : UnexpectedObjectError) : string :=
  "unexpected object: " ++ any_v (Object u).

Module fmt.
(** What [%v] prints for an error operand: the text of its [Error]
    method, and [<nil>] for the nil interface. *)
Definition v (err : error) : string :=
  match err with
  | nilError => "<nil>"
  | errorString s => s
  | wrapError msg _ => msg
  | ofStatusError e => StatusError_Error e
  | ofUnexpectedObjectError u => UnexpectedObjectError_Error u
  end.

(** [fmt.Errorf(prefix + "%w", err)]. *)
Definition Errorf_w (prefix : string) (err : error) : error :=
  match err with
  | nilError => errorString (prefix ++ "%!w(<nil>)")
  | _ => wrapError (prefix ++ v err) err
  end.

(** What [%d] prints for an integer. *)
Definition d (z : Z) : string := NilZero.string_of_int (Z.to_int z).
End fmt.

(** [err.Error()]: a method call on the nil interface panics. *)
Definition Error (err : error) : go string :=
  match err with
  | nilError => Panic
  | _ => Ok (fmt.v err)
  end.

Module errors.
Definition New (text : string) : error := errorString text.

(** [Unwrap]: only the [%w] wrapper has an [Unwrap] method. *)
Definition Unwrap (err : error) : error :=
  match err with
  | wrapError _ inner => inner
  | _ => nilError
  end.

(** [errors.As(err, &target)] with [target] of interface type [APIStatus]:
    the first value of the chain that has a [Status] method.  The only
    type with that method is [*StatusError]. *)
Fixpoint As_APIStatus (err : error) : option StatusError :=
  match err with
  | nilError => None
  | errorString _ => None
  | wrapError _ inner => As_APIStatus inner
  | ofStatusError e => Some e
  | ofUnexpectedObjectError _ => None
  end.

(** [errors.As(err, &target)] with [target] of type
    [*UnexpectedObjectError]. *)
Fixpoint As_UnexpectedObjectError (err : error) : option UnexpectedObjectError :=
  match err with
  | nilError => None
  | errorString _ => None
  | wrapError _ inner => As_UnexpectedObjectError inner
  | ofStatusError _ => None
  | ofUnexpectedObjectError u => Some u
  end.
End errors.

(** A response body as [ioutil.ReadAll] sees it: the bytes it delivers and
    the error that ends the reading ([nilError] at a clean end of input). *)
Module io.
Record Reader : Type := {
  data : list Byte.byte;
  err : error
}.
End io.

Module ioutil.
Definition ReadAll (r : io.Reader) : list Byte.byte * error :=
  (io.data r, io.err r).
End ioutil.

(** The part of [strconv] the package uses. *)
Module strconv.
(** The value of a string of decimal digits; [None] when a byte is not a
    digit. *)
Definition digits (s : string) : option Z :=
  option_map Z.of_uint (NilEmpty.uint_of_string s).

(** [strconv.Atoi]: an optional sign, then one or more decimal digits, the
    value within the range of [int]; [None] stands for the non-nil
    [*NumError] of every other input. *)
Definition Atoi (s : string) : option Z :=
  match s with
  | EmptyString => None
  | String c rest =>
      let neg := Ascii.eqb c "-" in
      let body := if neg || Ascii.eqb c "+" then rest else s in
      match body with
      | EmptyString => None
      | _ =>
          match digits body with
          | None => None
          | Some n =>
              let i := if neg then - n else n in
              if (int_min <=? i) && (i <=? int_max) then Some i else None
          end
      end
  end.
End strconv.

(** Status codes of [net/http]. *)
Module http.
Definition StatusOK : Z := 200.
Definition StatusNoContent : Z := 204.
Definition StatusBadRequest : Z := 400.
Definition StatusUnauthorized : Z := 401.
Definition StatusForbidden : Z := 403.
Definition StatusNotFound : Z := 404.
Definition StatusMethodNotAllowed : Z := 405.
Definition StatusNotAcceptable : Z := 406.
Definition StatusConflict : Z := 409.
Definition StatusRequestEntityTooLarge : Z := 413.
Definition StatusUnsupportedMediaType : Z := 415.
Definition StatusUnprocessableEntity : Z := 422.
Definition StatusTooManyRequests : Z := 429.
Definition StatusInternalServerError : Z := 500.
Definition StatusServiceUnavailable : Z := 503.
Definition StatusGatewayTimeout : Z := 504.

(** [http.Header] and its [Get]: the first value stored under the key, or
    the empty string.  The only key this package asks for, [Retry-After],
    is already in canonical MIME form. *)
Definition Header : Type := gmap string (list string).

Definition Header_Get (h : Header) (key : string) : string :=
  match h !! key with
  | Some (v :: _) => v
  | _ => ""
  end.

Record Response : Type := {
  StatusCode : Z;
  Header_ : Header;
  Body : io.Reader
}.
End http.

(** The parts of [k8s.io/apimachinery/pkg/util/validation/field] that
    [NewInvalid] touches: a field error with its type, its field path and the
    text of its [ErrorBody] method. *)
Module field.
Record Error : Type := {
  Type_ : string;
  Field : string;
  ErrorBody : string
}.
Definition ErrorList : Type := list Error.
End field.

(** ** Constructors *)

Section Constructors.
(** Renderings of the standard library that the messages interpolate:
    [%q] of a string ([strconv.Quote]) and [%v] of the aggregate of a list
    of field errors ([ErrorList.ToAggregate]). *)
Variable Quote : string -> string.
Variable Aggregate_v : field.ErrorList -> string.

Definition NewNotFound (name uid : string) : StatusError :=
  let message :=
    if 0 <? len uid then name ++ " (" ++ uid ++ ") not found"
    else name ++ " not found" in
  {| ErrStatus := {|
       Status_Status := StatusFailure;
       Status_Code := http.StatusNotFound;
       Status_Reason := StatusReasonNotFound;
       Status_Message := message;
       Status_Details := Some {|
         Details_Name := name; Details_UID := uid;
         Details_Causes := []; Details_RetryAfterSeconds := 0 |} |} |}.

Definition NewAlreadyExists (name uid : string) : StatusError :=
  let message :=
    if 0 <? len uid then name ++ " (" ++ uid ++ ") not found"
    else name ++ " not found" in
  {| ErrStatus := {|
       Status_Status := StatusFailure;
       Status_Code := http.StatusConflict;
       Status_Reason := StatusReasonAlreadyExists;
       Status_Message := message;
       Status_Details := Some {|
         Details_Name := name; Details_UID := uid;
         Details_Causes := []; Details_RetryAfterSeconds := 0 |} |} |}.

Definition NewUnauthorized (reason : string) : StatusError :=
  let message := if len reason =? 0 then "not authorized" else reason in
  {| ErrStatus := {|
       Status_Status := StatusFailure;
       Status_Code := http.StatusUnauthorized;
       Status_Reason := StatusReasonUnauthorized;
       Status_Message := message;
       Status_Details := None |} |}.

Definition NewForbidden (name : string) (err : error) : StatusError :=
  let message := "forbidden: " ++ fmt.v err in
  {| ErrStatus := {|
       Status_Status := StatusFailure;
       Status_Code := http.StatusForbidden;
       Status_Reason := StatusReasonForbidden;
       Status_Message := message;
       Status_Details := Some {|
         Details_Name := name; Details_UID := "";
         Details_Causes := []; Details_RetryAfterSeconds := 0 |} |} |}.

Definition NewConflict (name : string) (err : error) : StatusError :=
  {| ErrStatus := {|
       Status_Status := StatusFailure;
       Status_Code := http.StatusConflict;
       Status_Reason := StatusReasonConflict;
       Status_Message :=
         "Operation cannot be fulfilled on " ++ name ++ ": " ++ fmt.v err;
       Status_Details := Some {|
         Details_Name := name; Details_UID := "";
         Details_Causes := []; Details_RetryAfterSeconds := 0 |} |} |}.

(** The loop of [NewInvalid]: one cause per field error, appended in
    order. *)
Fixpoint NewInvalid_causes (causes : list StatusCause) (errs : field.ErrorList)
  : list StatusCause :=
  match errs with
  | [] => causes
  | err :: rest =>
      NewInvalid_causes
        (causes ++ [ {| Cause_Type := field.Type_ err;
                        Cause_Message := field.ErrorBody err;
                        Cause_Field := field.Field err |} ])%list
        rest
  end.

Definition NewInvalid (name : string) (errs : field.ErrorList) : StatusError :=
  let causes := NewInvalid_causes [] errs in
  {| ErrStatus := {|
       Status_Status := StatusFailure;
       Status_Code := http.StatusUnprocessableEntity;
       Status_Reason := StatusReasonInvalid;
       Status_Message := name ++ " is invalid: " ++ Aggregate_v errs;
       Status_Details := Some {|
         Details_Name := name; Details_UID := "";
         Details_Causes := causes; Details_RetryAfterSeconds := 0 |} |} |}.

Definition NewBadRequest (reason : string) : StatusError :=
  {| ErrStatus := {|
       Status_Status := StatusFailure;
       Status_Code := http.StatusBadRequest;
       Status_Reason := StatusReasonBadRequest;
       Status_Message := reason;
       Status_Details := None |} |}.

Definition NewTooManyRequests (message : string) (retryAfterSeconds : Z)
  : StatusError :=
  {| ErrStatus := {|
       Status_Status := StatusFailure;
       Status_Code := http.StatusTooManyRequests;
       Status_Reason := StatusReasonTooManyRequests;
       Status_Message := message;
       Status_Details := Some {|
         Details_Name := ""; Details_UID := ""; Details_Causes := [];
         Details_RetryAfterSeconds := int32 retryAfterSeconds |} |} |}.

Definition NewServiceUnavailable (reason : string) : StatusError :=
  {| ErrStatus := {|
       Status_Status := StatusFailure;
       Status_Code := http.StatusServiceUnavailable;
       Status_Reason := StatusReasonServiceUnavailable;
       Status_Message := reason;
       Status_Details := None |} |}.

Definition NewMethodNotSupported (action : string) : StatusError :=
  {| ErrStatus := {|
       Status_Status := StatusFailure;
       Status_Code := http.StatusMethodNotAllowed;
       Status_Reason := StatusReasonMethodNotAllowed;
       Status_Message := action ++ " is not supported on this resource";
       Status_Details := None |} |}.

Definition NewServerTimeout (operation : string) (retryAfterSeconds : Z)
  : StatusError :=
  {| ErrStatus := {|
       Status_Status := StatusFailure;
       Status_Code := http.StatusInternalServerError;
       Status_Reason := StatusReasonServerTimeout;
       Status_Message :=
         "The " ++ operation
         ++ " operation could not be completed at this time, please try again.";
       Status_Details := Some {|
         Details_Name := operation; Details_UID := ""; Details_Causes := [];
         Details_RetryAfterSeconds := int32 retryAfterSeconds |} |} |}.

(** [err.Error()] is called on the argument as it is: a nil [err] panics. *)
Definition NewInternalError (err : error) : go StatusError :=
  text <-! Error err;
  Ok {| ErrStatus := {|
       Status_Status := StatusFailure;
       Status_Code := http.StatusInternalServerError;
       Status_Reason := StatusReasonInternalError;
       Status_Message := "Internal error occurred: " ++ fmt.v err;
       Status_Details := Some {|
         Details_Name := ""; Details_UID := "";
         Details_Causes :=
           [ {| Cause_Type := ""; Cause_Message := text; Cause_Field := "" |} ];
         Details_RetryAfterSeconds := 0 |} |} |}.

Definition NewTimeoutError (message : string) (retryAfterSeconds : Z)
  : StatusError :=
  {| ErrStatus := {|
       Status_Status := StatusFailure;
       Status_Code := http.StatusGatewayTimeout;
       Status_Reason := StatusReasonTimeout;
       Status_Message := "Timeout: " ++ message;
       Status_Details := Some {|
         Details_Name := ""; Details_UID := ""; Details_Causes := [];
         Details_RetryAfterSeconds := int32 retryAfterSeconds |} |} |}.

Definition NewTooManyRequestsError (message : string) : StatusError :=
  {| ErrStatus := {|
       Status_Status := StatusFailure;
       Status_Code := http.StatusTooManyRequests;
       Status_Reason := StatusReasonTooManyRequests;
       Status_Message := "Too many requests: " ++ message;
       Status_Details := None |} |}.

Definition NewRequestEntityTooLargeError (message : string) : StatusError :=
  {| ErrStatus := {|
       Status_Status := StatusFailure;
       Status_Code := http.StatusRequestEntityTooLarge;
       Status_Reason := StatusReasonRequestEntityTooLarge;
       Status_Message := "Request entity too large: " ++ message;
       Status_Details := None |} |}.

(** The [switch code] of [NewGenericServerResponse]: reason and message. *)
Definition GenericServerResponse_reason_message
    (code : Z) (verb serverMessage : string) : StatusReason * string :=
  if code =? http.StatusConflict then
    (if String.eqb verb "POST" then StatusReasonAlreadyExists
     else StatusReasonConflict,
     "the server reported a conflict")
  else if code =? http.StatusNotFound then
    (StatusReasonNotFound, "the server could not find the requested resource")
  else if code =? http.StatusBadRequest then
    (StatusReasonBadRequest,
     "the server rejected our request for an unknown reason")
  else if code =? http.StatusUnauthorized then
    (StatusReasonUnauthorized,
     "the server has asked for the client to provide credentials")
  else if code =? http.StatusForbidden then
    (StatusReasonForbidden, serverMessage)
  else if code =? http.StatusNotAcceptable then
    (StatusReasonNotAcceptable,
     if (len serverMessage =? 0) || String.eqb serverMessage "unknown" then
       "the server was unable to respond with a content type that the client supports"
     else serverMessage)
  else if code =? http.StatusUnsupportedMediaType then
    (StatusReasonUnsupportedMediaType, serverMessage)
  else if code =? http.StatusMethodNotAllowed then
    (StatusReasonMethodNotAllowed,
     "the server does not allow this method on the requested resource")
  else if code =? http.StatusUnprocessableEntity then
    (StatusReasonInvalid,
     "the server rejected our request due to an error in our request")
  else if code =? http.StatusServiceUnavailable then
    (StatusReasonServiceUnavailable,
     "the server is currently unable to handle the request")
  else if code =? http.StatusGatewayTimeout then
    (StatusReasonTimeout,
     "the server was unable to return a response in the time allotted, but may still be processing the request")
  else if code =? http.StatusTooManyRequests then
    (StatusReasonTooManyRequests,
     "the server has received too many requests and has asked us to try again later")
  else if 500 <=? code then
    (StatusReasonInternalError,
     "an error on the server (" ++ Quote serverMessage
     ++ ") has prevented the request from succeeding")
  else
    (StatusReasonUnknown,
     "the server responded with the status code " ++ fmt.d code
     ++ " but did not return more information").

Definition NewGenericServerResponse
    (code : Z) (verb name serverMessage : string) (retryAfterSeconds : Z)
    (isUnexpectedResponse : bool) : StatusError :=
  let '(reason, message) :=
    GenericServerResponse_reason_message code verb serverMessage in
  let causes :=
    if isUnexpectedResponse then
      [ {| Cause_Type := CauseTypeUnexpectedServerResponse;
           Cause_Message := serverMessage; Cause_Field := "" |} ]
    else [] in
  {| ErrStatus := {|
       Status_Status := StatusFailure;
       Status_Code := int32 code;
       Status_Reason := reason;
       Status_Message := message;
       Status_Details := Some {|
         Details_Name := name; Details_UID := ""; Details_Causes := causes;
         Details_RetryAfterSeconds := int32 retryAfterSeconds |} |} |}.
End Constructors.

(** ** Classifiers *)

(** [ReasonForError]: the reason of the status [errors.As] finds, or
    [StatusReasonUnknown]. *)
Definition ReasonForError (err : error) : StatusReason :=
  match errors.As_APIStatus err with
  | Some status => Status_Reason (StatusError_Status status)
  | None => StatusReasonUnknown
  end.

Definition IsNotFound (err : error) : bool :=
  String.eqb (ReasonForError err) StatusReasonNotFound.
Definition IsAlreadyExists (err : error) : bool :=
  String.eqb (ReasonForError err) StatusReasonAlreadyExists.
Definition IsConflict (err : error) : bool :=
  String.eqb (ReasonForError err) StatusReasonConflict.
Definition IsInvalid (err : error) : bool :=
  String.eqb (ReasonForError err) StatusReasonInvalid.
Definition IsNotAcceptable (err : error) : bool :=
  String.eqb (ReasonForError err) StatusReasonNotAcceptable.
Definition IsUnsupportedMediaType (err : error) : bool :=
  String.eqb (ReasonForError err) StatusReasonUnsupportedMediaType.
Definition IsMethodNotSupported (err : error) : bool :=
  String.eqb (ReasonForError err) StatusReasonMethodNotAllowed.
Definition IsServiceUnavailable (err : error) : bool :=
  String.eqb (ReasonForError err) StatusReasonServiceUnavailable.
Definition IsBadRequest (err : error) : bool :=
  String.eqb (ReasonForError err) StatusReasonBadRequest.
Definition IsUnauthorized (err : error) : bool :=
  String.eqb (ReasonForError err) StatusReasonUnauthorized.
Definition IsForbidden (err : error) : bool :=
  String.eqb (ReasonForError err) StatusReasonForbidden.
Definition IsTimeout (err : error) : bool :=
  String.eqb (ReasonForError err) StatusReasonTimeout.
Definition IsServerTimeout (err : error) : bool :=
  String.eqb (ReasonForError err) StatusReasonServerTimeout.
Definition IsInternalError (err : error) : bool :=
  String.eqb (ReasonForError err) StatusReasonInternalError.

Definition IsTooManyRequests (err : error) : bool :=
  if String.eqb (ReasonForError err) StatusReasonTooManyRequests then true
  else
    match errors.As_APIStatus err with
    | Some status =>
        Status_Code (StatusError_Status status) =? http.StatusTooManyRequests
    | None => false
    end.

Definition IsRequestEntityTooLargeError (err : error) : bool :=
  if String.eqb (ReasonForError err) StatusReasonRequestEntityTooLarge then true
  else
    match errors.As_APIStatus err with
    | Some status =>
        Status_Code (StatusError_Status status) =? http.StatusRequestEntityTooLarge
    | None => false
    end.

(** The [for ... range] over the causes, looking for a cause type. *)
Fixpoint find_cause (name : CauseType) (causes : list StatusCause)
  : option StatusCause :=
  match causes with
  | [] => None
  | cause :: rest =>
      if String.eqb (Cause_Type cause) name then Some cause
      else find_cause name rest
  end.

(** [GetStatusCause]: a type assertion on [err] itself, no unwrapping. *)
Definition GetStatusCause (err : error) (name : CauseType) : StatusCause * bool :=
  match err with
  | ofStatusError apierr =>
      match Status_Details (StatusError_Status apierr) with
      | None => (StatusCause_zero, false)
      | Some details =>
          match find_cause name (Details_Causes details) with
          | Some cause => (cause, true)
          | None => (StatusCause_zero, false)
          end
      end
  | _ => (StatusCause_zero, false)
  end.

Definition HasStatusCause (err : error) (name : CauseType) : bool :=
  snd (GetStatusCause err name).

Definition IsUnexpectedServerError (err : error) : bool :=
  match errors.As_APIStatus err with
  | Some status =>
      match Status_Details (StatusError_Status status) with
      | Some details =>
          match find_cause CauseTypeUnexpectedServerResponse (Details_Causes details) with
          | Some _ => true
          | None => false
          end
      | None => false
      end
  | None => false
  end.

Definition notNil (err : error) : bool :=
  match err with
  | nilError => false
  | _ => true
  end.

Definition IsUnexpectedObjectError (err : error) : bool :=
  notNil err &&
  match errors.As_UnexpectedObjectError err with
  | Some _ => true
  | None => false
  end.

(** [FromObject]: a [*Status] becomes a [StatusError], anything else an
    [UnexpectedObjectError]. *)
Definition FromObject (obj : any) : error :=
  match any_Status obj with
  | Some t => ofStatusError {| ErrStatus := t |}
  | None => ofUnexpectedObjectError {| Object := obj |}
  end.

(** ** Retry advisor *)

Definition SuggestsClientDelay (err : error) : Z * bool :=
  match errors.As_APIStatus err with
  | Some t =>
      match Status_Details (StatusError_Status t) with
      | Some details =>
          if String.eqb (Status_Reason (StatusError_Status t)) StatusReasonServerTimeout
          then (Details_RetryAfterSeconds details, true)
          else if 0 <? Details_RetryAfterSeconds details
          then (Details_RetryAfterSeconds details, true)
          else (0, false)
      | None => (0, false)
      end
  | None => (0, false)
  end.

(** ** Wire converter *)

Definition set_Status_Status (v : string) (s : Status) : Status :=
  {| Status_Status := v; Status_Code := Status_Code s;
     Status_Reason := Status_Reason s; Status_Message := Status_Message s;
     Status_Details := Status_Details s |}.

Definition set_Status_Code (v : Z) (s : Status) : Status :=
  {| Status_Status := Status_Status s; Status_Code := v;
     Status_Reason := Status_Reason s; Status_Message := Status_Message s;
     Status_Details := Status_Details s |}.

Definition set_Status_Details (v : option StatusDetails) (s : Status) : Status :=
  {| Status_Status := Status_Status s; Status_Code := Status_Code s;
     Status_Reason := Status_Reason s; Status_Message := Status_Message s;
     Status_Details := v |}.

Definition set_Details_RetryAfterSeconds (v : Z) (d : StatusDetails)
  : StatusDetails :=
  {| Details_Name := Details_Name d; Details_UID := Details_UID d;
     Details_Causes := Details_Causes d; Details_RetryAfterSeconds := v |}.

Section ErrorToAPIStatus.
(** What [%#+v] prints for an error value. *)
Variable GoSyntax_v : error -> string.

(** [ErrorToAPIStatus]: the status it returns, and the errors it hands to
    [runtime.HandleError] on the way. *)
Definition ErrorToAPIStatus (err : error) : go (Status * list error) :=
  match err with
  | ofStatusError t =>
      let status := StatusError_Status t in
      let status :=
        if len (Status_Status status) =? 0
        then set_Status_Status StatusFailure status else status in
      if String.eqb (Status_Status status) StatusSuccess then
        Ok (if Status_Code status =? 0
            then set_Status_Code http.StatusOK status else status, [])
      else if String.eqb (Status_Status status) StatusFailure then
        Ok (if Status_Code status =? 0
            then set_Status_Code http.StatusInternalServerError status
            else status, [])
      else
        Ok (if Status_Code status =? 0
            then set_Status_Code http.StatusInternalServerError status
            else status,
            [ errors.New
                ("apiserver received an error with wrong status field : "
                 ++ GoSyntax_v err) ])
  | _ =>
      let status := http.StatusInternalServerError in
      text <-! Error err;
      Ok ({| Status_Status := StatusFailure;
             Status_Code := int32 status;
             Status_Reason := StatusReasonUnknown;
             Status_Message := text;
             Status_Details := None |}, [])
  end.
End ErrorToAPIStatus.

(** [retryAfterSeconds]: the value of the [Retry-After] header and [true], or
    [0] and [false]. *)
Definition retryAfterSeconds (resp : http.Response) : Z * bool :=
  let h := http.Header_Get (http.Header_ resp) "Retry-After" in
  if 0 <? len h then
    match strconv.Atoi h with
    | Some i => (i, true)
    | None => (0, false)
    end
  else (0, false).

Definition checkWait (resp : http.Response) : Z * bool :=
  let r := http.StatusCode resp in
  if (r =? http.StatusTooManyRequests) || (500 <=? r)
  then retryAfterSeconds resp
  else (0, false).

Section FromResponse.
(** [json.Unmarshal(body, &status)]: the value it leaves in [status] and
    the error it returns. *)
Variable json_Unmarshal : list Byte.byte -> Status -> Status * error.

Definition FromResponse (resp : http.Response) : go (error * bool) :=
  if (http.StatusOK <=? http.StatusCode resp)
     && (http.StatusCode resp <=? http.StatusNoContent)
  then Ok (nilError, false)
  else
    let '(body, err) := ioutil.ReadAll (http.Body resp) in
    if notNil err then
      e <-! NewInternalError
              (fmt.Errorf_w "client error: reading server response: " err);
      Ok (ofStatusError e, true)
    else
      let '(status, err) := json_Unmarshal body Status_zero in
      if notNil err then
        e <-! NewInternalError
                (fmt.Errorf_w "client error: unmarshalling server response: " err);
        Ok (ofStatusError e, true)
      else
        let '(seconds, ok) := retryAfterSeconds resp in
        let status :=
          if ok then
            match Status_Details status with
            | None =>
                set_Status_Details
                  (Some (set_Details_RetryAfterSeconds (int32 seconds)
                           StatusDetails_zero))
                  status
            | Some details =>
                set_Status_Details
                  (Some (set_Details_RetryAfterSeconds (int32 seconds) details))
                  status
            end
          else status in
        Ok (ofStatusError {| ErrStatus := status |}, true).
End FromResponse.

(** ** The JSON codec of [encoding/json], for a [Status]

    [FromResponse] takes the decoder of the standard library as it is.  The
    model follows the documented behaviour of [encoding/json].  The encoder
    escapes quotes, backslashes, control characters, [<], [>], [&], U+2028
    and U+2029, and writes the escape of U+FFFD for a byte that does not
    start a well-formed UTF-8 encoding.  The decoder checks the whole text
    against the grammar of JSON first (containers nest at most 10000 deep),
    then fills the fields: a key names a field under case folding, an
    unknown key is skipped, a later member overrides an earlier one, and a
    value of the wrong type is reported once the text has been read. *)

Module utf8.
(** The value of a byte. *)
Definition byte_val (c : ascii) : Z := Z.of_N (N_of_ascii c).

Definition chr (z : Z) : ascii := ascii_of_N (Z.to_N z).

Definition between (lo hi : Z) (c : ascii) : bool :=
  (lo <=? byte_val c) && (byte_val c <=? hi).

Definition cont (c : ascii) : bool := between 0x80 0xBF c.

(** The first two bytes of a well-formed sequence of three bytes, and of
    four bytes (the accept ranges of [unicode/utf8]). *)
Definition lead3 (c0 c1 : ascii) : bool :=
  ((byte_val c0 =? 0xE0) && between 0xA0 0xBF c1)
  || ((between 0xE1 0xEC c0 || between 0xEE 0xEF c0) && cont c1)
  || ((byte_val c0 =? 0xED) && between 0x80 0x9F c1).

Definition lead4 (c0 c1 : ascii) : bool :=
  ((byte_val c0 =? 0xF0) && between 0x90 0xBF c1)
  || (between 0xF1 0xF3 c0 && cont c1)
  || ((byte_val c0 =? 0xF4) && between 0x80 0x8F c1).

(** The size of the encoding at the head of [s], as [utf8.DecodeRuneInString]
    reports it for a well-formed one: 1 for an ASCII byte, 2 to 4 for a
    multi-byte sequence; 0 when the head is not a well-formed encoding. *)
Definition rune_len (s : string) : nat :=
  match s with
  | EmptyString => 0%nat
  | String c0 r0 =>
      if byte_val c0 <? 0x80 then 1%nat
      else
        match r0 with
        | String c1 r1 =>
            if between 0xC2 0xDF c0 && cont c1 then 2%nat
            else
              match r1 with
              | String c2 r2 =>
                  if lead3 c0 c1 && cont c2 then 3%nat
                  else
                    match r2 with
                    | String c3 _ =>
                        if lead4 c0 c1 && cont c2 && cont c3 then 4%nat
                        else 0%nat
                    | EmptyString => 0%nat
                    end
              | EmptyString => 0%nat
              end
        | EmptyString => 0%nat
        end
  end.

(** [U+FFFD], the replacement character, encoded. *)
Definition replacement : string :=
  String (chr 0xEF) (String (chr 0xBF) (String (chr 0xBD) "")).

(** [utf8.EncodeRune]. *)
Definition EncodeRune (r : Z) : string :=
  if r <? 0 then replacement
  else if r <? 0x80 then String (chr r) ""
  else if r <? 0x800 then
    String (chr (Z.lor 0xC0 (Z.shiftr r 6)))
      (String (chr (Z.lor 0x80 (Z.land r 0x3F))) "")
  else if (0xD800 <=? r) && (r <=? 0xDFFF) then replacement
  else if r <? 0x10000 then
    String (chr (Z.lor 0xE0 (Z.shiftr r 12)))
      (String (chr (Z.lor 0x80 (Z.land (Z.shiftr r 6) 0x3F)))
         (String (chr (Z.lor 0x80 (Z.land r 0x3F))) ""))
  else if r <=? 0x10FFFF then
    String (chr (Z.lor 0xF0 (Z.shiftr r 18)))
      (String (chr (Z.lor 0x80 (Z.land (Z.shiftr r 12) 0x3F)))
         (String (chr (Z.lor 0x80 (Z.land (Z.shiftr r 6) 0x3F)))
            (String (chr (Z.lor 0x80 (Z.land r 0x3F))) "")))
  else replacement.

(** [utf8.ValidString]. *)
Fixpoint ValidString (s : string) : bool :=
  match s with
  | EmptyString => true
  | String c0 r0 =>
      match rune_len (String c0 r0), r0 with
      | 1%nat, _ => ValidString r0
      | 2%nat, String _ r1 => ValidString r1
      | 3%nat, String _ (String _ r2) => ValidString r2
      | 4%nat, String _ (String _ (String _ r3)) => ValidString r3
      | _, _ => false
      end
  end.

(** A string coerced to valid UTF-8: every byte that does not start a
    well-formed encoding is replaced by [U+FFFD]. *)
Fixpoint ToValid (s : string) : string :=
  match s with
  | EmptyString => EmptyString
  | String c0 r0 =>
      match rune_len (String c0 r0), r0 with
      | 1%nat, _ => String c0 (ToValid r0)
      | 2%nat, String c1 r1 => String c0 (String c1 (ToValid r1))
      | 3%nat, String c1 (String c2 r2) =>
          String c0 (String c1 (String c2 (ToValid r2)))
      | 4%nat, String c1 (String c2 (String c3 r3)) =>
          String c0 (String c1 (String c2 (String c3 (ToValid r3))))
      | _, _ => replacement ++ ToValid r0
      end
  end.
End utf8.

Module json.
Import utf8.

(** *** Syntax *)

#[warnings="-register-all"]
Inductive value : Type :=
| Null
| Bool (b : bool)
| Number (lit : string)
| Str (s : string)
| Array (elems : list value)
| Object (members : list (string * value)).

Inductive token : Type :=
| TLBrace | TRBrace | TLBracket | TRBracket | TColon | TComma
| TString (s : string)
| TNumber (lit : string)
| TTrue | TFalse | TNull.

Definition dquote : ascii := "034".
Definition backslash : ascii := "\".

(** *** Strings: quoting *)

Definition hex_digit (n : Z) : ascii :=
  if n <? 10 then chr (48 + n) else chr (87 + n).

(** [\u00XX] for a byte. *)
Definition escape_u00 (c : ascii) : string :=
  "\u00" ++ String (hex_digit (Z.shiftr (byte_val c) 4))
              (String (hex_digit (Z.land (byte_val c) 15)) "").

(** How the encoder writes an ASCII byte (with HTML escaping on, as
    [json.Marshal] has it).  Some releases write the short escapes of the
    backspace and the form feed instead of the [\u00XX] form; the decoder
    reads both forms as the same byte. *)
Definition escape_ascii (c : ascii) : string :=
  if Ascii.eqb c dquote || Ascii.eqb c backslash then String backslash (String c "")
  else if byte_val c =? 10 then "\n"
  else if byte_val c =? 13 then "\r"
  else if byte_val c =? 9 then "\t"
  else if (byte_val c <? 32) || Ascii.eqb c "<" || Ascii.eqb c ">" || Ascii.eqb c "&"
  then escape_u00 c
  else String c "".

(** [U+2028] and [U+2029], encoded, are written as escapes. *)
Definition line_separator (c0 c1 c2 : ascii) : option string :=
  if (byte_val c0 =? 0xE2) && (byte_val c1 =? 0x80) then
    if byte_val c2 =? 0xA8 then Some ("\u" ++ "2028")
    else if byte_val c2 =? 0xA9 then Some ("\u" ++ "2029")
    else None
  else None.

(** The text of a string between its quotes, as the encoder writes it. *)
Fixpoint quote_body (s : string) : string :=
  match s with
  | EmptyString => EmptyString
  | String c0 r0 =>
      match rune_len (String c0 r0), r0 with
      | 1%nat, _ => escape_ascii c0 ++ quote_body r0
      | 2%nat, String c1 r1 => String c0 (String c1 (quote_body r1))
      | 3%nat, String c1 (String c2 r2) =>
          match line_separator c0 c1 c2 with
          | Some esc => esc ++ quote_body r2
          | None => String c0 (String c1 (String c2 (quote_body r2)))
          end
      | 4%nat, String c1 (String c2 (String c3 r3)) =>
          String c0 (String c1 (String c2 (String c3 (quote_body r3))))
      | _, _ => ("\u" ++ "fffd") ++ quote_body r0
      end
  end.

Definition quote (s : string) : string :=
  String dquote (quote_body s ++ String dquote "").

(** *** Strings: unquoting *)

Definition hex_val (c : ascii) : option Z :=
  let x := byte_val c in
  if (48 <=? x) && (x <=? 57) then Some (x - 48)
  else if (97 <=? x) && (x <=? 102) then Some (x - 87)
  else if (65 <=? x) && (x <=? 70) then Some (x - 55)
  else None.

Definition hex4 (h1 h2 h3 h4 : ascii) : option Z :=
  match hex_val h1, hex_val h2, hex_val h3, hex_val h4 with
  | Some a, Some b, Some c, Some d => Some (((a * 16 + b) * 16 + c) * 16 + d)
  | _, _, _, _ => None
  end.

(** The character a one-letter escape stands for. *)
Definition simple_escape (e : ascii) : option ascii :=
  if Ascii.eqb e dquote then Some dquote
  else if Ascii.eqb e backslash then Some backslash
  else if Ascii.eqb e "/" then Some "/"%char
  else if Ascii.eqb e "b" then Some (chr 8)
  else if Ascii.eqb e "f" then Some (chr 12)
  else if Ascii.eqb e "n" then Some (chr 10)
  else if Ascii.eqb e "r" then Some (chr 13)
  else if Ascii.eqb e "t" then Some (chr 9)
  else None.

Definition is_surrogate (r : Z) : bool := (0xD800 <=? r) && (r <? 0xE000).

(** [utf16.DecodeRune]: the code point of a surrogate pair, [None] when the
    two halves do not make one. *)
Definition surrogate_pair (r1 r2 : Z) : option Z :=
  if (0xD800 <=? r1) && (r1 <? 0xDC00) && (0xDC00 <=? r2) && (r2 <? 0xE000)
  then Some (Z.lor (Z.shiftl (r1 - 0xD800) 10) (r2 - 0xDC00) + 0x10000)
  else None.

(** The second half of a surrogate pair, when the text goes on with a
    [\uXXXX] escape. *)
Definition next_u4 (s : string) : option Z :=
  match s with
  | String b (String u (String g1 (String g2 (String g3 (String g4 _))))) =>
      if Ascii.eqb b backslash && Ascii.eqb u "u" then hex4 g1 g2 g3 g4 else None
  | _ => None
  end.

Definition prepend (x : string) (o : option string) : option string :=
  option_map (String.append x) o.

(** The decoder's [unquote], on the text between the quotes: [None] on a
    malformed escape, a quote or a control character. *)
Fixpoint unquote (s : string) : option string :=
  match s with
  | EmptyString => Some EmptyString
  | String c0 r0 =>
      if Ascii.eqb c0 backslash then
        match r0 with
        | String e r1 =>
            if Ascii.eqb e "u" then
              match r1 with
              | String h1 (String h2 (String h3 (String h4 r5))) =>
                  match hex4 h1 h2 h3 h4 with
                  | None => None
                  | Some rr =>
                      if is_surrogate rr then
                        match r5 with
                        | String _ (String _ (String _ (String _ (String _ (String _ r11))))) =>
                            match next_u4 r5 with
                            | Some rr1 =>
                                match surrogate_pair rr rr1 with
                                | Some dec => prepend (EncodeRune dec) (unquote r11)
                                | None => prepend replacement (unquote r5)
                                end
                            | None => prepend replacement (unquote r5)
                            end
                        | _ => prepend replacement (unquote r5)
                        end
                      else prepend (EncodeRune rr) (unquote r5)
                  end
              | _ => None
              end
            else
              match simple_escape e with
              | Some ch => prepend (String ch "") (unquote r1)
              | None => None
              end
        | EmptyString => None
        end
      else if Ascii.eqb c0 dquote || (byte_val c0 <? 32) then None
      else
        match rune_len (String c0 r0), r0 with
        | 1%nat, _ => prepend (String c0 "") (unquote r0)
        | 2%nat, String c1 r1 => prepend (String c0 (String c1 "")) (unquote r1)
        | 3%nat, String c1 (String c2 r2) =>
            prepend (String c0 (String c1 (String c2 ""))) (unquote r2)
        | 4%nat, String c1 (String c2 (String c3 r3)) =>
            prepend (String c0 (String c1 (String c2 (String c3 "")))) (unquote r3)
        | _, _ => prepend replacement (unquote r0)
        end
  end.

(** *** Numbers *)

Inductive number_state : Type :=
| NStart | NNeg | NZero | NInt | NDot | NFrac | NE | NESign | NExp.

Definition is_digit (c : ascii) : bool := between 48 57 c.

Definition number_step (st : number_state) (c : ascii) : option number_state :=
  match st with
  | NStart =>
      if Ascii.eqb c "-" then Some NNeg
      else if Ascii.eqb c "0" then Some NZero
      else if is_digit c then Some NInt else None
  | NNeg =>
      if Ascii.eqb c "0" then Some NZero
      else if is_digit c then Some NInt else None
  | NZero =>
      if Ascii.eqb c "." then Some NDot
      else if Ascii.eqb c "e" || Ascii.eqb c "E" then Some NE else None
  | NInt =>
      if is_digit c then Some NInt
      else if Ascii.eqb c "." then Some NDot
      else if Ascii.eqb c "e" || Ascii.eqb c "E" then Some NE else None
  | NDot => if is_digit c then Some NFrac else None
  | NFrac =>
      if is_digit c then Some NFrac
      else if Ascii.eqb c "e" || Ascii.eqb c "E" then Some NE else None
  | NE =>
      if Ascii.eqb c "+" || Ascii.eqb c "-" then Some NESign
      else if is_digit c then Some NExp else None
  | NESign => if is_digit c then Some NExp else None
  | NExp => if is_digit c then Some NExp else None
  end.

Fixpoint number_run (st : number_state) (s : string) : bool :=
  match s with
  | EmptyString =>
      match st with
      | NZero | NInt | NFrac | NExp => true
      | _ => false
      end
  | String c rest =>
      match number_step st c with
      | Some st' => number_run st' rest
      | None => false
      end
  end.

(** The grammar of a JSON number. *)
Definition valid_number (lit : string) : bool := number_run NStart lit.

(** *** Tokens *)

Inductive lex_state : Type :=
| LTop
| LString (raw : string) (esc : nat)
| LNumber (lit : string)
| LWord (w : string).

Definition is_space (c : ascii) : bool :=
  (byte_val c =? 32) || (byte_val c =? 9) || (byte_val c =? 13) || (byte_val c =? 10).

Definition is_number_char (c : ascii) : bool :=
  is_digit c || Ascii.eqb c "+" || Ascii.eqb c "-" || Ascii.eqb c "."
  || Ascii.eqb c "e" || Ascii.eqb c "E".

Definition is_letter (c : ascii) : bool := between 97 122 c.

Definition snoc (s : string) (c : ascii) : string := s ++ String c "".

(** A byte met between two tokens. *)
Definition lex_start (c : ascii) (acc : list token) : option (lex_state * list token) :=
  if is_space c then Some (LTop, acc)
  else if Ascii.eqb c "{" then Some (LTop, acc ++ [TLBrace])%list
  else if Ascii.eqb c "}" then Some (LTop, acc ++ [TRBrace])%list
  else if Ascii.eqb c "[" then Some (LTop, acc ++ [TLBracket])%list
  else if Ascii.eqb c "]" then Some (LTop, acc ++ [TRBracket])%list
  else if Ascii.eqb c ":" then Some (LTop, acc ++ [TColon])%list
  else if Ascii.eqb c "," then Some (LTop, acc ++ [TComma])%list
  else if Ascii.eqb c dquote then Some (LString "" 0, acc)
  else if Ascii.eqb c "-" || is_digit c then Some (LNumber (String c ""), acc)
  else if is_letter c then Some (LWord (String c ""), acc)
  else None.

Definition close_number (lit : string) : option token :=
  if valid_number lit then Some (TNumber lit) else None.

Definition close_word (w : string) : option token :=
  if String.eqb w "true" then Some TTrue
  else if String.eqb w "false" then Some TFalse
  else if String.eqb w "null" then Some TNull
  else None.

(** Inside a string, after a backslash ([esc = 1]) and inside a [\u] escape
    with [esc - 1] hexadecimal digits to come. *)
Definition lex_escape (esc : nat) (c : ascii) : option nat :=
  match esc with
  | 0%nat => None
  | 1%nat =>
      if Ascii.eqb c "u" then Some 5%nat
      else match simple_escape c with
           | Some _ => Some 0%nat
           | None => None
           end
  | S (S k) =>
      match hex_val c with
      | Some _ => Some (match k with 0%nat => 0%nat | _ => S k end)
      | None => None
      end
  end.

Fixpoint lex (st : lex_state) (acc : list token) (s : string) : option (list token) :=
  match s with
  | EmptyString =>
      match st with
      | LTop => Some acc
      | LString _ _ => None
      | LNumber lit =>
          match close_number lit with
          | Some t => Some (acc ++ [t])%list
          | None => None
          end
      | LWord w =>
          match close_word w with
          | Some t => Some (acc ++ [t])%list
          | None => None
          end
      end
  | String c rest =>
      match st with
      | LTop =>
          match lex_start c acc with
          | Some (st', acc') => lex st' acc' rest
          | None => None
          end
      | LString raw 0%nat =>
          if Ascii.eqb c dquote then
            match unquote raw with
            | Some str => lex LTop (acc ++ [TString str])%list rest
            | None => None
            end
          else if Ascii.eqb c backslash then lex (LString (snoc raw c) 1) acc rest
          else if byte_val c <? 32 then None
          else lex (LString (snoc raw c) 0) acc rest
      | LString raw esc =>
          match lex_escape esc c with
          | Some esc' => lex (LString (snoc raw c) esc') acc rest
          | None => None
          end
      | LNumber lit =>
          if is_number_char c then lex (LNumber (snoc lit c)) acc rest
          else
            match close_number lit with
            | Some t =>
                match lex_start c (acc ++ [t])%list with
                | Some (st', acc') => lex st' acc' rest
                | None => None
                end
            | None => None
            end
      | LWord w =>
          if is_letter c then lex (LWord (snoc w c)) acc rest
          else
            match close_word w with
            | Some t =>
                match lex_start c (acc ++ [t])%list with
                | Some (st', acc') => lex st' acc' rest
                | None => None
                end
            | None => None
            end
      end
  end.

(** *** Values *)

Inductive frame : Type :=
| FArray (elems : list value)
| FObject (members : list (string * value)) (key : string).

Inductive parse_state : Type :=
| PValue
| PArrayFirst
| PObjectFirst
| PKey
| PColon
| PAfter
| PDone (v : value).

Definition maxNestingDepth : Z := 10000.

(** A complete value goes to the container that is open, or ends the
    document. *)
Definition deliver (v : value) (stack : list frame) : parse_state * list frame :=
  match stack with
  | [] => (PDone v, [])
  | FArray elems :: below => (PAfter, FArray (v :: elems) :: below)
  | FObject members key :: below => (PAfter, FObject ((key, v) :: members) "" :: below)
  end.

Definition push (f : frame) (st : parse_state) (stack : list frame)
  : option (parse_state * list frame) :=
  if Z.of_nat (length (f :: stack)) <=? maxNestingDepth
  then Some (st, f :: stack) else None.

Definition parse_value_token (t : token) (stack : list frame)
  : option (parse_state * list frame) :=
  match t with
  | TNull => Some (deliver Null stack)
  | TTrue => Some (deliver (Bool true) stack)
  | TFalse => Some (deliver (Bool false) stack)
  | TNumber lit => Some (deliver (Number lit) stack)
  | TString s => Some (deliver (Str s) stack)
  | TLBracket => push (FArray []) PArrayFirst stack
  | TLBrace => push (FObject [] "") PObjectFirst stack
  | _ => None
  end.

Definition parse_key (t : token) (stack : list frame)
  : option (parse_state * list frame) :=
  match t, stack with
  | TString k, FObject members _ :: below => Some (PColon, FObject members k :: below)
  | _, _ => None
  end.

Definition parse_step (st : parse_state) (stack : list frame) (t : token)
  : option (parse_state * list frame) :=
  match st with
  | PValue => parse_value_token t stack
  | PArrayFirst =>
      match t, stack with
      | TRBracket, FArray _ :: below => Some (deliver (Array []) below)
      | _, _ => parse_value_token t stack
      end
  | PObjectFirst =>
      match t, stack with
      | TRBrace, FObject _ _ :: below => Some (deliver (Object []) below)
      | _, _ => parse_key t stack
      end
  | PKey => parse_key t stack
  | PColon =>
      match t with
      | TColon => Some (PValue, stack)
      | _ => None
      end
  | PAfter =>
      match t, stack with
      | TComma, FArray _ :: _ => Some (PValue, stack)
      | TRBracket, FArray elems :: below => Some (deliver (Array (rev elems)) below)
      | TComma, FObject _ _ :: _ => Some (PKey, stack)
      | TRBrace, FObject members _ :: below =>
          Some (deliver (Object (rev members)) below)
      | _, _ => None
      end
  | PDone _ => None
  end.

Fixpoint parse (st : parse_state) (stack : list frame) (ts : list token)
  : option value :=
  match ts with
  | [] =>
      match st with
      | PDone v => Some v
      | _ => None
      end
  | t :: rest =>
      match parse_step st stack t with
      | Some (st', stack') => parse st' stack' rest
      | None => None
      end
  end.

(** A whole document: one value, white space around it. *)
Definition parse_document (text : string) : option value :=
  match lex LTop [] text with
  | Some ts => parse PValue [] ts
  | None => None
  end.

(** *** Writing *)

Definition render_token (t : token) : string :=
  match t with
  | TLBrace => "{"
  | TRBrace => "}"
  | TLBracket => "["
  | TRBracket => "]"
  | TColon => ":"
  | TComma => ","
  | TString s => quote s
  | TNumber lit => lit
  | TTrue => "true"
  | TFalse => "false"
  | TNull => "null"
  end.

Fixpoint join (ls : list (list token)) : list token :=
  match ls with
  | [] => []
  | [ts] => ts
  | ts :: rest => (ts ++ TComma :: join rest)%list
  end.

Fixpoint tokens (v : value) : list token :=
  match v with
  | Null => [TNull]
  | Bool true => [TTrue]
  | Bool false => [TFalse]
  | Number lit => [TNumber lit]
  | Str s => [TString s]
  | Array elems => (TLBracket :: join (map tokens elems) ++ [TRBracket])%list
  | Object members =>
      (TLBrace
       :: join (map (fun m => TString (fst m) :: TColon :: tokens (snd m)) members)
       ++ [TRBrace])%list
  end.

Fixpoint render (ts : list token) : string :=
  match ts with
  | [] => EmptyString
  | t :: rest => render_token t ++ render rest
  end.

(** The compact text of a value, as [json.Marshal] writes it. *)
Definition write (v : value) : string := render (tokens v).

(** The indented text, as [json.Indent] lays it out with an empty prefix
    and two spaces a level: a new line after an opening bracket (unless the
    container is empty), after a comma and before a closing bracket, and a
    space after a colon. *)
Fixpoint spaces (depth : nat) : string :=
  match depth with
  | O => EmptyString
  | S d => "  " ++ spaces d
  end.

Definition newline (depth : nat) : string := String (chr 10) (spaces depth).

Definition is_closer (t : token) : bool :=
  match t with
  | TRBrace | TRBracket => true
  | _ => false
  end.

Fixpoint indent (needIndent : bool) (depth : nat) (ts : list token) : string :=
  match ts with
  | [] => EmptyString
  | t :: rest =>
      if is_closer t then
        (if needIndent then EmptyString else newline (pred depth))
        ++ render_token t
        ++ indent false (if needIndent then depth else pred depth) rest
      else
        let depth' := if needIndent then S depth else depth in
        (if needIndent then newline depth' else EmptyString)
        ++ render_token t
        ++ match t with
           | TLBrace | TLBracket => indent true depth' rest
           | TComma => newline depth' ++ indent false depth' rest
           | TColon => " " ++ indent false depth' rest
           | _ => indent false depth' rest
           end
  end.

Definition write_indent (v : value) : string := indent false 0 (tokens v).

(** *** A [Status] on the wire *)

(** Modelled from the spec: the wire format of section 6, the field names in
    the order the spec lists them; the [details] object and the [causes]
    array are left out when absent or empty.  Whether the other fields carry
    [omitempty] is a parameter. *)
Definition string_member (omitempty : bool) (key s : string) : list (string * value) :=
  if omitempty && (len s =? 0) then [] else [(key, Str s)].

Definition int_member (omitempty : bool) (key : string) (n : Z) : list (string * value) :=
  if omitempty && (n =? 0) then [] else [(key, Number (fmt.d n))].

Definition of_StatusCause (omitempty : bool) (c : StatusCause) : value :=
  Object (string_member omitempty "type" (Cause_Type c)
          ++ string_member omitempty "message" (Cause_Message c)
          ++ string_member omitempty "field" (Cause_Field c))%list.

Definition of_StatusDetails (omitempty : bool) (d : StatusDetails) : value :=
  Object (string_member omitempty "name" (Details_Name d)
          ++ string_member omitempty "uid" (Details_UID d)
          ++ int_member omitempty "retryAfterSeconds" (Details_RetryAfterSeconds d)
          ++ match Details_Causes d with
             | [] => []
             | causes => [("causes", Array (map (of_StatusCause omitempty) causes))]
             end)%list.

Definition of_Status (omitempty : bool) (s : Status) : value :=
  Object (string_member omitempty "status" (Status_Status s)
          ++ int_member omitempty "code" (Status_Code s)
          ++ string_member omitempty "reason" (Status_Reason s)
          ++ string_member omitempty "message" (Status_Message s)
          ++ match Status_Details s with
             | None => []
             | Some d => [("details", of_StatusDetails omitempty d)]
             end)%list.

(** [json.Marshal(status)]. *)
Definition Marshal (omitempty : bool) (s : Status) : list Byte.byte :=
  list_byte_of_string (write (of_Status omitempty s)).

(** [json.MarshalIndent(status, "", "  ")], the encoding the response
    writers of the repository use. *)
Definition MarshalIndent (omitempty : bool) (s : Status) : list Byte.byte :=
  list_byte_of_string (write_indent (of_Status omitempty s)).

(** *** Reading a [Status] *)

Definition upper (c : ascii) : ascii :=
  if is_letter c then chr (byte_val c - 32) else c.

(** The case folding under which a key names a field: ASCII letters in upper
    case, and the two letters beyond ASCII that fold to one, the long s
    (to [S]) and the Kelvin sign (to [K]). *)
Fixpoint fold_name (s : string) : string :=
  match s with
  | EmptyString => EmptyString
  | String c0 r0 =>
      match r0 with
      | String c1 r1 =>
          if (byte_val c0 =? 0xC5) && (byte_val c1 =? 0xBF)
          then String "S" (fold_name r1)
          else
            match r1 with
            | String c2 r2 =>
                if (byte_val c0 =? 0xE2) && (byte_val c1 =? 0x84)
                   && (byte_val c2 =? 0xAA)
                then String "K" (fold_name r2)
                else String (upper c0) (fold_name r0)
            | EmptyString => String (upper c0) (fold_name r0)
            end
      | EmptyString => String (upper c0) EmptyString
      end
  end.

Definition names (field key : string) : bool :=
  String.eqb (fold_name key) (fold_name field).

(** A value decoded into a field: the new content of the field, and whether
    the value had the type of the field.  [null] leaves a string and a number
    as they are. *)
Definition decode_string (v : value) (old : string) : string * bool :=
  match v with
  | Str s => (s, true)
  | Null => (old, true)
  | _ => (old, false)
  end.

Definition decode_int32 (v : value) (old : Z) : Z * bool :=
  match v with
  | Number lit =>
      match strconv.Atoi lit with
      | Some n =>
          if (int32_min <=? n) && (n <=? int32_max) then (n, true) else (old, false)
      | None => (old, false)
      end
  | Null => (old, true)
  | _ => (old, false)
  end.

Definition cause_member (st : StatusCause * bool) (m : string * value)
  : StatusCause * bool :=
  let '(c, ok) := st in
  let '(key, v) := m in
  if names "type" key then
    let '(x, ok') := decode_string v (Cause_Type c) in
    ({| Cause_Type := x; Cause_Message := Cause_Message c;
        Cause_Field := Cause_Field c |}, ok && ok')
  else if names "message" key then
    let '(x, ok') := decode_string v (Cause_Message c) in
    ({| Cause_Type := Cause_Type c; Cause_Message := x;
        Cause_Field := Cause_Field c |}, ok && ok')
  else if names "field" key then
    let '(x, ok') := decode_string v (Cause_Field c) in
    ({| Cause_Type := Cause_Type c; Cause_Message := Cause_Message c;
        Cause_Field := x |}, ok && ok')
  else (c, ok).

Definition decode_StatusCause (v : value) (old : StatusCause) : StatusCause * bool :=
  match v with
  | Object members => fold_left cause_member members (old, true)
  | Null => (old, true)
  | _ => (old, false)
  end.

Definition decode_causes (v : value) (old : list StatusCause)
  : list StatusCause * bool :=
  match v with
  | Array elems =>
      let decoded := map (fun e => decode_StatusCause e StatusCause_zero) elems in
      (map fst decoded, forallb snd decoded)
  | Null => ([], true)
  | _ => (old, false)
  end.

Definition details_member (st : StatusDetails * bool) (m : string * value)
  : StatusDetails * bool :=
  let '(d, ok) := st in
  let '(key, v) := m in
  if names "name" key then
    let '(x, ok') := decode_string v (Details_Name d) in
    ({| Details_Name := x; Details_UID := Details_UID d;
        Details_Causes := Details_Causes d;
        Details_RetryAfterSeconds := Details_RetryAfterSeconds d |}, ok && ok')
  else if names "uid" key then
    let '(x, ok') := decode_string v (Details_UID d) in
    ({| Details_Name := Details_Name d; Details_UID := x;
        Details_Causes := Details_Causes d;
        Details_RetryAfterSeconds := Details_RetryAfterSeconds d |}, ok && ok')
  else if names "retryAfterSeconds" key then
    let '(x, ok') := decode_int32 v (Details_RetryAfterSeconds d) in
    (set_Details_RetryAfterSeconds x d, ok && ok')
  else if names "causes" key then
    let '(x, ok') := decode_causes v (Details_Causes d) in
    ({| Details_Name := Details_Name d; Details_UID := Details_UID d;
        Details_Causes := x;
        Details_RetryAfterSeconds := Details_RetryAfterSeconds d |}, ok && ok')
  else (d, ok).

Definition decode_details (v : value) (old : option StatusDetails)
  : option StatusDetails * bool :=
  match v with
  | Object members =>
      let start := match old with Some d => d | None => StatusDetails_zero end in
      let '(d, ok) := fold_left details_member members (start, true) in
      (Some d, ok)
  | Null => (None, true)
  | _ => (old, false)
  end.

Definition status_member (st : Status * bool) (m : string * value) : Status * bool :=
  let '(s, ok) := st in
  let '(key, v) := m in
  if names "status" key then
    let '(x, ok') := decode_string v (Status_Status s) in
    (set_Status_Status x s, ok && ok')
  else if names "code" key then
    let '(x, ok') := decode_int32 v (Status_Code s) in
    (set_Status_Code x s, ok && ok')
  else if names "reason" key then
    let '(x, ok') := decode_string v (Status_Reason s) in
    ({| Status_Status := Status_Status s; Status_Code := Status_Code s;
        Status_Reason := x; Status_Message := Status_Message s;
        Status_Details := Status_Details s |}, ok && ok')
  else if names "message" key then
    let '(x, ok') := decode_string v (Status_Message s) in
    ({| Status_Status := Status_Status s; Status_Code := Status_Code s;
        Status_Reason := Status_Reason s; Status_Message := x;
        Status_Details := Status_Details s |}, ok && ok')
  else if names "details" key then
    let '(x, ok') := decode_details v (Status_Details s) in
    (set_Status_Details x s, ok && ok')
  else (s, ok).

Definition decode_Status (v : value) (old : Status) : Status * bool :=
  match v with
  | Object members => fold_left status_member members (old, true)
  | Null => (old, true)
  | _ => (old, false)
  end.

(** The errors of the decoder, a [*json.SyntaxError] and a
    [*json.UnmarshalTypeError]; their texts stand for the messages of the
    library. *)
Definition SyntaxError : error := errorString "json: invalid JSON input".
Definition UnmarshalTypeError : error :=
  errorString "json: cannot unmarshal value into Go struct field".

(** [json.Unmarshal(data, &status)]: the text is checked as a whole first;
    then the value is decoded field by field, a value of the wrong type
    skipped and reported at the end. *)
Definition Unmarshal (data : list Byte.byte) (status : Status) : Status * error :=
  match parse_document (string_of_list_byte data) with
  | None => (status, SyntaxError)
  | Some v =>
      let '(s, ok) := decode_Status v status in
      (s, if ok then nilError else UnmarshalTypeError)
  end.
End json.

(** The status with every string coerced to valid UTF-8. *)
Definition coerce_StatusCause (c : StatusCause) : StatusCause :=
  {| Cause_Type := utf8.ToValid (Cause_Type c);
     Cause_Message := utf8.ToValid (Cause_Message c);
     Cause_Field := utf8.ToValid (Cause_Field c) |}.

Definition coerce_StatusDetails (d : StatusDetails) : StatusDetails :=
  {| Details_Name := utf8.ToValid (Details_Name d);
     Details_UID := utf8.ToValid (Details_UID d);
     Details_Causes := map coerce_StatusCause (Details_Causes d);
     Details_RetryAfterSeconds := Details_RetryAfterSeconds d |}.

Definition coerce_Status (s : Status) : Status :=
  {| Status_Status := utf8.ToValid (Status_Status s);
     Status_Code := Status_Code s;
     Status_Reason := utf8.ToValid (Status_Reason s);
     Status_Message := utf8.ToValid (Status_Message s);
     Status_Details := option_map coerce_StatusDetails (Status_Details s) |}.

(** The strings of a status are valid UTF-8. *)
Definition valid_StatusCause (c : StatusCause) : bool :=
  utf8.ValidString (Cause_Type c) && utf8.ValidString (Cause_Message c)
  && utf8.ValidString (Cause_Field c).

Definition valid_StatusDetails (d : StatusDetails) : bool :=
  utf8.ValidString (Details_Name d) && utf8.ValidString (Details_UID d)
  && forallb valid_StatusCause (Details_Causes d).

Definition valid_Status (s : Status) : bool :=
  utf8.ValidString (Status_Status s) && utf8.ValidString (Status_Reason s)
  && utf8.ValidString (Status_Message s)
  && match Status_Details s with
     | Some d => valid_StatusDetails d
     | None => true
     end.

(** The numbers of a status are in the range of their type, [int32]. *)
Definition is_int32 (z : Z) : bool := (int32_min <=? z) && (z <=? int32_max).

Definition int32_Status (s : Status) : bool :=
  is_int32 (Status_Code s)
  && match Status_Details s with
     | Some d => is_int32 (Details_RetryAfterSeconds d)
     | None => true
     end.

(** A response that carries a body read to its end, no header. *)
Definition response_with_body (code : Z) (body : list Byte.byte) : http.Response :=
  {| http.StatusCode := code;
     http.Header_ := ∅;
     http.Body := {| io.data := body; io.err := nilError |} |}.

(** *** Vocabulary of the codec's properties *)

Module json_spec.
Import utf8 json.

(** The head of a non-empty string, by the encoding it starts. *)
Inductive rune_head : string -> Prop :=
| head_ascii c0 r0 :
    byte_val c0 < 128 -> rune_head (String c0 r0)
| head_2 c0 c1 r1 :
    between 0xC2 0xDF c0 && cont c1 = true -> rune_head (String c0 (String c1 r1))
| head_3 c0 c1 c2 r2 :
    lead3 c0 c1 && cont c2 = true -> rune_head (String c0 (String c1 (String c2 r2)))
| head_4 c0 c1 c2 c3 r3 :
    lead4 c0 c1 && cont c2 && cont c3 = true ->
    rune_head (String c0 (String c1 (String c2 (String c3 r3))))
| head_invalid c0 r0 :
    128 <= byte_val c0 -> rune_len (String c0 r0) = 0%nat -> rune_head (String c0 r0).

(** What the decoder reads back for what the encoder wrote: the same value,
    its strings coerced to valid UTF-8. *)
Fixpoint coerce_value (v : value) : value :=
  match v with
  | Str s => Str (ToValid s)
  | Array elems => Array (map coerce_value elems)
  | Object members =>
      Object (map (fun m => (ToValid (fst m), coerce_value (snd m))) members)
  | _ => v
  end.

Definition coerce_token (t : token) : token :=
  match t with
  | TString s => TString (ToValid s)
  | _ => t
  end.

(** Every number of the value is written in the grammar of JSON. *)
Fixpoint wf_value (v : value) : bool :=
  match v with
  | Number lit => valid_number lit
  | Array elems => forallb wf_value elems
  | Object members => forallb (fun m => wf_value (snd m)) members
  | _ => true
  end.

Definition wf_token (t : token) : bool :=
  match t with
  | TNumber lit => valid_number lit
  | _ => true
  end.

(** How deep the containers of a value nest. *)
Fixpoint depth (v : value) : Z :=
  match v with
  | Array elems => 1 + fold_right Z.max 0 (map depth elems)
  | Object members => 1 + fold_right Z.max 0 (map (fun m => depth (snd m)) members)
  | _ => 0
  end.

(** A text that does not go on with a byte of a number or of a word. *)
Definition delimited (s : string) : Prop :=
  match s with
  | EmptyString => True
  | String d _ => is_number_char d = false /\ is_letter d = false
  end.

Definition needs_delimiter (t : token) : bool :=
  match t with
  | TNumber _ | TTrue | TFalse | TNull => true
  | _ => false
  end.

Definition is_punct (t : token) : bool :=
  match t with
  | TComma | TRBracket | TRBrace => true
  | _ => false
  end.

(** What comes after a token: a separator or a closing bracket, or nothing
    more, where [P] says how the text goes on. *)
Definition follows (ts : list token) (P : Prop) : Prop :=
  match ts with
  | [] => P
  | t :: _ => is_punct t = true
  end.

(** A sequence of tokens whose text reads back as that sequence: the numbers
    are well formed, and a number or a word is followed by a separator or a
    closing bracket. *)
Fixpoint separated (ts : list token) (P : Prop) : Prop :=
  match ts with
  | [] => True
  | t :: ts' =>
      wf_token t = true
      /\ (needs_delimiter t = true -> follows ts' P)
      /\ separated ts' P
  end.

(** A string of white space. *)
Fixpoint blank (s : string) : bool :=
  match s with
  | EmptyString => true
  | String c rest => is_space c && blank rest
  end.

(** The parser, from a state and a stack given together. *)
Definition parse_from (p : parse_state * list frame) (ts : list token) : option value :=
  parse (fst p) (snd p) ts.

Definition expects_value (st : parse_state) : Prop := st = PValue \/ st = PArrayFirst.

Definition expects_key (st : parse_state) : Prop := st = PObjectFirst \/ st = PKey.

Definition member_tokens (m : string * value) : list token :=
  TString (fst m) :: TColon :: tokens (snd m).

Definition coerce_member (m : string * value) : string * value :=
  (ToValid (fst m), coerce_value (snd m)).

(** What [parse_value] states of one value. *)
Definition reads_back (v : value) : Prop :=
  forall st stack rest,
    expects_value st ->
    Z.of_nat (length stack) + depth v <= maxNestingDepth ->
    parse st stack (tokens v ++ rest) = parse_from (deliver v stack) rest.
End json_spec.

(** ** Vocabulary of the specification *)

(** The wrap chain of an error: the value itself, then what [Unwrap] yields,
    until there is nothing left to unwrap. *)
Fixpoint chain (err : error) : list error :=
  match err with
  | nilError => []
  | wrapError _ inner => err :: chain inner
  | _ => [err]
  end.

(** The capability probe on one value: the type assertion [v.(APIStatus)]
    followed by the call of [Status]. *)
Definition APIStatus_of (v : error) : option Status :=
  match v with
  | ofStatusError e => Some (StatusError_Status e)
  | _ => None
  end.

Definition exposes_Status (v : error) : bool :=
  match APIStatus_of v with
  | Some _ => true
  | None => false
  end.

(** The status of the first value of the chain that exposes one. *)
Definition first_Status (err : error) : option Status :=
  match List.find exposes_Status (chain err) with
  | Some v => APIStatus_of v
  | None => None
  end.

Definition found_reason (err : error) : StatusReason :=
  match first_Status err with
  | Some s => Status_Reason s
  | None => StatusReasonUnknown
  end.

(** A failure status with a given code and reason. *)
Definition failure_with (code : Z) (reason : StatusReason) (e : StatusError) : Prop :=
  Status_Status (ErrStatus e) = StatusFailure
  /\ Status_Code (ErrStatus e) = code
  /\ Status_Reason (ErrStatus e) = reason.

(** Wrapping an error once per message, outermost message first. *)
Definition wrap_all (msgs : list string) (err : error) : error :=
  fold_right wrapError err msgs.

(** The status [ErrorToAPIStatus] makes up for an error without one. *)
Definition synthesized (text : string) : Status :=
  {| Status_Status := StatusFailure; Status_Code := 500;
     Status_Reason := StatusReasonUnknown; Status_Message := text;
     Status_Details := None |}.

(** The normalization of section 4.5, in the spec's words: an absent status
    becomes [Failure]; an unset code becomes 200 on [Success] and 500
    otherwise. *)
Definition normalized (s : Status) : Status :=
  let status := if String.eqb (Status_Status s) "" then StatusFailure
                else Status_Status s in
  let code :=
    if Status_Code s =? 0 then
      if String.eqb status StatusSuccess then 200 else 500
    else Status_Code s in
  {| Status_Status := status; Status_Code := code;
     Status_Reason := Status_Reason s; Status_Message := Status_Message s;
     Status_Details := Status_Details s |}.

Definition valid_status (status : string) : bool :=
  String.eqb status StatusSuccess || String.eqb status StatusFailure.

(** The value [NewInternalError] builds around an error text. *)
Definition internal_error (text : string) : StatusError :=
  {| ErrStatus := {|
       Status_Status := StatusFailure;
       Status_Code := 500;
       Status_Reason := StatusReasonInternalError;
       Status_Message := "Internal error occurred: " ++ text;
       Status_Details := Some {|
         Details_Name := ""; Details_UID := "";
         Details_Causes :=
           [ {| Cause_Type := ""; Cause_Message := text; Cause_Field := "" |} ];
         Details_RetryAfterSeconds := 0 |} |} |}.

(** A status with its retry hint replaced, the details created when absent. *)
Definition with_retry (seconds : Z) (s : Status) : Status :=
  set_Status_Details
    (Some (set_Details_RetryAfterSeconds seconds
             (match Status_Details s with
              | Some d => d
              | None => StatusDetails_zero
              end)))
    s.

(** A decimal integer, as [strconv.Atoi] reads one: an optional sign and one
    or more decimal digits that denote [i], within the range of [int]. *)
Definition decimal_integer (h : string) (i : Z) : Prop :=
  exists sign ds,
    h = sign ++ NilEmpty.string_of_uint ds
    /\ ds <> Decimal.Nil
    /\ (((sign = "" \/ sign = "+") /\ i = Z.of_uint ds)
        \/ (sign = "-" /\ i = - Z.of_uint ds))
    /\ int_min <= i <= int_max.

(** The response is one that [FromResponse] takes for a success. *)
Definition success_code (resp : http.Response) : Prop :=
  200 <= http.StatusCode resp <= 204.

(** The value of the [Retry-After] header, the empty string when there is
    none. *)
Definition retry_after_header (resp : http.Response) : string :=
  http.Header_Get (http.Header_ resp) "Retry-After".

(** A response with code 500, the empty JSON object for a body, read to its
    end, and one value for the [Retry-After] header. *)
Definition response_with_retry_after (h : string) : http.Response :=
  {| http.StatusCode := 500;
     http.Header_ := {[ "Retry-After" := [h] ]};
     http.Body := {| io.data := list_byte_of_string "{}"; io.err := nilError |} |}.

(** ** Debug output

    [DebugError] of [*StatusError]: a format and its one operand, the
    indented JSON of the status, or the status itself when the encoder
    fails. *)

Inductive operand : Type :=
| operand_string (s : string)
| operand_Status (s : Status).

Section DebugError.
(** [json.MarshalIndent(status, prefix, indent)] with no prefix and two
    spaces of indent: the bytes and the error. *)
Variable json_MarshalIndent : Status -> list Byte.byte * error.

Definition StatusError_DebugError (e : StatusError) : string * list operand :=
  let '(out, err) := json_MarshalIndent (ErrStatus e) in
  if negb (notNil err) then
    ("server response object: %s", [ operand_string (string_of_list_byte out) ])
  else ("server response object: %#v", [ operand_Status (ErrStatus e) ]).
End DebugError.

(** ** Response writers, [httputils/responsewriter.go] and
    [http/responsewriter.go]

    A handler acts on its [http.ResponseWriter] through three methods.  The
    effect of a function that is handed a writer is the sequence of the calls
    it makes, in order; what an implementation of the interface does with a
    call is not part of the function. *)

Module ResponseWriter.
Inductive call : Type :=
| Header_Set (key value : string)
| WriteHeader (statusCode : Z)
| Write (p : list Byte.byte).

(** The header map after the calls: [Set] replaces the values stored under
    the key.  The keys these packages set are in canonical MIME form. *)
Definition Header (calls : list call) : http.Header :=
  fold_left
    (fun h c =>
       match c with
       | Header_Set key value => <[ key := [value] ]> h
       | _ => h
       end)
    calls ∅.

(** The status code of the first [WriteHeader]. *)
Fixpoint StatusCode (calls : list call) : option Z :=
  match calls with
  | [] => None
  | WriteHeader statusCode :: _ => Some statusCode
  | _ :: rest => StatusCode rest
  end.

(** The bytes written, in order. *)
Fixpoint Body (calls : list call) : list Byte.byte :=
  match calls with
  | [] => []
  | Write p :: rest => (p ++ Body rest)%list
  | _ :: rest => Body rest
  end.
End ResponseWriter.

(** [http.Error(w, error, code)] of [net/http]: a plain-text reply. *)
Definition http_Error (text : string) (code : Z) : list ResponseWriter.call :=
  [ ResponseWriter.Header_Set "Content-Type" "text/plain; charset=utf-8";
    ResponseWriter.Header_Set "X-Content-Type-Options" "nosniff";
    ResponseWriter.WriteHeader code;
    ResponseWriter.Write (list_byte_of_string (text ++ String (ascii_of_nat 10) "")) ].

(** [strconv.Itoa]: the decimal text of an [int]. *)
Definition strconv_Itoa (i : Z) : string := fmt.d i.

(** [json.MarshalIndent] on a [Status], with its error result: the encoder
    has no failure for a value of this type, which holds strings, 32-bit
    integers, one pointer to a struct and one slice of structs. *)
Definition json_MarshalIndent (omitempty : bool) (object : Status)
  : list Byte.byte * error :=
  (json.MarshalIndent omitempty object, nilError).

Module httputils.
Import ResponseWriter.

Section Writers.
Variable GoSyntax_v : error -> string.
(** Whether the struct tags of [Status] carry [omitempty]. *)
Variable omitempty : bool.

(** [WriteRawJSON]; the object is a [Status] at every call of it. *)
Definition WriteRawJSON (statusCode : Z) (object : Status) : list call :=
  let '(output, err) := json_MarshalIndent omitempty object in
  if notNil err then http_Error (fmt.v err) http.StatusInternalServerError
  else
    [ Header_Set "Content-Type" "application/json";
      WriteHeader statusCode;
      Write output ].

(** [WriteError]: the calls on the writer, and the errors
    [ErrorToAPIStatus] hands to [runtime.HandleError]. *)
Definition WriteError (err : error) : go (list call * list error) :=
  r <-! ErrorToAPIStatus GoSyntax_v err;
  let '(status, logged) := r in
  let retry :=
    match Status_Details status with
    | Some details =>
        if 0 <? Details_RetryAfterSeconds details then
          let delay := strconv_Itoa (Details_RetryAfterSeconds details) in
          [ Header_Set "Retry-After" delay ]
        else []
    | None => []
    end in
  Ok ((retry ++ WriteRawJSON (Status_Code status) status)%list, logged).
End Writers.
End httputils.

(** The package [http] of the repository, [http/responsewriter.go]; the
    name [http] is taken by [net/http] here. *)
Module apiutils_http.
Import ResponseWriter.

Section Writers.
Variable omitempty : bool.

Definition WriteRawJSON (statusCode : Z) (object : Status) : list call :=
  let '(output, err) := json_MarshalIndent omitempty object in
  if notNil err then http_Error (fmt.v err) http.StatusInternalServerError
  else
    [ Header_Set "Content-Type" "application/json";
      WriteHeader statusCode;
      Write output ].

(** [WriteError] takes a [*StatusError]: reading [err.ErrStatus] through a
    nil pointer panics. *)
Definition WriteError (err : option StatusError) : go (list call) :=
  match err with
  | None => Panic
  | Some e =>
      Ok (WriteRawJSON (Status_Code (ErrStatus e)) (ErrStatus e))
  end.
End Writers.
End apiutils_http.

(** ** Permissions, [auth/permission.go] *)

Module auth.
(** [strings.Contains]. *)
Fixpoint strings_Contains (s substr : string) : bool :=
  String.prefix substr s
  || match s with
     | EmptyString => false
     | String _ rest => strings_Contains rest substr
     end.

(** [strings.Split] with a separator of one byte: the pieces between the
    separators, one more than there are separators. *)
Fixpoint strings_Split (s : string) (sep : ascii) : list string :=
  match s with
  | EmptyString => [ "" ]
  | String c rest =>
      if Ascii.eqb c sep then "" :: strings_Split rest sep
      else
        match strings_Split rest sep with
        | piece :: pieces => String c piece :: pieces
        | [] => [ String c "" ]
        end
  end.

(** [strings.Join]. *)
Definition strings_Join (elems : list string) (sep : string) : string :=
  String.concat sep elems.

Definition Wildcard : string := "*".

Record Permission : Type := {
  Namespace : string;
  Service : string;
  Resource : string;
  Verb : string
}.

Definition PermissionRequirement : Type := Permission.

Definition Permission_zero : Permission :=
  {| Namespace := ""; Service := ""; Resource := ""; Verb := "" |}.

Definition ParsePermissionString (in_ : string) : Permission * error :=
  let parts := strings_Split in_ "." in
  if negb (Z.of_nat (length parts) =? 4) then
    (Permission_zero,
     errorString ("expected 4 parts, got " ++ fmt.d (Z.of_nat (length parts))))
  else
    ({| Namespace := nth 0 parts ""; Service := nth 1 parts "";
        Resource := nth 2 parts ""; Verb := nth 3 parts "" |}, nilError).

Definition ParsePermissionRequirementOrDie (in_ : string) : go PermissionRequirement :=
  if strings_Contains in_ Wildcard then Panic
  else
    let '(p, err) := ParsePermissionString in_ in
    if notNil err then Panic else Ok p.

Definition FulfillsRequirement (r : PermissionRequirement) (p : Permission) : bool :=
  if negb (String.eqb (Namespace r) (Namespace p))
     && negb (String.eqb (Namespace p) Wildcard) then false
  else if negb (String.eqb (Service r) (Service p))
          && negb (String.eqb (Service p) Wildcard) then false
  else if negb (String.eqb (Resource r) (Resource p))
          && negb (String.eqb (Resource p) Wildcard) then false
  else if negb (String.eqb (Verb r) (Verb p))
          && negb (String.eqb (Verb p) Wildcard) then false
  else true.

Definition Permission_String (r : Permission) : string :=
  strings_Join [ Namespace r; Service r; Resource r; Verb r ] ".".

Definition PermissionRequirement_String (r : PermissionRequirement) : string :=
  Permission_String r.

(** The loop of [NewPermissionRequirementGroup]: each requirement parsed and
    appended, in order. *)
Fixpoint NewPermissionRequirementGroup_loop
    (out : list PermissionRequirement) (requirements : list string)
  : go (list PermissionRequirement) :=
  match requirements with
  | [] => Ok out
  | r :: rest =>
      p <-! ParsePermissionRequirementOrDie r;
      NewPermissionRequirementGroup_loop (out ++ [ p ])%list rest
  end.

Definition NewPermissionRequirementGroup (requirements : list string)
  : go (list PermissionRequirement) :=
  NewPermissionRequirementGroup_loop [] requirements.
End auth.

(** ** Vocabulary of the properties of the writers and of the permissions *)

(** The cause [NewInvalid] makes of a field error. *)
Definition cause_of (err : field.Error) : StatusCause :=
  {| Cause_Type := field.Type_ err;
     Cause_Message := field.ErrorBody err;
     Cause_Field := field.Field err |}.

Definition is_UnexpectedObjectError (v : error) : bool :=
  match v with
  | ofUnexpectedObjectError _ => true
  | _ => false
  end.

(** The response carries what the calls wrote: their status code, the
    [Retry-After] header they set, if any, and their body, read to its
    end. *)
Definition carries (calls : list ResponseWriter.call) (resp : http.Response) : Prop :=
  ResponseWriter.StatusCode calls = Some (http.StatusCode resp)
  /\ retry_after_header resp
     = http.Header_Get (ResponseWriter.Header calls) "Retry-After"
  /\ http.Body resp
     = {| io.data := ResponseWriter.Body calls; io.err := nilError |}.

(** The response a recorder of the calls hands back: code, headers and body
    as written, code 200 when none was written. *)
Definition recorded (calls : list ResponseWriter.call) : http.Response :=
  {| http.StatusCode :=
       match ResponseWriter.StatusCode calls with
       | Some code => code
       | None => http.StatusOK
       end;
     http.Header_ := ResponseWriter.Header calls;
     http.Body := {| io.data := ResponseWriter.Body calls; io.err := nilError |} |}.

(** The retry hint of a status that [WriteError] copies to a header. *)
Definition positive_hint (s : Status) : option Z :=
  match Status_Details s with
  | Some d => if 0 <? Details_RetryAfterSeconds d
              then Some (Details_RetryAfterSeconds d) else None
  | None => None
  end.

(** The byte does not occur in the string. *)
Definition free_of (c : ascii) (s : string) : bool :=
  forallb (fun x => negb (Ascii.eqb x c)) (list_ascii_of_string s).

(** The number of occurrences of a byte in a string. *)
Definition count_byte (c : ascii) (s : string) : nat :=
  List.length (List.filter (fun x => Ascii.eqb x c) (list_ascii_of_string s)).

Definition fields (p : auth.Permission) : list string :=
  [ auth.Namespace p; auth.Service p; auth.Resource p; auth.Verb p ].

(** One field of a permission matches the field of a requirement. *)
Definition field_matches (r p : string) : bool :=
  String.eqb r p || String.eqb p auth.Wildcard.

(** The sixteen classifiers, each with the reason it stands for. *)
Definition classifiers : list (StatusReason * (error -> bool)) :=
  [ (StatusReasonNotFound, IsNotFound);
    (StatusReasonAlreadyExists, IsAlreadyExists);
    (StatusReasonConflict, IsConflict);
    (StatusReasonInvalid, IsInvalid);
    (StatusReasonNotAcceptable, IsNotAcceptable);
    (StatusReasonUnsupportedMediaType, IsUnsupportedMediaType);
    (StatusReasonMethodNotAllowed, IsMethodNotSupported);
    (StatusReasonServiceUnavailable, IsServiceUnavailable);
    (StatusReasonBadRequest, IsBadRequest);
    (StatusReasonUnauthorized, IsUnauthorized);
    (StatusReasonForbidden, IsForbidden);
    (StatusReasonTimeout, IsTimeout);
    (StatusReasonServerTimeout, IsServerTimeout);
    (StatusReasonInternalError, IsInternalError);
    (StatusReasonTooManyRequests, IsTooManyRequests);
    (StatusReasonRequestEntityTooLarge, IsRequestEntityTooLargeError) ].

(** The classifier of the reason answers [true] on the error, and every
    other classifier answers [false]. *)
Definition classified_only_as (reason : StatusReason) (err : error) : Prop :=
  List.Forall (fun c => snd c err = String.eqb (fst c) reason) classifiers.

(** * The functions on every error value

    The first part of the file embeds the package on the error values it
    builds itself and on what [errors.New] and a single [%w] make of them:
    there every pointer is non-nil and [*StatusError] is the one type with a
    [Status] method.  A caller can hand the package more than that: an
    interface that holds a nil [*StatusError] or a nil
    [*UnexpectedObjectError], whose methods read through the receiver; a
    value of a type of its own, with or without a [Status] method; an error
    with several wrapped errors ([errors.Join], several [%w]); a list of
    field errors with a nil element; a nil [*Status]; a response with no
    body.  The module [full] embeds the functions that take such arguments
    on all of these, a panic being an outcome.  On the values of the first
    part the two embeddings agree (section "The two embeddings agree"). *)

(** The loop [for _, err := range x.Unwrap()] of [errors.As]: the first
    success of a search among the errors, in order. *)
Fixpoint first_found {A B : Type} (f : A -> option B) (l : list A) : option B :=
  match l with
  | [] => None
  | x :: rest =>
      match f x with
      | Some b => Some b
      | None => first_found f rest
      end
  end.

Module full.

(** A value of interface type [error]: the nil interface; a [*StatusError]
    or a [*UnexpectedObjectError], nil pointer or not; or a value of any
    other type, seen through what the package can observe of it: the
    outcome of its [Error] method, what [fmt] prints for it under [%v],
    the outcome of its [Status] method when its type has one, and what its
    [Unwrap] method yields (nothing when the type has none, the one error
    of an [Unwrap() error], the errors of an [Unwrap() []error]; a nil
    among them stands for a nil interface).  Left out are the types with
    an [As] method of their own and the values whose [Unwrap] method
    panics. *)
#[warnings="-register-all"]
Inductive error : Type :=
| nilError
| ptrStatusError (p : option StatusError)
| ptrUnexpectedObjectError (p : option UnexpectedObjectError)
| otherError (text : go string) (printed : string)
             (status : option (go Status)) (unwraps : list error).

(** The values of the standard library: [errors.New], and [fmt.Errorf]
    with one [%w] and with several. *)
Definition errorString (s : string) : error := otherError (Ok s) s None [].
Definition wrapError (msg : string) (err : error) : error :=
  otherError (Ok msg) msg None [ err ].

Definition notNil (err : error) : bool :=
  match err with
  | nilError => false
  | _ => true
  end.

(** [err.Error()].  The methods of [*StatusError] and of
    [*UnexpectedObjectError] read a field of the receiver: on a nil pointer
    they panic, as a method call on the nil interface does. *)
Definition Error (err : error) : go string :=
  match err with
  | nilError => Panic
  | ptrStatusError None => Panic
  | ptrStatusError (Some e) => Ok (StatusError_Error e)
  | ptrUnexpectedObjectError None => Panic
  | ptrUnexpectedObjectError (Some u) => Ok (UnexpectedObjectError_Error u)
  | otherError text _ _ _ => text
  end.

(** What [%v] prints for an error operand.  [fmt] recovers the panic of a
    method called on a nil pointer and prints [<nil>]. *)
Definition fmt_v (err : error) : string :=
  match err with
  | nilError => "<nil>"
  | ptrStatusError None => "<nil>"
  | ptrStatusError (Some e) => StatusError_Error e
  | ptrUnexpectedObjectError None => "<nil>"
  | ptrUnexpectedObjectError (Some u) => UnexpectedObjectError_Error u
  | otherError _ printed _ _ => printed
  end.

(** [fmt.Errorf(prefix + "%w", err)]. *)
Definition Errorf_w (prefix : string) (err : error) : error :=
  match err with
  | nilError => errorString (prefix ++ "%!w(<nil>)")
  | _ => wrapError (prefix ++ fmt_v err) err
  end.

(** A non-nil value of interface type [APIStatus], seen through its one
    method: the outcome of [Status()]. *)
Definition APIStatus : Type := go Status.
Definition APIStatus_Status (status : APIStatus) : go Status := status.

(** The type assertion [err.(APIStatus)], which is also the case
    [interface{ Status() Status }] of a type switch: it succeeds on every
    value whose type has the method, a nil [*StatusError] included. *)
Definition assert_APIStatus (err : error) : option APIStatus :=
  match err with
  | nilError => None
  | ptrStatusError None => Some Panic
  | ptrStatusError (Some e) => Some (Ok (StatusError_Status e))
  | ptrUnexpectedObjectError _ => None
  | otherError _ _ status _ => status
  end.

(** [errors.As(err, &target)] with [target] of interface type [APIStatus]:
    the value itself when it is assignable; otherwise what [Unwrap] yields
    is searched, in order and depth first, nil interfaces skipped. *)
Fixpoint As_APIStatus (err : error) : option APIStatus :=
  match err with
  | otherError _ _ None unwraps => first_found As_APIStatus unwraps
  | _ => assert_APIStatus err
  end.

(** [errors.As(err, &target)] with [target] of type
    [*UnexpectedObjectError]: the pointer found, nil or not. *)
Fixpoint As_UnexpectedObjectError (err : error)
  : option (option UnexpectedObjectError) :=
  match err with
  | nilError => None
  | ptrStatusError _ => None
  | ptrUnexpectedObjectError p => Some p
  | otherError _ _ _ unwraps => first_found As_UnexpectedObjectError unwraps
  end.

(** ** Cause lookup *)

Definition GetStatusCause (err : error) (name : CauseType)
  : go (StatusCause * bool) :=
  match assert_APIStatus err with
  | None => Ok (StatusCause_zero, false)
  | Some apierr =>
      status <-! APIStatus_Status apierr;
      match Status_Details status with
      | None => Ok (StatusCause_zero, false)
      | Some details =>
          match find_cause name (Details_Causes details) with
          | Some cause => Ok (cause, true)
          | None => Ok (StatusCause_zero, false)
          end
      end
  end.

Definition HasStatusCause (err : error) (name : CauseType) : go bool :=
  r <-! GetStatusCause err name;
  Ok (snd r).

(** ** Objects *)

(** A value of type [interface{}] handed to [FromObject]: a [*Status], nil
    pointer or not, or anything else, the nil interface included, with what
    [%v] prints for it. *)
Inductive object : Type :=
| object_Status (p : option Status)
| object_other (v : string).

(** [FromObject]: the case [*Status] of the type switch takes a nil pointer
    too, and [*t] panics on it. *)
Definition FromObject (obj : object) : go error :=
  match obj with
  | object_Status None => Panic
  | object_Status (Some t) => Ok (ptrStatusError (Some {| ErrStatus := t |}))
  | object_other v =>
      Ok (ptrUnexpectedObjectError
            (Some {| Object := {| any_Status := None; any_v := v |} |}))
  end.

(** ** Constructors that take an error or a list of field errors *)

(** A [*field.Error] as [NewInvalid] uses it: its type, its field path and
    the outcome of its [ErrorBody] method, which calls the [String] method
    of a bad value that has one.  A [field.ErrorList] is a slice of such
    pointers, [[]*field.Error]: an element may be nil. *)
Record FieldError : Type := {
  Type_ : string;
  Field : string;
  ErrorBody : go string
}.
Definition ErrorList : Type := list (option FieldError).

Section Constructors.
(** What [%v] prints for [errs.ToAggregate()]. *)
Variable Aggregate_v : ErrorList -> string.

Definition NewForbidden (name : string) (err : error) : StatusError :=
  let message := "forbidden: " ++ fmt_v err in
  {| ErrStatus := {|
       Status_Status := StatusFailure;
       Status_Code := http.StatusForbidden;
       Status_Reason := StatusReasonForbidden;
       Status_Message := message;
       Status_Details := Some {|
         Details_Name := name; Details_UID := "";
         Details_Causes := []; Details_RetryAfterSeconds := 0 |} |} |}.

Definition NewConflict (name : string) (err : error) : StatusError :=
  {| ErrStatus := {|
       Status_Status := StatusFailure;
       Status_Code := http.StatusConflict;
       Status_Reason := StatusReasonConflict;
       Status_Message :=
         "Operation cannot be fulfilled on " ++ name ++ ": " ++ fmt_v err;
       Status_Details := Some {|
         Details_Name := name; Details_UID := "";
         Details_Causes := []; Details_RetryAfterSeconds := 0 |} |} |}.

(** The loop of [NewInvalid]: [err.Type] panics on a nil element. *)
Fixpoint NewInvalid_causes (causes : list StatusCause) (errs : ErrorList)
  : go (list StatusCause) :=
  match errs with
  | [] => Ok causes
  | None :: _ => Panic
  | Some err :: rest =>
      message <-! ErrorBody err;
      NewInvalid_causes
        (causes ++ [ {| Cause_Type := Type_ err;
                        Cause_Message := message;
                        Cause_Field := Field err |} ])%list
        rest
  end.

Definition NewInvalid (name : string) (errs : ErrorList) : go StatusError :=
  causes <-! NewInvalid_causes [] errs;
  Ok {| ErrStatus := {|
       Status_Status := StatusFailure;
       Status_Code := http.StatusUnprocessableEntity;
       Status_Reason := StatusReasonInvalid;
       Status_Message := name ++ " is invalid: " ++ Aggregate_v errs;
       Status_Details := Some {|
         Details_Name := name; Details_UID := "";
         Details_Causes := causes; Details_RetryAfterSeconds := 0 |} |} |}.

Definition NewInternalError (err : error) : go StatusError :=
  text <-! Error err;
  Ok {| ErrStatus := {|
       Status_Status := StatusFailure;
       Status_Code := http.StatusInternalServerError;
       Status_Reason := StatusReasonInternalError;
       Status_Message := "Internal error occurred: " ++ fmt_v err;
       Status_Details := Some {|
         Details_Name := ""; Details_UID := "";
         Details_Causes :=
           [ {| Cause_Type := ""; Cause_Message := text; Cause_Field := "" |} ];
         Details_RetryAfterSeconds := 0 |} |} |}.
End Constructors.

(** ** Classifiers *)

Definition ReasonForError (err : error) : go StatusReason :=
  match As_APIStatus err with
  | Some status =>
      s <-! APIStatus_Status status;
      Ok (Status_Reason s)
  | None => Ok StatusReasonUnknown
  end.

Definition IsNotFound (err : error) : go bool :=
  r <-! ReasonForError err; Ok (String.eqb r StatusReasonNotFound).
Definition IsAlreadyExists (err : error) : go bool :=
  r <-! ReasonForError err; Ok (String.eqb r StatusReasonAlreadyExists).
Definition IsConflict (err : error) : go bool :=
  r <-! ReasonForError err; Ok (String.eqb r StatusReasonConflict).
Definition IsInvalid (err : error) : go bool :=
  r <-! ReasonForError err; Ok (String.eqb r StatusReasonInvalid).
Definition IsNotAcceptable (err : error) : go bool :=
  r <-! ReasonForError err; Ok (String.eqb r StatusReasonNotAcceptable).
Definition IsUnsupportedMediaType (err : error) : go bool :=
  r <-! ReasonForError err; Ok (String.eqb r StatusReasonUnsupportedMediaType).
Definition IsMethodNotSupported (err : error) : go bool :=
  r <-! ReasonForError err; Ok (String.eqb r StatusReasonMethodNotAllowed).
Definition IsServiceUnavailable (err : error) : go bool :=
  r <-! ReasonForError err; Ok (String.eqb r StatusReasonServiceUnavailable).
Definition IsBadRequest (err : error) : go bool :=
  r <-! ReasonForError err; Ok (String.eqb r StatusReasonBadRequest).
Definition IsUnauthorized (err : error) : go bool :=
  r <-! ReasonForError err; Ok (String.eqb r StatusReasonUnauthorized).
Definition IsForbidden (err : error) : go bool :=
  r <-! ReasonForError err; Ok (String.eqb r StatusReasonForbidden).
Definition IsTimeout (err : error) : go bool :=
  r <-! ReasonForError err; Ok (String.eqb r StatusReasonTimeout).
Definition IsServerTimeout (err : error) : go bool :=
  r <-! ReasonForError err; Ok (String.eqb r StatusReasonServerTimeout).
Definition IsInternalError (err : error) : go bool :=
  r <-! ReasonForError err; Ok (String.eqb r StatusReasonInternalError).

Definition IsTooManyRequests (err : error) : go bool :=
  r <-! ReasonForError err;
  if String.eqb r StatusReasonTooManyRequests then Ok true
  else
    match As_APIStatus err with
    | Some status =>
        s <-! APIStatus_Status status;
        Ok (Status_Code s =? http.StatusTooManyRequests)
    | None => Ok false
    end.

Definition IsRequestEntityTooLargeError (err : error) : go bool :=
  r <-! ReasonForError err;
  if String.eqb r StatusReasonRequestEntityTooLarge then Ok true
  else
    match As_APIStatus err with
    | Some status =>
        s <-! APIStatus_Status status;
        Ok (Status_Code s =? http.StatusRequestEntityTooLarge)
    | None => Ok false
    end.

Definition IsUnexpectedServerError (err : error) : go bool :=
  match As_APIStatus err with
  | Some status =>
      s <-! APIStatus_Status status;
      match Status_Details s with
      | Some details =>
          match find_cause CauseTypeUnexpectedServerResponse (Details_Causes details) with
          | Some _ => Ok true
          | None => Ok false
          end
      | None => Ok false
      end
  | None => Ok false
  end.

(** [IsUnexpectedObjectError] calls no method of the error. *)
Definition IsUnexpectedObjectError (err : error) : bool :=
  notNil err &&
  match As_UnexpectedObjectError err with
  | Some _ => true
  | None => false
  end.

(** ** Retry advisor *)

Definition SuggestsClientDelay (err : error) : go (Z * bool) :=
  match As_APIStatus err with
  | Some t =>
      s <-! APIStatus_Status t;
      match Status_Details s with
      | Some details =>
          if String.eqb (Status_Reason s) StatusReasonServerTimeout
          then Ok (Details_RetryAfterSeconds details, true)
          else if 0 <? Details_RetryAfterSeconds details
          then Ok (Details_RetryAfterSeconds details, true)
          else Ok (0, false)
      | None => Ok (0, false)
      end
  | None => Ok (0, false)
  end.

(** ** Wire converter *)

Section ErrorToAPIStatus.
(** What [%#+v] prints for an error value. *)
Variable GoSyntax_v : error -> string.

Definition ErrorToAPIStatus (err : error) : go (Status * list error) :=
  match assert_APIStatus err with
  | Some t =>
      status <-! APIStatus_Status t;
      let status :=
        if len (Status_Status status) =? 0
        then set_Status_Status StatusFailure status else status in
      if String.eqb (Status_Status status) StatusSuccess then
        Ok (if Status_Code status =? 0
            then set_Status_Code http.StatusOK status else status, [])
      else if String.eqb (Status_Status status) StatusFailure then
        Ok (if Status_Code status =? 0
            then set_Status_Code http.StatusInternalServerError status
            else status, [])
      else
        Ok (if Status_Code status =? 0
            then set_Status_Code http.StatusInternalServerError status
            else status,
            [ errorString
                ("apiserver received an error with wrong status field : "
                 ++ GoSyntax_v err) ])
  | None =>
      let status := http.StatusInternalServerError in
      text <-! Error err;
      Ok ({| Status_Status := StatusFailure;
             Status_Code := int32 status;
             Status_Reason := StatusReasonUnknown;
             Status_Message := text;
             Status_Details := None |}, [])
  end.

(** [httputils.WriteError]. *)
Definition WriteError (omitempty : bool) (err : error)
  : go (list ResponseWriter.call * list error) :=
  r <-! ErrorToAPIStatus err;
  let '(status, logged) := r in
  let retry :=
    match Status_Details status with
    | Some details =>
        if 0 <? Details_RetryAfterSeconds details then
          let delay := strconv_Itoa (Details_RetryAfterSeconds details) in
          [ ResponseWriter.Header_Set "Retry-After" delay ]
        else []
    | None => []
    end in
  Ok ((retry ++ httputils.WriteRawJSON omitempty (Status_Code status) status)%list,
      logged).
End ErrorToAPIStatus.

(** ** Responses *)

(** The [Body] of a response as [ioutil.ReadAll] sees it: nil; a reader
    that delivers bytes and ends with an error ([nilError] at a clean end
    of input); or a reader whose [Read] panics. *)
Inductive ReadCloser : Type :=
| nil_Body
| Body_reads (data : list Byte.byte) (err : error)
| Body_panics.

Record Response : Type := {
  StatusCode : Z;
  Header_ : http.Header;
  Body : ReadCloser
}.

(** [ioutil.ReadAll]: it calls [Read], which panics on a nil reader. *)
Definition ReadAll (r : ReadCloser) : go (list Byte.byte * error) :=
  match r with
  | nil_Body => Panic
  | Body_reads data err => Ok (data, err)
  | Body_panics => Panic
  end.

Definition retryAfterSeconds (resp : Response) : Z * bool :=
  let h := http.Header_Get (Header_ resp) "Retry-After" in
  if 0 <? len h then
    match strconv.Atoi h with
    | Some i => (i, true)
    | None => (0, false)
    end
  else (0, false).

Section FromResponse.
Variable json_Unmarshal : list Byte.byte -> Status -> Status * error.

(** [FromResponse] takes a [*http.Response]: reading [resp.StatusCode]
    through a nil pointer panics. *)
Definition FromResponse (resp : option Response) : go (error * bool) :=
  match resp with
  | None => Panic
  | Some resp =>
      if (http.StatusOK <=? StatusCode resp)
         && (StatusCode resp <=? http.StatusNoContent)
      then Ok (nilError, false)
      else
        r <-! ReadAll (Body resp);
        let '(body, err) := r in
        if notNil err then
          e <-! NewInternalError
                  (Errorf_w "client error: reading server response: " err);
          Ok (ptrStatusError (Some e), true)
        else
          let '(status, err) := json_Unmarshal body Status_zero in
          if notNil err then
            e <-! NewInternalError
                    (Errorf_w "client error: unmarshalling server response: " err);
            Ok (ptrStatusError (Some e), true)
          else
            let '(seconds, ok) := retryAfterSeconds resp in
            let status :=
              if ok then
                match Status_Details status with
                | None =>
                    set_Status_Details
                      (Some (set_Details_RetryAfterSeconds (int32 seconds)
                               StatusDetails_zero))
                      status
                | Some details =>
                    set_Status_Details
                      (Some (set_Details_RetryAfterSeconds (int32 seconds) details))
                      status
                end
              else status in
            Ok (ptrStatusError (Some {| ErrStatus := status |}), true)
  end.
End FromResponse.

(** ** Vocabulary *)

(** The values [errors.As] visits, in its order: the value, then what its
    [Unwrap] yields, depth first. *)
Fixpoint chain (err : error) : list error :=
  match err with
  | nilError => []
  | otherError _ _ _ unwraps => err :: flat_map chain unwraps
  | _ => [ err ]
  end.

Definition exposes_Status (v : error) : bool :=
  match assert_APIStatus v with
  | Some _ => true
  | None => false
  end.

(** The outcome of [Status()] on the first value of the chain that has the
    method. *)
Definition first_Status (err : error) : option (go Status) :=
  match List.find exposes_Status (chain err) with
  | Some v => assert_APIStatus v
  | None => None
  end.

Definition is_UnexpectedObjectError (v : error) : bool :=
  match v with
  | ptrUnexpectedObjectError _ => true
  | _ => false
  end.

(** An element of a list of field errors that the loop of [NewInvalid]
    gets through: a non-nil pointer whose [ErrorBody] returns. *)
Definition readable (x : option FieldError) : bool :=
  match x with
  | Some err =>
      match ErrorBody err with
      | Ok _ => true
      | Panic => false
      end
  | None => false
  end.

(** Wrapping an error once per message with [%w], outermost message
    first. *)
Definition wrap_all (msgs : list string) (err : error) : error :=
  fold_right wrapError err msgs.

End full.

(** The values of the first part among all error values. *)
Fixpoint plain (err : error) : full.error :=
  match err with
  | nilError => full.nilError
  | errorString s => full.errorString s
  | wrapError msg inner => full.wrapError msg (plain inner)
  | ofStatusError e => full.ptrStatusError (Some e)
  | ofUnexpectedObjectError u => full.ptrUnexpectedObjectError (Some u)
  end.

(** The map of a function over the result of a computation. *)
Definition go_map {A B : Type} (f : A -> B) (m : go A) : go B :=
  match m with
  | Ok a => Ok (f a)
  | Panic => Panic
  end.

Definition plain_FieldError (err : field.Error) : option full.FieldError :=
  Some {| full.Type_ := field.Type_ err; full.Field := field.Field err;
          full.ErrorBody := Ok (field.ErrorBody err) |}.

Definition plain_Response (resp : http.Response) : full.Response :=
  {| full.StatusCode := http.StatusCode resp;
     full.Header_ := http.Header_ resp;
     full.Body := full.Body_reads (io.data (http.Body resp))
                    (plain (io.err (http.Body resp))) |}.

(** * Properties *)

(** ** Constructors *)

Lemma int32_id (z : Z) : int32_min <= z <= int32_max -> int32 z = z.
Proof.
  unfold int32, int32_min, int32_max. intros H.
  rewrite Z.mod_small; lia.
Qed.

Lemma int32_range (z : Z) : int32_min <= int32 z <= int32_max.
Proof.
  unfold int32, int32_min, int32_max.
  pose proof (Z.mod_pos_bound (z + 2 ^ 31) (2 ^ 32)). lia.
Qed.

Lemma Error_notNil (err : error) :
  notNil err = true -> Error err = Ok (fmt.v err).
Proof. destruct err; simpl; congruence. Qed.

Lemma NewInternalError_notNil (err : error) :
  notNil err = true -> NewInternalError err = Ok (internal_error (fmt.v err)).
Proof.
  intros H. unfold NewInternalError. rewrite (Error_notNil _ H). reflexivity.
Qed.

Lemma notNil_Errorf_w (prefix : string) (err : error) :
  notNil (fmt.Errorf_w prefix err) = true.
Proof. destruct err; reflexivity. Qed.

(** ** Classifiers *)

Lemma As_APIStatus_first_Status (err : error) :
  option_map StatusError_Status (errors.As_APIStatus err) = first_Status err.
Proof.
  unfold first_Status.
  induction err as [ | s | msg inner IH | e | u ]; simpl; try reflexivity.
  exact IH.
Qed.

Lemma ReasonForError_found_reason (err : error) :
  ReasonForError err = found_reason err.
Proof.
  unfold ReasonForError, found_reason.
  rewrite <- As_APIStatus_first_Status.
  destruct (errors.As_APIStatus err); reflexivity.
Qed.

Lemma As_APIStatus_wrap_all (msgs : list string) (err : error) :
  errors.As_APIStatus (wrap_all msgs err) = errors.As_APIStatus err.
Proof. induction msgs as [ | m msgs IH ]; simpl; auto. Qed.

Lemma ReasonForError_wrap_all (msgs : list string) (err : error) :
  ReasonForError (wrap_all msgs err) = ReasonForError err.
Proof. unfold ReasonForError. now rewrite As_APIStatus_wrap_all. Qed.

Lemma reason_classifier (reason : StatusReason) (err : error) :
  String.eqb (ReasonForError err) reason = true <-> found_reason err = reason.
Proof. rewrite ReasonForError_found_reason. apply String.eqb_eq. Qed.

Lemma first_Status_As (err : error) :
  first_Status err = option_map StatusError_Status (errors.As_APIStatus err).
Proof. symmetry. apply As_APIStatus_first_Status. Qed.

(** ** The generic constructor *)

Lemma len_zero (s : string) : (len s =? 0) = true <-> s = "".
Proof.
  unfold len. destruct s; simpl; split; intros H; try reflexivity; discriminate.
Qed.

Ltac split_code :=
  repeat match goal with
         | |- context [ ?a =? ?b ] =>
             destruct (Z.eqb_spec a b); [ try (exfalso; unfold http.StatusConflict,
               http.StatusNotFound, http.StatusBadRequest, http.StatusUnauthorized,
               http.StatusForbidden, http.StatusNotAcceptable,
               http.StatusUnsupportedMediaType, http.StatusMethodNotAllowed,
               http.StatusUnprocessableEntity, http.StatusServiceUnavailable,
               http.StatusGatewayTimeout, http.StatusTooManyRequests in *; lia) | ]
         end.

(** C4, as stated, fails: the code is stored as [int32(code)], so a code
    outside the 32-bit range is not kept; here it is stored as 404 while the
    reason is the one of a code above 500. *)
Lemma NewGenericServerResponse_code_wraps :
  Status_Code (ErrStatus
    (NewGenericServerResponse (fun s => s) 4294967700 "GET" "res" "msg" 0 false)) = 404
  /\ Status_Reason (ErrStatus
    (NewGenericServerResponse (fun s => s) 4294967700 "GET" "res" "msg" 0 false))
     = StatusReasonInternalError.
Proof. split; reflexivity. Qed.

(** C4 (amended): [NewGenericServerResponse] returns a [Failure] status
    error whose code is the given code converted to [int32] and whose reason
    and message follow the decision table, the creation verb being [POST];
    the details always carry the name and the retry hint (converted to
    [int32]), and carry exactly one cause, of type unexpected server response
    with the raw server message, when [isUnexpectedResponse] is set, and no
    cause otherwise. *)
Theorem NewGenericServerResponse_table
    (Quote : string -> string) (code : Z) (verb name serverMessage : string)
    (retryAfterSeconds : Z) (isUnexpectedResponse : bool) :
  let s := ErrStatus (NewGenericServerResponse Quote code verb name serverMessage
                        retryAfterSeconds isUnexpectedResponse) in
  Status_Status s = StatusFailure
  /\ Status_Code s = int32 code
  /\ (code = 409 -> verb = "POST" -> Status_Reason s = StatusReasonAlreadyExists)
  /\ (code = 409 -> verb <> "POST" -> Status_Reason s = StatusReasonConflict)
  /\ (code = 404 -> Status_Reason s = StatusReasonNotFound)
  /\ (code = 400 -> Status_Reason s = StatusReasonBadRequest)
  /\ (code = 401 -> Status_Reason s = StatusReasonUnauthorized)
  /\ (code = 403 ->
      Status_Reason s = StatusReasonForbidden /\ Status_Message s = serverMessage)
  /\ (code = 406 ->
      Status_Reason s = StatusReasonNotAcceptable
      /\ (serverMessage = "" \/ serverMessage = "unknown" ->
          Status_Message s =
            "the server was unable to respond with a content type that the client supports")
      /\ (serverMessage <> "" -> serverMessage <> "unknown" ->
          Status_Message s = serverMessage))
  /\ (code = 415 ->
      Status_Reason s = StatusReasonUnsupportedMediaType
      /\ Status_Message s = serverMessage)
  /\ (code = 405 -> Status_Reason s = StatusReasonMethodNotAllowed)
  /\ (code = 422 -> Status_Reason s = StatusReasonInvalid)
  /\ (code = 503 -> Status_Reason s = StatusReasonServiceUnavailable)
  /\ (code = 504 -> Status_Reason s = StatusReasonTimeout)
  /\ (code = 429 -> Status_Reason s = StatusReasonTooManyRequests)
  /\ (500 <= code -> code <> 503 -> code <> 504 ->
      Status_Reason s = StatusReasonInternalError
      /\ Status_Message s =
           "an error on the server (" ++ Quote serverMessage
           ++ ") has prevented the request from succeeding")
  /\ (code < 500 ->
      ~ In code [409; 404; 400; 401; 403; 406; 415; 405; 422; 429] ->
      Status_Reason s = StatusReasonUnknown
      /\ Status_Message s =
           "the server responded with the status code " ++ fmt.d code
           ++ " but did not return more information")
  /\ Status_Details s =
       Some {| Details_Name := name; Details_UID := "";
               Details_Causes :=
                 if isUnexpectedResponse then
                   [ {| Cause_Type := CauseTypeUnexpectedServerResponse;
                        Cause_Message := serverMessage; Cause_Field := "" |} ]
                 else [];
               Details_RetryAfterSeconds := int32 retryAfterSeconds |}.
Proof.
  cbv zeta. unfold NewGenericServerResponse.
  destruct (GenericServerResponse_reason_message Quote code verb serverMessage)
    as [reason message] eqn:E.
  cbn [ErrStatus Status_Status Status_Code Status_Reason Status_Message Status_Details].
  unfold GenericServerResponse_reason_message in E.
  split; [ reflexivity | ]. split; [ reflexivity | ].
  split. { intros -> ->. simpl in E. congruence. }
  split. { intros -> Hv. apply String.eqb_neq in Hv. simpl in E. rewrite Hv in E.
           congruence. }
  split. { intros ->. simpl in E. congruence. }
  split. { intros ->. simpl in E. congruence. }
  split. { intros ->. simpl in E. congruence. }
  split. { intros ->. simpl in E. split; congruence. }
  split.
  { intros ->. cbn [Z.eqb Pos.eqb http.StatusConflict http.StatusNotFound
      http.StatusBadRequest http.StatusUnauthorized http.StatusForbidden
      http.StatusNotAcceptable] in E.
    injection E as <- <-. split; [ reflexivity | ]. split.
    - intros [ -> | -> ]; reflexivity.
    - intros H1 H2.
      destruct (len serverMessage =? 0) eqn:E0.
      + apply len_zero in E0. contradiction.
      + apply String.eqb_neq in H2. rewrite H2. reflexivity. }
  split. { intros ->. simpl in E. split; congruence. }
  split. { intros ->. simpl in E. congruence. }
  split. { intros ->. simpl in E. congruence. }
  split. { intros ->. simpl in E. congruence. }
  split. { intros ->. simpl in E. congruence. }
  split. { intros ->. simpl in E. congruence. }
  split.
  { intros H500 H503 H504. revert E. split_code.
    destruct (Z.leb_spec 500 code); [ | lia ]. intros E. split; congruence. }
  split.
  { intros Hlt Hnot. simpl in Hnot. revert E. split_code.
    all: try (exfalso; apply Hnot; tauto).
    destruct (Z.leb_spec 500 code); [ lia | ]. intros E. split; congruence. }
  reflexivity.
Qed.

(** ** Wire converter: [ErrorToAPIStatus] *)

Lemma normalized_cases (s : Status) :
  Status_Status (normalized s)
  = (if String.eqb (Status_Status s) "" then StatusFailure else Status_Status s)
  /\ (Status_Code s <> 0 -> Status_Code (normalized s) = Status_Code s)
  /\ (Status_Code s = 0 -> Status_Status (normalized s) = StatusSuccess ->
      Status_Code (normalized s) = 200)
  /\ (Status_Code s = 0 -> Status_Status (normalized s) <> StatusSuccess ->
      Status_Code (normalized s) = 500)
  /\ Status_Reason (normalized s) = Status_Reason s
  /\ Status_Message (normalized s) = Status_Message s
  /\ Status_Details (normalized s) = Status_Details s.
Proof.
  unfold normalized; simpl. repeat split.
  - intros H. apply Z.eqb_neq in H. now rewrite H.
  - intros -> H. simpl. rewrite H. reflexivity.
  - intros -> H. simpl. apply String.eqb_neq in H. now rewrite H.
Qed.

(** ** Wire converter: [FromResponse] *)

Lemma notNil_true (err : error) : notNil err = true <-> err <> nilError.
Proof. destruct err; simpl; split; congruence. Qed.

Lemma notNil_false (err : error) : notNil err = false <-> err = nilError.
Proof. destruct err; simpl; split; congruence. Qed.

Lemma Unwrap_Errorf_w (prefix : string) (err : error) :
  err <> nilError -> errors.Unwrap (fmt.Errorf_w prefix err) = err.
Proof. destruct err; simpl; congruence. Qed.

Lemma v_Errorf_w (prefix : string) (err : error) :
  err <> nilError -> fmt.v (fmt.Errorf_w prefix err) = prefix ++ fmt.v err.
Proof. destruct err; simpl; congruence. Qed.

Lemma success_code_dec (resp : http.Response) :
  ((http.StatusOK <=? http.StatusCode resp)
   && (http.StatusCode resp <=? http.StatusNoContent)) = true
  <-> success_code resp.
Proof.
  unfold success_code, http.StatusOK, http.StatusNoContent.
  rewrite andb_true_iff, !Z.leb_le. tauto.
Qed.

(** [FromResponse], branch by branch. *)
Lemma FromResponse_unfold
    (U : list Byte.byte -> Status -> Status * error) (resp : http.Response) :
  FromResponse U resp =
    if (http.StatusOK <=? http.StatusCode resp)
       && (http.StatusCode resp <=? http.StatusNoContent)
    then Ok (nilError, false)
    else if notNil (io.err (http.Body resp)) then
      Ok (ofStatusError
            (internal_error
               (fmt.v (fmt.Errorf_w "client error: reading server response: "
                         (io.err (http.Body resp))))), true)
    else if notNil (snd (U (io.data (http.Body resp)) Status_zero)) then
      Ok (ofStatusError
            (internal_error
               (fmt.v (fmt.Errorf_w "client error: unmarshalling server response: "
                         (snd (U (io.data (http.Body resp)) Status_zero))))), true)
    else
      Ok (ofStatusError
            {| ErrStatus :=
                 if snd (retryAfterSeconds resp)
                 then with_retry (int32 (fst (retryAfterSeconds resp)))
                        (fst (U (io.data (http.Body resp)) Status_zero))
                 else fst (U (io.data (http.Body resp)) Status_zero) |}, true).
Proof.
  unfold FromResponse, ioutil.ReadAll.
  destruct (_ && _); [ reflexivity | ].
  destruct (notNil (io.err (http.Body resp))).
  { rewrite NewInternalError_notNil by apply notNil_Errorf_w. reflexivity. }
  destruct (U (io.data (http.Body resp)) Status_zero) as [status derr].
  cbn [fst snd].
  destruct (notNil derr).
  { rewrite NewInternalError_notNil by apply notNil_Errorf_w. reflexivity. }
  destruct (retryAfterSeconds resp) as [seconds [ | ]]; cbn [fst snd];
    [ | reflexivity ].
  unfold with_retry. destruct (Status_Details status); reflexivity.
Qed.

(** C6: a response with a code in [200, 204] is no error, whatever its body;
    outside that range, a failed read of the body and a failed decoding both
    come back as a [StatusError] classified [InternalError], built from the
    [%w] wrapper of the failure and returned with [hasError = true]; the
    function never panics. *)
Theorem FromResponse_failures_are_internal
    (json_Unmarshal : list Byte.byte -> Status -> Status * error)
    (resp : http.Response) :
  let body := http.Body resp in
  let decoded := json_Unmarshal (io.data body) Status_zero in
  (success_code resp -> FromResponse json_Unmarshal resp = Ok (nilError, false))
  /\ (~ success_code resp -> io.err body <> nilError ->
      let w := fmt.Errorf_w "client error: reading server response: " (io.err body) in
      FromResponse json_Unmarshal resp
      = Ok (ofStatusError (internal_error (fmt.v w)), true)
      /\ errors.Unwrap w = io.err body
      /\ fmt.v w = "client error: reading server response: " ++ fmt.v (io.err body))
  /\ (~ success_code resp -> io.err body = nilError -> snd decoded <> nilError ->
      let w := fmt.Errorf_w "client error: unmarshalling server response: "
                 (snd decoded) in
      FromResponse json_Unmarshal resp
      = Ok (ofStatusError (internal_error (fmt.v w)), true)
      /\ errors.Unwrap w = snd decoded
      /\ fmt.v w = "client error: unmarshalling server response: " ++ fmt.v (snd decoded))
  /\ (forall text,
        IsInternalError (internal_error text) = true
        /\ ReasonForError (internal_error text) = StatusReasonInternalError)
  /\ FromResponse json_Unmarshal resp <> Panic.
Proof.
  cbv zeta. rewrite FromResponse_unfold.
  pose proof (success_code_dec resp) as Hs.
  destruct (_ && _).
  { repeat split; try discriminate; tauto. }
  assert (Hn : ~ success_code resp) by (intros H; apply Hs in H; discriminate).
  split; [ tauto | ].
  split.
  { intros _ He. apply notNil_true in He as He'. rewrite He'.
    repeat split; auto using Unwrap_Errorf_w, v_Errorf_w. }
  split.
  { intros _ He Hd. apply notNil_false in He. rewrite He.
    apply notNil_true in Hd as Hd'. rewrite Hd'.
    repeat split; auto using Unwrap_Errorf_w, v_Errorf_w. }
  split; [ intros; split; reflexivity | ].
  destruct (notNil _); [ discriminate | ].
  destruct (notNil _); discriminate.
Qed.

(** *** [strconv.Atoi] reads exactly the decimal integers *)

Lemma string_of_uint_head (ds : Decimal.uint) :
  ds <> Decimal.Nil ->
  exists c rest,
    NilEmpty.string_of_uint ds = String c rest
    /\ Ascii.eqb c "-" = false /\ Ascii.eqb c "+" = false.
Proof.
  destruct ds; try congruence; intros _; simpl; eauto.
Qed.

Lemma Atoi_decimal (h : string) (i : Z) :
  strconv.Atoi h = Some i <-> decimal_integer h i.
Proof.
  unfold strconv.Atoi, strconv.digits, decimal_integer. split.
  - destruct h as [ | c rest ]; [ discriminate | ].
    set (neg := Ascii.eqb c "-").
    destruct (neg || Ascii.eqb c "+") eqn:Esign.
    + destruct rest as [ | c' rest' ]; [ discriminate | ].
      destruct (NilEmpty.uint_of_string (String c' rest')) as [ ds | ] eqn:Eds;
        [ | discriminate ].
      cbn [option_map].
      destruct (_ && _) eqn:Er; [ | discriminate ].
      intros [= <-]. apply NilEmpty.sus in Eds.
      apply andb_true_iff in Er as [ ?%Z.leb_le ?%Z.leb_le ].
      exists (String c ""), ds. rewrite Eds.
      split; [ reflexivity | ].
      split; [ intros ->; discriminate | ].
      split; [ | lia ].
      subst neg. destruct (Ascii.eqb_spec c "-") as [ -> | Hc ].
      * right. auto.
      * left. simpl in Esign. apply Ascii.eqb_eq in Esign as ->. auto.
    + destruct (NilEmpty.uint_of_string (String c rest)) as [ ds | ] eqn:Eds;
        [ | discriminate ].
      cbn [option_map].
      apply orb_false_iff in Esign as [ Eneg _ ]. rewrite Eneg.
      destruct (_ && _) eqn:Er; [ | discriminate ].
      intros [= <-]. apply NilEmpty.sus in Eds.
      apply andb_true_iff in Er as [ ?%Z.leb_le ?%Z.leb_le ].
      exists "", ds. rewrite Eds.
      split; [ reflexivity | ].
      split; [ intros ->; discriminate | ].
      split; [ auto | lia ].
  - intros (sign & ds & -> & Hds & Hsign & Hrange).
    destruct (string_of_uint_head ds Hds) as (c & rest & Ehead & Hminus & Hplus).
    assert (Er : ((int_min <=? i) && (i <=? int_max)) = true)
      by (apply andb_true_iff; rewrite !Z.leb_le; lia).
    destruct Hsign as [ [ [ -> | -> ] -> ] | [ -> -> ] ].
    + change ("" ++ NilEmpty.string_of_uint ds) with (NilEmpty.string_of_uint ds).
      rewrite Ehead. cbv beta iota zeta. rewrite Hminus, Hplus. cbn [orb].
      rewrite <- Ehead, NilEmpty.usu. cbn [option_map]. now rewrite Er.
    + change ("+" ++ NilEmpty.string_of_uint ds)
        with (String "+" (NilEmpty.string_of_uint ds)).
      cbv beta iota zeta. change (Ascii.eqb "+" "-") with false.
      change (Ascii.eqb "+" "+") with true. cbn [orb].
      rewrite Ehead at 1. rewrite NilEmpty.usu. cbn [option_map]. now rewrite Er.
    + change ("-" ++ NilEmpty.string_of_uint ds)
        with (String "-" (NilEmpty.string_of_uint ds)).
      cbv beta iota zeta. change (Ascii.eqb "-" "-") with true. cbn [orb].
      rewrite Ehead at 1. rewrite NilEmpty.usu. cbn [option_map]. now rewrite Er.
Qed.

Lemma fmt_d_decimal (n : Z) :
  int_min <= n <= int_max -> decimal_integer (fmt.d n) n.
Proof.
  intros Hr. unfold decimal_integer, fmt.d.
  destruct n as [ | p | p ]; simpl.
  - exists "", (Decimal.D0 Decimal.Nil). repeat split; auto; try lia; discriminate.
  - exists "", (Pos.to_uint p).
    pose proof (DecimalPos.Unsigned.to_uint_nonnil p) as Hn.
    split; [ revert Hn; destruct (Pos.to_uint p); intros Hn;
             [ congruence | reflexivity .. ] | ].
    split; [ exact Hn | ].
    split; [ | lia ].
    left. split; [ auto | ].
    unfold Z.of_uint. now rewrite DecimalPos.Unsigned.of_to.
  - exists "-", (Pos.to_uint p).
    pose proof (DecimalPos.Unsigned.to_uint_nonnil p) as Hn.
    split; [ revert Hn; destruct (Pos.to_uint p); intros Hn;
             [ congruence | reflexivity .. ] | ].
    split; [ exact Hn | ].
    split; [ | lia ].
    right. split; [ auto | ].
    unfold Z.of_uint. now rewrite DecimalPos.Unsigned.of_to.
Qed.

Lemma decimal_integer_functional (h : string) (i j : Z) :
  decimal_integer h i -> decimal_integer h j -> i = j.
Proof. rewrite <- !Atoi_decimal. congruence. Qed.

Lemma retryAfterSeconds_decimal (resp : http.Response) (i : Z) :
  decimal_integer (retry_after_header resp) i ->
  retryAfterSeconds resp = (i, true).
Proof.
  intros H. unfold retryAfterSeconds. fold (retry_after_header resp).
  apply Atoi_decimal in H as Ha. rewrite Ha.
  destruct (0 <? len (retry_after_header resp)) eqn:El; [ reflexivity | ].
  destruct (retry_after_header resp); [ discriminate | ].
  unfold len in El. simpl in El. apply Z.ltb_ge in El. lia.
Qed.

Lemma retryAfterSeconds_not_decimal (resp : http.Response) :
  (forall i, ~ decimal_integer (retry_after_header resp) i) ->
  retryAfterSeconds resp = (0, false).
Proof.
  intros H. unfold retryAfterSeconds. fold (retry_after_header resp).
  destruct (strconv.Atoi (retry_after_header resp)) as [ i | ] eqn:Ha.
  - apply Atoi_decimal in Ha. now destruct (H i).
  - now destruct (0 <? _).
Qed.

Lemma empty_not_decimal (i : Z) : ~ decimal_integer "" i.
Proof. rewrite <- Atoi_decimal. discriminate. Qed.

(** C7, as stated, fails: a [Retry-After] header that is a negative integer
    is not ignored but stored, and one beyond the 32-bit range is stored
    wrapped around. *)
Lemma FromResponse_retry_after_negative :
  FromResponse json.Unmarshal (response_with_retry_after "-5")
  = Ok (ofStatusError {| ErrStatus := with_retry (-5) Status_zero |}, true)
  /\ FromResponse json.Unmarshal (response_with_retry_after "4294967303")
     = Ok (ofStatusError {| ErrStatus := with_retry 7 Status_zero |}, true).
Proof. split; vm_compute; reflexivity. Qed.

(** C7 (amended): when the body decodes to a status, a [Retry-After] header
    that [strconv.Atoi] reads as a decimal integer (optional sign, digits,
    within the range of [int]) sets [details.retryAfterSeconds] to that
    integer converted to [int32], overriding the decoded value and creating
    the details when absent: for a non-negative integer below [2^31] this is
    the number itself.  A missing or empty header, and one that is not a
    decimal integer, is ignored: the decoded status is returned unchanged,
    with [hasError = true] and no failure. *)
Theorem FromResponse_retry_after
    (json_Unmarshal : list Byte.byte -> Status -> Status * error)
    (resp : http.Response) (status : Status) :
  ~ success_code resp ->
  io.err (http.Body resp) = nilError ->
  json_Unmarshal (io.data (http.Body resp)) Status_zero = (status, nilError) ->
  (forall i, decimal_integer (retry_after_header resp) i ->
     FromResponse json_Unmarshal resp
     = Ok (ofStatusError {| ErrStatus := with_retry (int32 i) status |}, true))
  /\ (forall n, 0 <= n <= int32_max -> retry_after_header resp = fmt.d n ->
        FromResponse json_Unmarshal resp
        = Ok (ofStatusError {| ErrStatus := with_retry n status |}, true))
  /\ ((forall i, ~ decimal_integer (retry_after_header resp) i) ->
        FromResponse json_Unmarshal resp
        = Ok (ofStatusError {| ErrStatus := status |}, true))
  /\ (http.Header_ resp !! "Retry-After" = None ->
        FromResponse json_Unmarshal resp
        = Ok (ofStatusError {| ErrStatus := status |}, true)).
Proof.
  intros Hcode Hread Hdec.
  assert (Hi : forall i, decimal_integer (retry_after_header resp) i ->
     FromResponse json_Unmarshal resp
     = Ok (ofStatusError {| ErrStatus := with_retry (int32 i) status |}, true)).
  { intros i Hi. rewrite FromResponse_unfold.
    destruct (_ && _) eqn:Es; [ apply success_code_dec in Es; contradiction | ].
    rewrite Hread, Hdec. cbn [notNil fst snd].
    rewrite (retryAfterSeconds_decimal _ _ Hi). reflexivity. }
  assert (Hno : (forall i, ~ decimal_integer (retry_after_header resp) i) ->
     FromResponse json_Unmarshal resp
     = Ok (ofStatusError {| ErrStatus := status |}, true)).
  { intros Hn. rewrite FromResponse_unfold.
    destruct (_ && _) eqn:Es; [ apply success_code_dec in Es; contradiction | ].
    rewrite Hread, Hdec. cbn [notNil fst snd].
    rewrite (retryAfterSeconds_not_decimal _ Hn). reflexivity. }
  split; [ exact Hi | ].
  split.
  { intros n Hn Hh.
    rewrite <- (int32_id n) by (unfold int32_min, int32_max in *; lia).
    apply Hi. rewrite Hh. apply fmt_d_decimal.
    unfold int_min, int_max, int32_max in *. lia. }
  split; [ exact Hno | ].
  intros Hmiss. apply Hno. intros i.
  unfold retry_after_header, http.Header_Get. rewrite Hmiss.
  apply empty_not_decimal.
Qed.

Lemma FromResponse_retry_after_witness :
  FromResponse json.Unmarshal (response_with_retry_after "7")
  = Ok (ofStatusError {| ErrStatus := with_retry 7 Status_zero |}, true).
Proof.
  refine (proj1 (FromResponse_retry_after json.Unmarshal
                   (response_with_retry_after "7") Status_zero _ _ _) 7 _).
  - unfold success_code. simpl. lia.
  - reflexivity.
  - vm_compute. reflexivity.
  - apply Atoi_decimal. vm_compute. reflexivity.
Defined.
Import utf8 json json_spec.

(** ** The JSON codec *)

(** *** Bytes and UTF-8 *)

Lemma byte_val_range (c : ascii) : 0 <= byte_val c < 256.
Proof.
  unfold byte_val. pose proof (N_ascii_bounded c). lia.
Qed.

Lemma byte_val_inj (c d : ascii) : byte_val c = byte_val d -> c = d.
Proof.
  unfold byte_val. intros H. apply N2Z.inj in H.
  rewrite <- (ascii_N_embedding c), <- (ascii_N_embedding d). now rewrite H.
Qed.

Lemma eqb_byte_val (c d : ascii) : byte_val c <> byte_val d -> Ascii.eqb c d = false.
Proof. intros H. apply Ascii.eqb_neq. congruence. Qed.

(** Boolean tests on bytes, turned into arithmetic. *)
Ltac bytes_arith :=
  unfold lead3, lead4, is_number_char, is_digit, is_letter, is_space,
    cont, between in *;
  repeat match goal with
         | H : _ && _ = true |- _ => apply andb_true_iff in H; destruct H
         | H : _ || _ = true |- _ => apply orb_true_iff in H; destruct H
         | H : _ && _ = false |- _ => apply andb_false_iff in H; destruct H
         | H : _ || _ = false |- _ => apply orb_false_iff in H; destruct H
         | H : (_ <=? _) = true |- _ => apply Z.leb_le in H
         | H : (_ <=? _) = false |- _ => apply Z.leb_gt in H
         | H : (_ <? _) = true |- _ => apply Z.ltb_lt in H
         | H : (_ <? _) = false |- _ => apply Z.ltb_ge in H
         | H : (_ =? _) = true |- _ => apply Z.eqb_eq in H
         | H : (_ =? _) = false |- _ => apply Z.eqb_neq in H
         end.

Lemma rune_len_1 (c0 : ascii) (r0 : string) :
  byte_val c0 < 128 -> rune_len (String c0 r0) = 1%nat.
Proof.
  intros H. unfold rune_len.
  destruct (Z.ltb_spec (byte_val c0) 128); [ reflexivity | lia ].
Qed.

Lemma rune_len_2 (c0 c1 : ascii) (r1 : string) :
  between 0xC2 0xDF c0 && cont c1 = true ->
  rune_len (String c0 (String c1 r1)) = 2%nat.
Proof.
  intros H. unfold rune_len. rewrite H.
  bytes_arith. destruct (Z.ltb_spec (byte_val c0) 128); [ lia | reflexivity ].
Qed.

Lemma rune_len_3 (c0 c1 c2 : ascii) (r2 : string) :
  lead3 c0 c1 && cont c2 = true ->
  rune_len (String c0 (String c1 (String c2 r2))) = 3%nat.
Proof.
  intros H. unfold rune_len. rewrite H.
  assert (between 0xC2 0xDF c0 = false /\ 128 <= byte_val c0) as [ -> ? ].
  { split; [ apply not_true_is_false; intros E | ]; bytes_arith; lia. }
  destruct (Z.ltb_spec (byte_val c0) 128); [ lia | reflexivity ].
Qed.

Lemma rune_len_4 (c0 c1 c2 c3 : ascii) (r3 : string) :
  lead4 c0 c1 && cont c2 && cont c3 = true ->
  rune_len (String c0 (String c1 (String c2 (String c3 r3)))) = 4%nat.
Proof.
  intros H. unfold rune_len. rewrite H.
  assert (between 0xC2 0xDF c0 = false /\ lead3 c0 c1 = false /\ 128 <= byte_val c0)
    as ( -> & -> & ? ).
  { split; [ | split ]; [ apply not_true_is_false; intros E
                        | apply not_true_is_false; intros E | ];
      bytes_arith; lia. }
  destruct (Z.ltb_spec (byte_val c0) 128); [ lia | reflexivity ].
Qed.

Lemma head_cases (c0 : ascii) (r0 : string) : rune_head (String c0 r0).
Proof.
  destruct (Z.ltb_spec (byte_val c0) 128) as [ Hlt | Hge ];
    [ now apply head_ascii | ].
  destruct (rune_len (String c0 r0)) as [ | [ | [ | [ | [ | n ] ] ] ] ] eqn:E;
    [ now apply head_invalid | .. ];
    unfold rune_len in E;
    destruct (Z.ltb_spec (byte_val c0) 128); try lia;
    destruct r0 as [ | c1 r1 ]; try discriminate;
    destruct (between 194 223 c0 && cont c1) eqn:E2;
    try discriminate; try (now apply head_2);
    destruct r1 as [ | c2 r2 ]; try discriminate;
    destruct (lead3 c0 c1 && cont c2) eqn:E3;
    try discriminate; try (now apply head_3);
    destruct r2 as [ | c3 r3 ]; try discriminate;
    destruct (lead4 c0 c1 && cont c2 && cont c3) eqn:E4;
    try discriminate; now apply head_4.
Qed.

(** Induction on a string, one encoding at a time. *)
Lemma rune_ind (P : string -> Prop) :
  P "" ->
  (forall c0 r0, byte_val c0 < 128 -> P r0 -> P (String c0 r0)) ->
  (forall c0 c1 r1, between 0xC2 0xDF c0 && cont c1 = true ->
     P r1 -> P (String c0 (String c1 r1))) ->
  (forall c0 c1 c2 r2, lead3 c0 c1 && cont c2 = true ->
     P r2 -> P (String c0 (String c1 (String c2 r2)))) ->
  (forall c0 c1 c2 c3 r3, lead4 c0 c1 && cont c2 && cont c3 = true ->
     P r3 -> P (String c0 (String c1 (String c2 (String c3 r3))))) ->
  (forall c0 r0, 128 <= byte_val c0 -> rune_len (String c0 r0) = 0%nat ->
     P r0 -> P (String c0 r0)) ->
  forall s, P s.
Proof.
  intros H0 H1 H2 H3 H4 Hbad s.
  assert (Hn : forall n s, (String.length s <= n)%nat -> P s).
  { induction n as [ | n IH ]; intros [ | c0 r0 ] Hlen; simpl in Hlen;
      try exact H0; try lia.
    pose proof (head_cases c0 r0) as Hh.
    inversion Hh; subst; simpl in Hlen.
    - apply H1; [ assumption | apply IH; lia ].
    - apply H2; [ assumption | apply IH; lia ].
    - apply H3; [ assumption | apply IH; lia ].
    - apply H4; [ assumption | apply IH; lia ].
    - apply Hbad; [ assumption | assumption | apply IH; lia ]. }
  apply (Hn (String.length s)). lia.
Qed.

Lemma ToValid_valid (s : string) : ValidString s = true -> ToValid s = s.
Proof.
  induction s as [ | c0 r0 H IH | c0 c1 r1 H IH | c0 c1 c2 r2 H IH
                 | c0 c1 c2 c3 r3 H IH | c0 r0 H Hz IH ] using rune_ind.
  - reflexivity.
  - cbn [ValidString ToValid]. rewrite (rune_len_1 _ _ H). intros Hv.
    now rewrite IH.
  - cbn [ValidString ToValid]. rewrite (rune_len_2 _ _ _ H). intros Hv.
    now rewrite IH.
  - cbn [ValidString ToValid]. rewrite (rune_len_3 _ _ _ _ H). intros Hv.
    now rewrite IH.
  - cbn [ValidString ToValid]. rewrite (rune_len_4 _ _ _ _ _ H). intros Hv.
    now rewrite IH.
  - cbn [ValidString]. rewrite Hz. discriminate.
Qed.

(** *** Strings: what is quoted is read back, coerced to valid UTF-8 *)

Lemma high_byte_plain (c : ascii) :
  128 <= byte_val c ->
  Ascii.eqb c backslash = false /\ Ascii.eqb c dquote = false
  /\ (byte_val c <? 32) = false.
Proof.
  intros H. repeat split.
  - apply eqb_byte_val. change (byte_val backslash) with 92. lia.
  - apply eqb_byte_val. change (byte_val dquote) with 34. lia.
  - apply Z.ltb_ge. lia.
Qed.

Lemma unquote_escape_ascii (c : ascii) (X : string) :
  byte_val c < 128 ->
  unquote (escape_ascii c ++ X) = prepend (String c "") (unquote X).
Proof.
  intros H.
  destruct c as [ [ | ] [ | ] [ | ] [ | ] [ | ] [ | ] [ | ] [ | ] ];
    try (exfalso; vm_compute in H; discriminate); reflexivity.
Qed.

Lemma unquote_high (c0 : ascii) (r0 : string) :
  128 <= byte_val c0 ->
  unquote (String c0 r0) =
    match rune_len (String c0 r0), r0 with
    | 1%nat, _ => prepend (String c0 "") (unquote r0)
    | 2%nat, String c1 r1 => prepend (String c0 (String c1 "")) (unquote r1)
    | 3%nat, String c1 (String c2 r2) =>
        prepend (String c0 (String c1 (String c2 ""))) (unquote r2)
    | 4%nat, String c1 (String c2 (String c3 r3)) =>
        prepend (String c0 (String c1 (String c2 (String c3 "")))) (unquote r3)
    | _, _ => prepend replacement (unquote r0)
    end.
Proof.
  intros H. destruct (high_byte_plain c0 H) as (E1 & E2 & E3).
  cbn [unquote]. rewrite E1, E2, E3. reflexivity.
Qed.

Lemma unquote_replacement_escape (X : string) :
  unquote (("\u" ++ "fffd") ++ X) = prepend replacement (unquote X).
Proof. reflexivity. Qed.

Lemma line_separator_bytes (c0 c1 c2 : ascii) (esc : string) :
  line_separator c0 c1 c2 = Some esc ->
  forall X,
    unquote (esc ++ X) = prepend (String c0 (String c1 (String c2 ""))) (unquote X).
Proof.
  unfold line_separator. intros H X.
  destruct (Z.eqb_spec (byte_val c0) 0xE2) as [ E0 | ]; [ | discriminate ].
  destruct (Z.eqb_spec (byte_val c1) 0x80) as [ E1 | ]; [ | discriminate ].
  cbn [andb] in H.
  apply (byte_val_inj c0 (chr 0xE2)) in E0. apply (byte_val_inj c1 (chr 0x80)) in E1.
  subst c0 c1.
  destruct (Z.eqb_spec (byte_val c2) 0xA8) as [ E2 | ].
  { apply (byte_val_inj c2 (chr 0xA8)) in E2. subst c2. injection H as <-. reflexivity. }
  destruct (Z.eqb_spec (byte_val c2) 0xA9) as [ E2 | ]; [ | discriminate ].
  apply (byte_val_inj c2 (chr 0xA9)) in E2. subst c2. injection H as <-. reflexivity.
Qed.

Lemma prepend_Some (x y : string) : prepend x (Some y) = Some (x ++ y).
Proof. reflexivity. Qed.

Lemma unquote_quote_body (s : string) :
  unquote (quote_body s) = Some (ToValid s).
Proof.
  induction s as [ | c0 r0 H IH | c0 c1 r1 H IH | c0 c1 c2 r2 H IH
                 | c0 c1 c2 c3 r3 H IH | c0 r0 H Hz IH ] using rune_ind.
  - reflexivity.
  - cbn [quote_body ToValid]. rewrite (rune_len_1 _ _ H).
    rewrite unquote_escape_ascii, IH by assumption. reflexivity.
  - cbn [quote_body ToValid]. rewrite (rune_len_2 _ _ _ H).
    assert (128 <= byte_val c0) by (bytes_arith; lia).
    rewrite unquote_high, (rune_len_2 _ _ _ H), IH by assumption. reflexivity.
  - cbn [quote_body ToValid]. rewrite (rune_len_3 _ _ _ _ H).
    assert (128 <= byte_val c0) by (bytes_arith; lia).
    destruct (line_separator c0 c1 c2) as [ esc | ] eqn:El.
    + rewrite (line_separator_bytes _ _ _ _ El), IH. reflexivity.
    + rewrite unquote_high, (rune_len_3 _ _ _ _ H), IH by assumption. reflexivity.
  - cbn [quote_body ToValid]. rewrite (rune_len_4 _ _ _ _ _ H).
    assert (128 <= byte_val c0) by (bytes_arith; lia).
    rewrite unquote_high, (rune_len_4 _ _ _ _ _ H), IH by assumption. reflexivity.
  - assert (E : quote_body (String c0 r0) = ("\u" ++ "fffd") ++ quote_body r0).
    { cbn [quote_body]. rewrite Hz. now destruct r0. }
    assert (E' : ToValid (String c0 r0) = replacement ++ ToValid r0).
    { cbn [ToValid]. rewrite Hz. now destruct r0. }
    rewrite E, E', unquote_replacement_escape, IH. reflexivity.
Qed.

(** *** Strings: the lexer reads a quoted string to its end *)

Lemma append_assoc (a b c : string) : (a ++ b) ++ c = a ++ (b ++ c).
Proof.
  induction a as [ | x a IH ]; [ reflexivity | ].
  change (String x ((a ++ b) ++ c) = String x (a ++ (b ++ c))). now rewrite IH.
Qed.

Lemma append_cons (c : ascii) (a b : string) : String c a ++ b = String c (a ++ b).
Proof. reflexivity. Qed.

Lemma append_nil_r (a : string) : a ++ "" = a.
Proof.
  induction a as [ | x a IH ]; [ reflexivity | ].
  change (String x (a ++ "") = String x a). now rewrite IH.
Qed.

Lemma append_cons_snoc (raw : string) (c : ascii) (x : string) :
  raw ++ String c x = snoc raw c ++ x.
Proof. unfold snoc. rewrite append_assoc. reflexivity. Qed.

Lemma lex_plain_byte (raw : string) (acc : list token) (c : ascii) (Y : string) :
  Ascii.eqb c dquote = false -> Ascii.eqb c backslash = false ->
  (byte_val c <? 32) = false ->
  lex (LString raw 0) acc (String c Y) = lex (LString (snoc raw c) 0) acc Y.
Proof. intros E1 E2 E3. cbn [lex]. now rewrite E1, E2, E3. Qed.

Lemma lex_high_byte (raw : string) (acc : list token) (c : ascii) (Y : string) :
  128 <= byte_val c ->
  lex (LString raw 0) acc (String c Y) = lex (LString (snoc raw c) 0) acc Y.
Proof.
  intros H. destruct (high_byte_plain c H) as (E1 & E2 & E3).
  now apply lex_plain_byte.
Qed.

(** A chunk of text given in full is read by computation. *)
Ltac lex_chunk chunk :=
  let e := eval vm_compute in chunk in
  change chunk with e;
  rewrite ?append_cons_snoc, ?append_nil_r; reflexivity.

Lemma lex_escape_ascii (raw : string) (acc : list token) (c : ascii) (Y : string) :
  byte_val c < 128 ->
  lex (LString raw 0) acc (escape_ascii c ++ Y)
  = lex (LString (raw ++ escape_ascii c) 0) acc Y.
Proof.
  intros H.
  destruct c as [ [ | ] [ | ] [ | ] [ | ] [ | ] [ | ] [ | ] [ | ] ];
    try (exfalso; vm_compute in H; discriminate);
    match goal with
    | |- context [ escape_ascii ?c ] => lex_chunk (escape_ascii c)
    end.
Qed.

Lemma lex_replacement_escape (raw : string) (acc : list token) (Y : string) :
  lex (LString raw 0) acc (("\u" ++ "fffd") ++ Y)
  = lex (LString (raw ++ ("\u" ++ "fffd")) 0) acc Y.
Proof. lex_chunk ("\u" ++ "fffd"). Qed.

Lemma lex_line_separator (raw : string) (acc : list token)
    (c0 c1 c2 : ascii) (esc Y : string) :
  line_separator c0 c1 c2 = Some esc ->
  lex (LString raw 0) acc (esc ++ Y) = lex (LString (raw ++ esc) 0) acc Y.
Proof.
  unfold line_separator. intros H.
  destruct (_ && _); [ | discriminate ].
  destruct (byte_val c2 =? 168).
  { injection H as <-. lex_chunk ("\u" ++ "2028"). }
  destruct (byte_val c2 =? 169); [ | discriminate ].
  injection H as <-. lex_chunk ("\u" ++ "2029").
Qed.

Lemma lex_quote_body (s : string) :
  forall raw acc rest,
    lex (LString raw 0) acc (quote_body s ++ rest)
    = lex (LString (raw ++ quote_body s) 0) acc rest.
Proof.
  induction s as [ | c0 r0 H IH | c0 c1 r1 H IH | c0 c1 c2 r2 H IH
                 | c0 c1 c2 c3 r3 H IH | c0 r0 H Hz IH ] using rune_ind;
    intros raw acc rest.
  - cbn [quote_body]. now rewrite append_nil_r.
  - cbn [quote_body]. rewrite (rune_len_1 _ _ H).
    rewrite append_assoc, lex_escape_ascii, IH by assumption.
    now rewrite append_assoc.
  - cbn [quote_body]. rewrite (rune_len_2 _ _ _ H).
    assert (128 <= byte_val c0 /\ 128 <= byte_val c1) as [ ? ? ]
      by (bytes_arith; lia).
    rewrite !append_cons.
    rewrite !lex_high_byte, IH by assumption.
    now rewrite !append_cons_snoc.
  - cbn [quote_body]. rewrite (rune_len_3 _ _ _ _ H).
    assert (128 <= byte_val c0 /\ 128 <= byte_val c1 /\ 128 <= byte_val c2)
      as ( ? & ? & ? ) by (bytes_arith; lia).
    destruct (line_separator c0 c1 c2) as [ esc | ] eqn:El.
    + rewrite append_assoc, (lex_line_separator _ _ _ _ _ _ _ El), IH.
      now rewrite append_assoc.
    + rewrite !append_cons.
      rewrite !lex_high_byte, IH by assumption.
      now rewrite !append_cons_snoc.
  - cbn [quote_body]. rewrite (rune_len_4 _ _ _ _ _ H).
    assert (128 <= byte_val c0 /\ 128 <= byte_val c1 /\ 128 <= byte_val c2
            /\ 128 <= byte_val c3) as ( ? & ? & ? & ? ) by (bytes_arith; lia).
    rewrite !append_cons.
    rewrite !lex_high_byte, IH by assumption.
    now rewrite !append_cons_snoc.
  - assert (E : quote_body (String c0 r0) = ("\u" ++ "fffd") ++ quote_body r0).
    { cbn [quote_body]. rewrite Hz. now destruct r0. }
    rewrite E, append_assoc, lex_replacement_escape, IH.
    now rewrite append_assoc.
Qed.

Lemma lex_quote (s : string) (acc : list token) (rest : string) :
  lex LTop acc (quote s ++ rest) = lex LTop (acc ++ [TString (ToValid s)]) rest.
Proof.
  unfold quote. rewrite append_cons. cbn [lex].
  change (lex_start dquote acc) with (Some (LString "" 0, acc)). cbv iota.
  rewrite append_assoc, lex_quote_body.
  change ("" ++ quote_body s) with (quote_body s).
  rewrite append_cons. cbn [lex].
  change (Ascii.eqb dquote dquote) with true. cbv iota.
  now rewrite unquote_quote_body.
Qed.

(** *** Numbers and words *)

Lemma number_step_char (st st' : number_state) (c : ascii) :
  number_step st c = Some st' -> is_number_char c = true.
Proof.
  unfold is_number_char.
  destruct st; cbn [number_step];
    repeat match goal with
           | |- context [ if ?b then _ else _ ] => destruct b eqn:?
           end;
    intros [= <-] || discriminate; cbn; try reflexivity;
    rewrite ?orb_true_r; try reflexivity;
    repeat match goal with
           | H : Ascii.eqb _ _ = true |- _ => apply Ascii.eqb_eq in H; subst
           end; try reflexivity;
    repeat match goal with
           | H : _ || _ = true |- _ => apply orb_true_iff in H; destruct H
           | H : Ascii.eqb _ _ = true |- _ => apply Ascii.eqb_eq in H; subst
           end; reflexivity.
Qed.

Lemma number_run_chars (lit : string) :
  forall st, number_run st lit = true ->
  forall acc pre rest,
    lex (LNumber pre) acc (lit ++ rest) = lex (LNumber (pre ++ lit)) acc rest.
Proof.
  induction lit as [ | c lit IH ]; intros st Hrun acc pre rest.
  - now rewrite append_nil_r.
  - cbn [number_run] in Hrun.
    destruct (number_step st c) as [ st' | ] eqn:Es; [ | discriminate ].
    rewrite append_cons. cbn [lex].
    rewrite (number_step_char _ _ _ Es), (IH _ Hrun), append_cons_snoc.
    reflexivity.
Qed.

Lemma lex_number_end (lit : string) (acc : list token) (rest : string) :
  valid_number lit = true -> delimited rest ->
  lex (LNumber lit) acc rest = lex LTop (acc ++ [TNumber lit]) rest.
Proof.
  intros Hv Hd. destruct rest as [ | d rest ]; cbn [lex]; unfold close_number;
    rewrite Hv; [ reflexivity | ].
  destruct Hd as [ -> _ ]. reflexivity.
Qed.

Lemma lex_start_number (c : ascii) (acc : list token) :
  Ascii.eqb c "-" || is_digit c = true ->
  lex_start c acc = Some (LNumber (String c ""), acc).
Proof.
  intros H. unfold lex_start. rewrite H.
  assert (Hb : byte_val c = 45 \/ 48 <= byte_val c <= 57).
  { apply orb_true_iff in H as [ H | H ].
    - apply Ascii.eqb_eq in H. subst. left. reflexivity.
    - right. bytes_arith. lia. }
  replace (is_space c) with false
    by (symmetry; unfold is_space; repeat (apply orb_false_iff; split);
        apply Z.eqb_neq; lia).
  rewrite !eqb_byte_val; [ reflexivity | .. ];
    match goal with
    | |- byte_val c <> byte_val ?d =>
        let v := eval vm_compute in (byte_val d) in
        change (byte_val d) with v; lia
    end.
Qed.

Lemma lex_number (lit : string) (acc : list token) (rest : string) :
  valid_number lit = true -> delimited rest ->
  lex LTop acc (lit ++ rest) = lex LTop (acc ++ [TNumber lit]) rest.
Proof.
  intros Hv Hd. unfold valid_number in Hv.
  destruct lit as [ | c lit ]; [ discriminate | ].
  cbn [number_run] in Hv.
  destruct (number_step NStart c) as [ st | ] eqn:Es; [ | discriminate ].
  assert (Hc : Ascii.eqb c "-" || is_digit c = true).
  { cbn [number_step] in Es.
    destruct (Ascii.eqb c "-"); [ reflexivity | ].
    destruct (Ascii.eqb_spec c "0") as [ -> | ]; [ reflexivity | ].
    destruct (is_digit c); [ reflexivity | discriminate ]. }
  rewrite append_cons. cbn [lex]. rewrite (lex_start_number _ _ Hc).
  rewrite (number_run_chars _ _ Hv). change (String c "" ++ lit) with (String c lit).
  apply lex_number_end; [ | assumption ].
  unfold valid_number. cbn [number_run]. now rewrite Es.
Qed.

Lemma lex_word_end (w : string) (t : token) (acc : list token) (rest : string) :
  close_word w = Some t -> delimited rest ->
  lex (LWord w) acc rest = lex LTop (acc ++ [t]) rest.
Proof.
  intros Hw Hd. destruct rest as [ | d rest ]; cbn [lex]; rewrite Hw;
    [ reflexivity | ].
  destruct Hd as [ _ -> ]. reflexivity.
Qed.

Lemma lex_word (w : string) (t : token) (acc : list token) (rest : string) :
  (w = "true" /\ t = TTrue) \/ (w = "false" /\ t = TFalse)
  \/ (w = "null" /\ t = TNull) ->
  delimited rest ->
  lex LTop acc (w ++ rest) = lex LTop (acc ++ [t]) rest.
Proof.
  intros Hw Hd.
  destruct Hw as [ [ -> -> ] | [ [ -> -> ] | [ -> -> ] ] ].
  - change (lex LTop acc ("true" ++ rest)) with (lex (LWord "true") acc rest).
    now apply lex_word_end.
  - change (lex LTop acc ("false" ++ rest)) with (lex (LWord "false") acc rest).
    now apply lex_word_end.
  - change (lex LTop acc ("null" ++ rest)) with (lex (LWord "null") acc rest).
    now apply lex_word_end.
Qed.

(** *** Tokens *)

Lemma lex_token (t : token) (acc : list token) (rest : string) :
  wf_token t = true ->
  (needs_delimiter t = true -> delimited rest) ->
  lex LTop acc (render_token t ++ rest) = lex LTop (acc ++ [coerce_token t]) rest.
Proof.
  intros Hwf Hd. destruct t; cbn [render_token coerce_token];
    try reflexivity.
  - apply lex_quote.
  - apply lex_number; [ exact Hwf | now apply Hd ].
  - apply (lex_word "true"); [ tauto | now apply Hd ].
  - apply (lex_word "false"); [ tauto | now apply Hd ].
  - apply (lex_word "null"); [ tauto | now apply Hd ].
Qed.

Lemma delimited_follows_render (ts : list token) (rest : string) :
  follows ts (delimited rest) -> delimited (render ts ++ rest).
Proof.
  destruct ts as [ | t ts ]; [ exact (fun H => H) | ].
  cbn [follows]. destruct t; try discriminate; intros _; split; reflexivity.
Qed.

Lemma lex_render (ts : list token) :
  forall acc rest,
    separated ts (delimited rest) ->
    lex LTop acc (render ts ++ rest) = lex LTop (acc ++ map coerce_token ts) rest.
Proof.
  induction ts as [ | t ts IH ]; intros acc rest Hs.
  - cbn. now rewrite app_nil_r.
  - destruct Hs as (Hwf & Hd & Hs). cbn [render map].
    rewrite append_assoc, lex_token, IH; try assumption.
    + now rewrite <- app_assoc.
    + intros Hn. apply delimited_follows_render. now apply Hd.
Qed.

(** White space between tokens is skipped. *)
Lemma lex_blank (ws : string) :
  blank ws = true ->
  forall acc rest, lex LTop acc (ws ++ rest) = lex LTop acc rest.
Proof.
  induction ws as [ | c ws IH ]; intros Hb acc rest; [ reflexivity | ].
  cbn [blank] in Hb. apply andb_true_iff in Hb as [ Hc Hws ].
  rewrite append_cons. cbn [lex]. unfold lex_start. rewrite Hc.
  now apply IH.
Qed.

Lemma blank_newline (depth : nat) : blank (newline depth) = true.
Proof.
  unfold newline. cbn [blank].
  change (is_space (chr 10)) with true. cbn [andb].
  induction depth as [ | d IH ]; [ reflexivity | exact IH ].
Qed.

Lemma delimited_follows_indent (ts : list token) (depth : nat) (rest : string) :
  follows ts (delimited rest) -> delimited (indent false depth ts ++ rest).
Proof.
  destruct ts as [ | t ts ]; [ exact (fun H => H) | ].
  cbn [follows]. destruct t; try discriminate; intros _; split; reflexivity.
Qed.

(** One token of the indented text: white space, the token, white space. *)
Lemma indent_step (needIndent : bool) (depth : nat) (t : token) (ts : list token) :
  exists pre post needIndent' depth',
    indent needIndent depth (t :: ts)
    = pre ++ (render_token t ++ (post ++ indent needIndent' depth' ts))
    /\ blank pre = true /\ blank post = true
    /\ (needs_delimiter t = true -> post = "" /\ needIndent' = false).
Proof.
  destruct (is_closer t) eqn:Ec.
  - exists (if needIndent then "" else newline (pred depth)), "", false,
      (if needIndent then depth else pred depth).
    cbn [indent]. rewrite Ec. repeat split.
    + destruct needIndent; [ reflexivity | apply blank_newline ].
  - set (depth' := if needIndent then S depth else depth).
    assert (Hpre : blank (if needIndent then newline depth' else "") = true)
      by (destruct needIndent; [ apply blank_newline | reflexivity ]).
    destruct t; try discriminate Ec.
    + exists (if needIndent then newline depth' else ""), "", true, depth'.
      cbn [indent is_closer]. repeat split; try assumption; discriminate.
    + exists (if needIndent then newline depth' else ""), "", true, depth'.
      cbn [indent is_closer]. repeat split; try assumption; discriminate.
    + exists (if needIndent then newline depth' else ""), " ", false, depth'.
      cbn [indent is_closer]. repeat split; try assumption; discriminate.
    + exists (if needIndent then newline depth' else ""), (newline depth'), false,
        depth'.
      cbn [indent is_closer].
      repeat split; try assumption; try apply blank_newline; discriminate.
    + exists (if needIndent then newline depth' else ""), "", false, depth'.
      cbn [indent is_closer]. repeat split; assumption.
    + exists (if needIndent then newline depth' else ""), "", false, depth'.
      cbn [indent is_closer]. repeat split; assumption.
    + exists (if needIndent then newline depth' else ""), "", false, depth'.
      cbn [indent is_closer]. repeat split; assumption.
    + exists (if needIndent then newline depth' else ""), "", false, depth'.
      cbn [indent is_closer]. repeat split; assumption.
    + exists (if needIndent then newline depth' else ""), "", false, depth'.
      cbn [indent is_closer]. repeat split; assumption.
Qed.

Lemma lex_indent (ts : list token) :
  forall needIndent depth acc rest,
    separated ts (delimited rest) ->
    lex LTop acc (indent needIndent depth ts ++ rest)
    = lex LTop (acc ++ map coerce_token ts) rest.
Proof.
  induction ts as [ | t ts IH ]; intros needIndent depth acc rest Hs.
  - cbn. now rewrite app_nil_r.
  - destruct Hs as (Hwf & Hd & Hs).
    destruct (indent_step needIndent depth t ts)
      as (pre & post & need' & depth' & -> & Hpre & Hpost & Hdelim).
    rewrite !append_assoc, (lex_blank _ Hpre), lex_token; try assumption.
    + rewrite (lex_blank _ Hpost), IH by assumption.
      cbn [map]. now rewrite <- app_assoc.
    + intros Hn. destruct (Hdelim Hn) as [ -> -> ].
      apply delimited_follows_indent. now apply Hd.
Qed.

(** *** Values *)

Lemma value_ind' (P : value -> Prop) :
  P Null -> (forall b, P (Bool b)) -> (forall lit, P (Number lit)) ->
  (forall s, P (Str s)) ->
  (forall elems, Forall P elems -> P (Array elems)) ->
  (forall members, Forall (fun m => P (snd m)) members -> P (Object members)) ->
  forall v, P v.
Proof.
  intros HN HB HNum HS HA HO. fix IH 1.
  intros [ | b | lit | s | elems | members ].
  - exact HN.
  - apply HB.
  - apply HNum.
  - apply HS.
  - apply HA. revert elems. fix IHl 1. intros [ | v elems ].
    + constructor.
    + constructor; [ apply IH | apply IHl ].
  - apply HO. revert members. fix IHl 1. intros [ | m members ].
    + constructor.
    + constructor; [ apply IH | apply IHl ].
Qed.

Lemma separated_app (a b : list token) (P : Prop) :
  separated a (follows b P) -> separated b P -> separated (a ++ b) P.
Proof.
  induction a as [ | t a IH ]; intros Ha Hb; [ exact Hb | ].
  destruct Ha as (Hwf & Hd & Ha). cbn [app separated].
  split; [ exact Hwf | ]. split.
  - intros Hn. specialize (Hd Hn). now destruct a.
  - now apply IH.
Qed.

Lemma separated_join (ls : list (list token)) (closer : token) (P : Prop) :
  closer = TRBracket \/ closer = TRBrace ->
  Forall (fun ts => forall Q : Prop, Q -> separated ts Q) ls ->
  separated (join ls ++ [closer]) P.
Proof.
  intros Hc Hls.
  assert (Hclose : separated [closer] P)
    by (destruct Hc as [ -> | -> ]; repeat split; discriminate).
  assert (Hp : is_punct closer = true) by (destruct Hc as [ -> | -> ]; reflexivity).
  induction Hls as [ | ts ls Hts Hls IH ]; [ exact Hclose | ].
  destruct ls as [ | ts' ls ].
  - cbn [join]. apply separated_app; [ | exact Hclose ].
    apply Hts. exact Hp.
  - change (join (ts :: ts' :: ls)) with (ts ++ TComma :: join (ts' :: ls))%list.
    rewrite <- app_assoc. apply separated_app.
    + apply Hts. reflexivity.
    + cbn [app separated]. repeat split; try discriminate. exact IH.
Qed.

Lemma separated_tokens (v : value) :
  wf_value v = true -> forall P : Prop, P -> separated (tokens v) P.
Proof.
  induction v as [ | b | lit | s | elems IH | members IH ] using value_ind';
    intros Hwf P HP.
  - repeat split. intros _. exact HP.
  - destruct b; repeat split; intros _; exact HP.
  - repeat split; [ exact Hwf | intros _; exact HP ].
  - repeat split. discriminate.
  - cbn [tokens separated]. repeat split; [ discriminate | ].
    apply separated_join; [ tauto | ].
    cbn [wf_value] in Hwf. rewrite List.forallb_forall in Hwf.
    apply List.Forall_forall. intros ts Hin.
    apply List.in_map_iff in Hin as (v & <- & Hin).
    rewrite List.Forall_forall in IH. apply IH; auto.
  - cbn [tokens separated]. repeat split; [ discriminate | ].
    apply separated_join; [ tauto | ].
    cbn [wf_value] in Hwf. rewrite List.forallb_forall in Hwf.
    apply List.Forall_forall. intros ts Hin.
    apply List.in_map_iff in Hin as (m & <- & Hin).
    rewrite List.Forall_forall in IH. intros Q HQ.
    repeat split; try discriminate. apply IH; auto.
Qed.

Lemma map_join (ls : list (list token)) :
  map coerce_token (join ls) = join (map (map coerce_token) ls).
Proof.
  induction ls as [ | ts ls IH ]; [ reflexivity | ].
  destruct ls as [ | ts' ls ]; [ reflexivity | ].
  change (join (ts :: ts' :: ls)) with (ts ++ TComma :: join (ts' :: ls))%list.
  rewrite map_app. cbn [map] in *. rewrite IH. reflexivity.
Qed.

Lemma tokens_coerce (v : value) :
  map coerce_token (tokens v) = tokens (coerce_value v).
Proof.
  induction v as [ | b | lit | s | elems IH | members IH ] using value_ind';
    try reflexivity.
  - now destruct b.
  - cbn [tokens coerce_value map]. rewrite map_app, map_join, !map_map.
    cbn [map]. do 3 f_equal.
    apply map_ext_in. intros v Hin. rewrite List.Forall_forall in IH. now apply IH.
  - cbn [tokens coerce_value map]. rewrite map_app, map_join, !map_map.
    cbn [map]. do 3 f_equal.
    apply map_ext_in. intros m Hin. rewrite List.Forall_forall in IH.
    cbn [map coerce_token fst snd]. now rewrite IH.
Qed.

(** The text of a value, compact or indented, is read back as the tokens of
    the coerced value. *)
Lemma lex_write (v : value) :
  wf_value v = true ->
  lex LTop [] (write v) = Some (tokens (coerce_value v))
  /\ lex LTop [] (write_indent v) = Some (tokens (coerce_value v)).
Proof.
  intros Hwf.
  assert (Hs : separated (tokens v) (delimited ""))
    by (apply separated_tokens; [ assumption | exact I ]).
  unfold write, write_indent. split.
  - rewrite <- (append_nil_r (render (tokens v))).
    rewrite lex_render by assumption. now rewrite tokens_coerce.
  - rewrite <- (append_nil_r (indent false 0 (tokens v))).
    rewrite lex_indent by assumption. now rewrite tokens_coerce.
Qed.

(** *** The parser reads the tokens of a value back *)

Lemma depth_nonneg (v : value) : 0 <= depth v.
Proof.
  destruct v; cbn [depth]; try lia.
  - assert (0 <= fold_right Z.max 0 (map depth elems))
      by (induction elems; cbn; lia). lia.
  - assert (0 <= fold_right Z.max 0 (map (fun m => depth (snd m)) members))
      by (induction members; cbn; lia). lia.
Qed.

Lemma depth_In {A : Type} (f : A -> Z) (x : A) (l : list A) :
  In x l -> f x <= fold_right Z.max 0 (map f l).
Proof.
  induction l as [ | y l IH ]; [ intros [] | ].
  intros [ -> | Hin ]; cbn [map fold_right]; [ lia | ].
  specialize (IH Hin). lia.
Qed.

Lemma push_ok (f : frame) (st : parse_state) (stack : list frame) :
  Z.of_nat (length stack) + 1 <= maxNestingDepth ->
  push f st stack = Some (st, f :: stack).
Proof.
  intros H. unfold push. cbn [length].
  destruct (Z.leb_spec (Z.of_nat (S (length stack))) maxNestingDepth);
    [ reflexivity | lia ].
Qed.

Lemma parse_value_token_first (st : parse_state) (stack : list frame) (t : token) :
  expects_value st -> t <> TRBracket ->
  parse_step st stack t = parse_value_token t stack.
Proof.
  intros [ -> | -> ] Ht; [ reflexivity | ].
  cbn [parse_step]. destruct t; try reflexivity. congruence.
Qed.

Lemma parse_key_first (st : parse_state) (members : list (string * value))
    (key k : string) (stack : list frame) :
  expects_key st ->
  parse_step st (FObject members key :: stack) (TString k)
  = Some (PColon, FObject members k :: stack).
Proof. intros [ -> | -> ]; reflexivity. Qed.

Lemma parse_deliver (v : value) (stack : list frame) (rest : list token) :
  match Some (deliver v stack) with
  | Some (st', stack') => parse st' stack' rest
  | None => None
  end = parse_from (deliver v stack) rest.
Proof. unfold parse_from. now destruct (deliver v stack). Qed.

Lemma parse_elems (l : list value) :
  Forall reads_back l ->
  forall elems st stack rest,
    expects_value st -> l <> [] ->
    (forall v, In v l -> Z.of_nat (length stack) + 1 + depth v <= maxNestingDepth) ->
    parse st (FArray elems :: stack) (join (map tokens l) ++ TRBracket :: rest)
    = parse_from (deliver (Array (rev elems ++ l)) stack) rest.
Proof.
  induction 1 as [ | v l Hv Hl IH ]; intros elems st stack rest Hst Hne Hd;
    [ congruence | ].
  assert (Hdv : Z.of_nat (length (FArray elems :: stack)) + depth v <= maxNestingDepth).
  { cbn [length]. specialize (Hd v (or_introl eq_refl)). lia. }
  destruct l as [ | v' l ].
  - cbn [map join]. rewrite (Hv st _ _ Hst Hdv).
    cbn [deliver parse_from fst snd parse parse_step].
    apply parse_deliver.
  - change (join (map tokens (v :: v' :: l)))
      with (tokens v ++ TComma :: join (map tokens (v' :: l)))%list.
    rewrite <- app_assoc. rewrite (Hv st _ _ Hst Hdv).
    cbn [deliver parse_from fst snd app parse parse_step].
    rewrite (IH (v :: elems) PValue stack rest); [ | left; reflexivity | discriminate | ].
    + cbn [rev]. now rewrite <- app_assoc.
    + intros w Hw. apply Hd. now right.
Qed.

Lemma parse_members (ms : list (string * value)) :
  Forall (fun m => reads_back (snd m)) ms ->
  forall acc key st stack rest,
    expects_key st -> ms <> [] ->
    (forall m, In m ms ->
       Z.of_nat (length stack) + 1 + depth (snd m) <= maxNestingDepth) ->
    parse st (FObject acc key :: stack)
      (join (map member_tokens ms) ++ TRBrace :: rest)
    = parse_from (deliver (Object (rev acc ++ ms)) stack) rest.
Proof.
  induction 1 as [ | m ms Hm Hms IH ]; intros acc key st stack rest Hst Hne Hd;
    [ congruence | ].
  assert (Hdm : forall k, Z.of_nat (length (FObject acc k :: stack)) + depth (snd m)
                          <= maxNestingDepth).
  { intros k. cbn [length]. specialize (Hd m (or_introl eq_refl)). lia. }
  destruct m as [ k v ]. cbn [snd] in *.
  destruct ms as [ | m' ms ].
  - cbn [map join member_tokens fst snd app parse].
    rewrite (parse_key_first _ _ _ _ _ Hst). cbn [parse parse_step].
    rewrite (Hm PValue _ _ (or_introl eq_refl) (Hdm k)).
    cbn [deliver parse_from fst snd parse parse_step].
    apply parse_deliver.
  - change (join (map member_tokens ((k, v) :: m' :: ms)))
      with (member_tokens (k, v) ++ TComma :: join (map member_tokens (m' :: ms)))%list.
    rewrite <- app_assoc.
    cbn [member_tokens fst snd app parse].
    rewrite (parse_key_first _ _ _ _ _ Hst). cbn [parse parse_step].
    rewrite (Hm PValue _ _ (or_introl eq_refl) (Hdm k)).
    cbn [deliver parse_from fst snd app parse parse_step].
    rewrite (IH ((k, v) :: acc) "" PKey stack rest);
      [ | right; reflexivity | discriminate | ].
    + cbn [rev]. now rewrite <- app_assoc.
    + intros w Hw. apply Hd. now right.
Qed.

Lemma parse_value (v : value) : reads_back v.
Proof.
  induction v as [ | b | lit | s | elems IH | members IH ] using value_ind';
    intros st stack rest Hst Hd.
  - cbn [tokens app parse]. rewrite parse_value_token_first by (auto; discriminate).
    apply parse_deliver.
  - destruct b; cbn [tokens app parse];
      rewrite parse_value_token_first by (auto; discriminate); apply parse_deliver.
  - cbn [tokens app parse]. rewrite parse_value_token_first by (auto; discriminate).
    apply parse_deliver.
  - cbn [tokens app parse]. rewrite parse_value_token_first by (auto; discriminate).
    apply parse_deliver.
  - cbn [tokens app parse]. rewrite parse_value_token_first by (auto; discriminate).
    cbn [parse_value_token].
    pose proof (depth_nonneg (Array elems)) as Hnn. cbn [depth] in Hd, Hnn.
    assert (Hmax : 0 <= fold_right Z.max 0 (map depth elems))
      by (clear; induction elems; cbn; lia).
    rewrite push_ok by lia.
    rewrite <- app_assoc. cbn [app].
    destruct elems as [ | v elems ]; [ apply parse_deliver | ].
    rewrite (parse_elems _ IH [] PArrayFirst stack rest);
      [ reflexivity | right; reflexivity | discriminate | ].
    intros w Hw. pose proof (depth_In depth w _ Hw). lia.
  - cbn [tokens app parse]. rewrite parse_value_token_first by (auto; discriminate).
    cbn [parse_value_token].
    cbn [depth] in Hd.
    assert (Hmax : 0 <= fold_right Z.max 0 (map (fun m => depth (snd m)) members))
      by (clear; induction members; cbn; lia).
    rewrite push_ok by lia.
    rewrite <- app_assoc. cbn [app].
    destruct members as [ | m members ]; [ apply parse_deliver | ].
    fold member_tokens.
    change (map (fun m0 => TString (fst m0) :: TColon :: tokens (snd m0)) (m :: members))
      with (map member_tokens (m :: members)).
    rewrite (parse_members _ IH [] "" PObjectFirst stack rest);
      [ reflexivity | left; reflexivity | discriminate | ].
    intros w Hw. pose proof (depth_In (fun m => depth (snd m)) w _ Hw) as Hle.
    cbn beta in Hle. lia.
Qed.

Lemma depth_coerce (v : value) : depth (coerce_value v) = depth v.
Proof.
  induction v as [ | b | lit | s | elems IH | members IH ] using value_ind';
    try reflexivity.
  - cbn [coerce_value depth]. f_equal.
    induction IH as [ | v l Hv Hl IHl ]; [ reflexivity | ].
    cbn [map fold_right]. now rewrite Hv, IHl.
  - cbn [coerce_value depth]. f_equal.
    induction IH as [ | m l Hv Hl IHl ]; [ reflexivity | ].
    cbn [map fold_right snd]. now rewrite Hv, IHl.
Qed.

(** The text of a well-formed value, read as a document, is the value with
    its strings coerced. *)
Lemma parse_document_write (v : value) :
  wf_value v = true -> depth v <= maxNestingDepth ->
  parse_document (write v) = Some (coerce_value v)
  /\ parse_document (write_indent v) = Some (coerce_value v).
Proof.
  intros Hwf Hd. unfold parse_document.
  destruct (lex_write _ Hwf) as [ -> -> ].
  rewrite <- (app_nil_r (tokens (coerce_value v))).
  rewrite parse_value; [ split; reflexivity | left; reflexivity | ].
  cbn [length]. rewrite depth_coerce. lia.
Qed.

(** *** A [Status] on the wire *)

Lemma pos_digits_head (p : positive) :
  match Pos.to_uint p with
  | Decimal.Nil | Decimal.D0 _ => False
  | _ => True
  end.
Proof.
  pose proof (DecimalPos.Unsigned.to_uint_nonnil p) as Hnil.
  pose proof (DecimalPos.Unsigned.to_uint_nonzero p) as Hzero.
  pose proof (DecimalPos.Unsigned.to_of (Pos.to_uint p)) as Hnorm.
  rewrite DecimalPos.Unsigned.of_to in Hnorm.
  change (N.to_uint (N.pos p)) with (Pos.to_uint p) in Hnorm.
  assert (Hnz : Decimal.nzhead (Pos.to_uint p) <> Decimal.Nil).
  { intros H. apply DecimalFacts.unorm_0 in H. congruence. }
  rewrite (DecimalFacts.unorm_nzhead _ Hnz) in Hnorm.
  pose proof (DecimalFacts.nzhead_nonzero (Pos.to_uint p)) as Hd.
  rewrite <- Hnorm in Hd.
  destruct (Pos.to_uint p); try exact I; [ congruence | ].
  now apply (Hd u).
Qed.

Lemma number_run_digits (d : Decimal.uint) :
  number_run NInt (NilEmpty.string_of_uint d) = true.
Proof. induction d; cbn; auto. Qed.

Lemma valid_number_pos (p : positive) :
  number_run NStart (NilEmpty.string_of_uint (Pos.to_uint p)) = true
  /\ number_run NNeg (NilEmpty.string_of_uint (Pos.to_uint p)) = true.
Proof.
  pose proof (pos_digits_head p) as H.
  destruct (Pos.to_uint p) as [ | u | u | u | u | u | u | u | u | u | u ];
    try contradiction; split; apply (number_run_digits u).
Qed.

Lemma valid_number_fmt_d (n : Z) : valid_number (fmt.d n) = true.
Proof.
  unfold valid_number, fmt.d.
  destruct n as [ | p | p ]; [ reflexivity | | ];
    pose proof (DecimalPos.Unsigned.to_uint_nonnil p) as Hnil;
    pose proof (valid_number_pos p) as [ Hs Hn ];
    cbn [Z.to_int NilZero.string_of_int NilZero.string_of_uint].
  - destruct (Pos.to_uint p); [ congruence | assumption .. ].
  - change (number_run NStart (String "-" ?s)) with (number_run NNeg s).
    destruct (Pos.to_uint p); [ congruence | assumption .. ].
Qed.

Lemma Atoi_fmt_d (n : Z) :
  is_int32 n = true -> strconv.Atoi (fmt.d n) = Some n.
Proof.
  intros H. apply Atoi_decimal, fmt_d_decimal.
  unfold is_int32, int32_min, int32_max, int_min, int_max in *.
  apply andb_true_iff in H as [ ?%Z.leb_le ?%Z.leb_le ]. lia.
Qed.

Lemma decode_int32_fmt_d (n old : Z) :
  is_int32 n = true -> decode_int32 (Number (fmt.d n)) old = (n, true).
Proof.
  intros H. unfold decode_int32. rewrite (Atoi_fmt_d _ H).
  unfold is_int32 in H. now rewrite H.
Qed.

Lemma forallb_app_true {A : Type} (f : A -> bool) (a b : list A) :
  forallb f a = true -> forallb f b = true -> forallb f (a ++ b) = true.
Proof. intros Ha Hb. rewrite forallb_app. now rewrite Ha, Hb. Qed.

Lemma wf_string_member (omitempty : bool) (key s : string) :
  forallb (fun m => wf_value (snd m)) (string_member omitempty key s) = true.
Proof. unfold string_member. now destruct (_ && _). Qed.

Lemma wf_int_member (omitempty : bool) (key : string) (n : Z) :
  forallb (fun m => wf_value (snd m)) (int_member omitempty key n) = true.
Proof.
  unfold int_member. destruct (_ && _); [ reflexivity | ].
  cbn. now rewrite valid_number_fmt_d.
Qed.

Lemma wf_of_StatusCause (omitempty : bool) (c : StatusCause) :
  wf_value (of_StatusCause omitempty c) = true.
Proof.
  unfold of_StatusCause. cbn [wf_value].
  repeat apply forallb_app_true; apply wf_string_member.
Qed.

Lemma wf_of_StatusDetails (omitempty : bool) (d : StatusDetails) :
  wf_value (of_StatusDetails omitempty d) = true.
Proof.
  unfold of_StatusDetails. cbn [wf_value].
  repeat apply forallb_app_true;
    try apply wf_string_member; try apply wf_int_member.
  destruct (Details_Causes d) as [ | c l ]; [ reflexivity | ].
  cbn [forallb snd wf_value]. rewrite andb_true_r.
  apply List.forallb_forall. intros v Hin.
  apply List.in_map_iff in Hin as (c' & <- & _). apply wf_of_StatusCause.
Qed.

Lemma wf_of_Status (omitempty : bool) (s : Status) :
  wf_value (of_Status omitempty s) = true.
Proof.
  unfold of_Status. cbn [wf_value].
  repeat apply forallb_app_true;
    try apply wf_string_member; try apply wf_int_member.
  destruct (Status_Details s) as [ d | ]; [ | reflexivity ].
  cbn [forallb snd]. now rewrite wf_of_StatusDetails.
Qed.

Lemma depth_members_le (b : Z) (members : list (string * value)) :
  0 <= b ->
  (forall m, In m members -> depth (snd m) <= b) ->
  depth (Object members) <= 1 + b.
Proof.
  intros Hb H. cbn [depth].
  assert (fold_right Z.max 0 (map (fun m => depth (snd m)) members) <= b); [ | lia ].
  induction members as [ | m ms IH ]; cbn [map fold_right]; [ lia | ].
  pose proof (H m (or_introl eq_refl)).
  assert (fold_right Z.max 0 (map (fun m => depth (snd m)) ms) <= b)
    by (apply IH; intros; apply H; now right).
  lia.
Qed.

Lemma depth_string_member (omitempty : bool) (key s : string) (m : string * value) :
  In m (string_member omitempty key s) -> depth (snd m) = 0.
Proof.
  unfold string_member. destruct (_ && _); [ intros [] | ].
  intros [ <- | [] ]. reflexivity.
Qed.

Lemma depth_int_member (omitempty : bool) (key : string) (n : Z) (m : string * value) :
  In m (int_member omitempty key n) -> depth (snd m) = 0.
Proof.
  unfold int_member. destruct (_ && _); [ intros [] | ].
  intros [ <- | [] ]. reflexivity.
Qed.

Lemma depth_of_StatusCause (omitempty : bool) (c : StatusCause) :
  depth (of_StatusCause omitempty c) <= 1.
Proof.
  unfold of_StatusCause. apply (depth_members_le 0); [ lia | ].
  intros m Hin. rewrite !in_app_iff in Hin.
  destruct Hin as [ H | [ H | H ] ];
    apply depth_string_member in H; lia.
Qed.

Lemma depth_of_StatusDetails (omitempty : bool) (d : StatusDetails) :
  depth (of_StatusDetails omitempty d) <= 3.
Proof.
  unfold of_StatusDetails. apply (depth_members_le 2); [ lia | ].
  intros m Hin. rewrite !in_app_iff in Hin.
  destruct Hin as [ H | [ H | [ H | H ] ] ];
    try (apply depth_string_member in H; lia);
    try (apply depth_int_member in H; lia).
  destruct (Details_Causes d) as [ | c l ]; [ destruct H | ].
  destruct H as [ <- | [] ]. cbn [snd depth].
  assert (fold_right Z.max 0 (map depth (map (of_StatusCause omitempty) (c :: l))) <= 1);
    [ | lia ].
  generalize (c :: l). intros l'.
  induction l' as [ | c' l' IH ]; cbn [map fold_right]; [ lia | ].
  pose proof (depth_of_StatusCause omitempty c'). lia.
Qed.

Lemma depth_of_Status (omitempty : bool) (s : Status) :
  depth (of_Status omitempty s) <= maxNestingDepth.
Proof.
  assert (depth (of_Status omitempty s) <= 4); [ | unfold maxNestingDepth; lia ].
  unfold of_Status. apply (depth_members_le 3); [ lia | ].
  intros m Hin. rewrite !in_app_iff in Hin.
  destruct Hin as [ H | [ H | [ H | [ H | H ] ] ] ];
    try (apply depth_string_member in H; lia);
    try (apply depth_int_member in H; lia).
  destruct (Status_Details s) as [ d | ]; [ | destruct H ].
  destruct H as [ <- | [] ]. cbn [snd]. apply depth_of_StatusDetails.
Qed.

(** *** Decoding what was encoded *)

Lemma coerce_Object (members : list (string * value)) :
  coerce_value (Object members) = Object (map coerce_member members).
Proof. reflexivity. Qed.

Lemma fold_string_member {A : Type} (step : A -> string * value -> A)
    (omitempty : bool) (key s : string) (a : A) :
  fold_left step (map coerce_member (string_member omitempty key s)) a
  = if omitempty && (len s =? 0) then a
    else step a (ToValid key, Str (ToValid s)).
Proof. unfold string_member. now destruct (_ && _). Qed.

Lemma fold_int_member {A : Type} (step : A -> string * value -> A)
    (omitempty : bool) (key : string) (n : Z) (a : A) :
  fold_left step (map coerce_member (int_member omitempty key n)) a
  = if omitempty && (n =? 0) then a
    else step a (ToValid key, Number (fmt.d n)).
Proof. unfold int_member. now destruct (_ && _). Qed.

Lemma omitted_string (omitempty : bool) (s : string) :
  omitempty && (len s =? 0) = true -> s = "".
Proof. intros H. apply andb_true_iff in H as [ _ H ]. now apply len_zero. Qed.

Lemma omitted_int (omitempty : bool) (n : Z) :
  omitempty && (n =? 0) = true -> n = 0.
Proof. intros H. apply andb_true_iff in H as [ _ H ]. now apply Z.eqb_eq. Qed.

(** Every field left out is a field whose value is the zero value. *)
Ltac omitted :=
  repeat match goal with
         | |- context [ if ?o && (len ?s =? 0) then _ else _ ] =>
             let E := fresh "E" in
             destruct (o && (len s =? 0)) eqn:E;
             [ apply omitted_string in E; subst | clear E ]
         | |- context [ if ?o && (?n =? 0) then _ else _ ] =>
             let E := fresh "E" in
             destruct (o && (n =? 0)) eqn:E;
             [ apply omitted_int in E; subst | clear E ]
         end.

(** Whether a key names a field, computed. *)
Ltac names_compute :=
  repeat match goal with
         | |- context [ names ?f (ToValid ?k) ] =>
             let b := eval vm_compute in (names f (ToValid k)) in
             change (names f (ToValid k)) with b
         end;
  cbv iota.

Lemma cause_member_type (c : StatusCause) (y : string) :
  cause_member (c, true) (ToValid "type", Str y)
  = ({| Cause_Type := y; Cause_Message := Cause_Message c;
        Cause_Field := Cause_Field c |}, true).
Proof. unfold cause_member. names_compute. reflexivity. Qed.

Lemma cause_member_message (c : StatusCause) (y : string) :
  cause_member (c, true) (ToValid "message", Str y)
  = ({| Cause_Type := Cause_Type c; Cause_Message := y;
        Cause_Field := Cause_Field c |}, true).
Proof. unfold cause_member. names_compute. reflexivity. Qed.

Lemma cause_member_field (c : StatusCause) (y : string) :
  cause_member (c, true) (ToValid "field", Str y)
  = ({| Cause_Type := Cause_Type c; Cause_Message := Cause_Message c;
        Cause_Field := y |}, true).
Proof. unfold cause_member. names_compute. reflexivity. Qed.

Lemma decode_of_StatusCause (omitempty : bool) (c : StatusCause) :
  decode_StatusCause (coerce_value (of_StatusCause omitempty c)) StatusCause_zero
  = (coerce_StatusCause c, true).
Proof.
  destruct c as [ type message field ].
  unfold of_StatusCause, decode_StatusCause, coerce_StatusCause.
  cbn [Cause_Type Cause_Message Cause_Field].
  rewrite coerce_Object, !map_app, !fold_left_app, !fold_string_member.
  omitted;
    rewrite ?cause_member_type, ?cause_member_message, ?cause_member_field;
    reflexivity.
Qed.

Lemma decode_of_causes (omitempty : bool) (causes : list StatusCause) :
  let decoded :=
    map (fun e => decode_StatusCause e StatusCause_zero)
      (map coerce_value (map (of_StatusCause omitempty) causes)) in
  map fst decoded = map coerce_StatusCause causes /\ forallb snd decoded = true.
Proof.
  cbv zeta. induction causes as [ | c l [ IH1 IH2 ] ]; [ split; reflexivity | ].
  cbn [map forallb]. rewrite decode_of_StatusCause, IH1, IH2. split; reflexivity.
Qed.

Lemma details_member_name (d : StatusDetails) (y : string) :
  details_member (d, true) (ToValid "name", Str y)
  = ({| Details_Name := y; Details_UID := Details_UID d;
        Details_Causes := Details_Causes d;
        Details_RetryAfterSeconds := Details_RetryAfterSeconds d |}, true).
Proof. unfold details_member. names_compute. reflexivity. Qed.

Lemma details_member_uid (d : StatusDetails) (y : string) :
  details_member (d, true) (ToValid "uid", Str y)
  = ({| Details_Name := Details_Name d; Details_UID := y;
        Details_Causes := Details_Causes d;
        Details_RetryAfterSeconds := Details_RetryAfterSeconds d |}, true).
Proof. unfold details_member. names_compute. reflexivity. Qed.

Lemma details_member_retry (d : StatusDetails) (n : Z) :
  is_int32 n = true ->
  details_member (d, true) (ToValid "retryAfterSeconds", Number (fmt.d n))
  = (set_Details_RetryAfterSeconds n d, true).
Proof.
  intros H. unfold details_member. names_compute.
  now rewrite (decode_int32_fmt_d _ _ H).
Qed.

Lemma details_member_causes (omitempty : bool) (d : StatusDetails)
    (causes : list StatusCause) :
  details_member (d, true)
    (coerce_member ("causes", Array (map (of_StatusCause omitempty) causes)))
  = ({| Details_Name := Details_Name d; Details_UID := Details_UID d;
        Details_Causes := map coerce_StatusCause causes;
        Details_RetryAfterSeconds := Details_RetryAfterSeconds d |}, true).
Proof.
  unfold details_member, coerce_member. cbn [fst snd coerce_value].
  names_compute. unfold decode_causes.
  destruct (decode_of_causes omitempty causes) as [ -> -> ]. reflexivity.
Qed.

Lemma decode_of_StatusDetails (omitempty : bool) (d : StatusDetails) :
  is_int32 (Details_RetryAfterSeconds d) = true ->
  decode_details (coerce_value (of_StatusDetails omitempty d)) None
  = (Some (coerce_StatusDetails d), true).
Proof.
  destruct d as [ name uid causes retry ].
  cbn [Details_RetryAfterSeconds]. intros Hr.
  unfold of_StatusDetails, decode_details, coerce_StatusDetails.
  cbn [Details_Name Details_UID Details_Causes Details_RetryAfterSeconds].
  rewrite coerce_Object, !map_app, !fold_left_app, !fold_string_member,
    fold_int_member.
  assert (Hc : forall a,
    fold_left details_member
      (map coerce_member
         match causes with
         | [] => []
         | c :: l =>
             [("causes", Array (map (of_StatusCause omitempty) (c :: l)))]
         end) (a, true)
    = ({| Details_Name := Details_Name a; Details_UID := Details_UID a;
          Details_Causes :=
            match causes with
            | [] => Details_Causes a
            | _ => map coerce_StatusCause causes
            end;
          Details_RetryAfterSeconds := Details_RetryAfterSeconds a |}, true)).
  { intros a. destruct causes as [ | c l ]; [ now destruct a | ].
    exact (details_member_causes omitempty a (c :: l)). }
  omitted;
    rewrite ?details_member_name, ?details_member_uid,
      ?details_member_retry by assumption;
    rewrite Hc; destruct causes; reflexivity.
Qed.

Lemma status_member_status (s : Status) (y : string) :
  status_member (s, true) (ToValid "status", Str y) = (set_Status_Status y s, true).
Proof. unfold status_member. names_compute. reflexivity. Qed.

Lemma status_member_code (s : Status) (n : Z) :
  is_int32 n = true ->
  status_member (s, true) (ToValid "code", Number (fmt.d n))
  = (set_Status_Code n s, true).
Proof.
  intros H. unfold status_member. names_compute.
  now rewrite (decode_int32_fmt_d _ _ H).
Qed.

Lemma status_member_reason (s : Status) (y : string) :
  status_member (s, true) (ToValid "reason", Str y)
  = ({| Status_Status := Status_Status s; Status_Code := Status_Code s;
        Status_Reason := y; Status_Message := Status_Message s;
        Status_Details := Status_Details s |}, true).
Proof. unfold status_member. names_compute. reflexivity. Qed.

Lemma status_member_message (s : Status) (y : string) :
  status_member (s, true) (ToValid "message", Str y)
  = ({| Status_Status := Status_Status s; Status_Code := Status_Code s;
        Status_Reason := Status_Reason s; Status_Message := y;
        Status_Details := Status_Details s |}, true).
Proof. unfold status_member. names_compute. reflexivity. Qed.

Lemma status_member_details (omitempty : bool) (s : Status) (d : StatusDetails) :
  Status_Details s = None ->
  is_int32 (Details_RetryAfterSeconds d) = true ->
  status_member (s, true) (coerce_member ("details", of_StatusDetails omitempty d))
  = (set_Status_Details (Some (coerce_StatusDetails d)) s, true).
Proof.
  intros Hs Hd. unfold status_member, coerce_member. cbn [fst snd].
  names_compute. now rewrite Hs, (decode_of_StatusDetails _ _ Hd).
Qed.

Lemma decode_of_Status (omitempty : bool) (s : Status) :
  int32_Status s = true ->
  decode_Status (coerce_value (of_Status omitempty s)) Status_zero
  = (coerce_Status s, true).
Proof.
  destruct s as [ status code reason message details ].
  unfold int32_Status. cbn [Status_Code Status_Details].
  intros [ Hcode Hdetails ]%andb_true_iff.
  unfold of_Status, decode_Status, coerce_Status.
  cbn [Status_Status Status_Code Status_Reason Status_Message Status_Details].
  rewrite coerce_Object, !map_app, !fold_left_app, !fold_string_member,
    fold_int_member.
  omitted;
    rewrite ?status_member_status, ?status_member_code, ?status_member_reason,
      ?status_member_message by assumption;
    (destruct details as [ d | ];
     [ cbn [map fold_left];
       rewrite status_member_details by (try reflexivity; assumption)
     | ]; reflexivity).
Qed.

(** What [json.Marshal] wrote, [json.Unmarshal] reads back without an error:
    the status it leaves is the one written, its strings coerced to valid
    UTF-8. *)
Lemma Unmarshal_Marshal (omitempty : bool) (s : Status) :
  int32_Status s = true ->
  Unmarshal (Marshal omitempty s) Status_zero = (coerce_Status s, nilError)
  /\ Unmarshal (MarshalIndent omitempty s) Status_zero = (coerce_Status s, nilError).
Proof.
  intros H. unfold Unmarshal, Marshal, MarshalIndent.
  rewrite !string_of_list_byte_of_string.
  destruct (parse_document_write (of_Status omitempty s)
              (wf_of_Status _ _) (depth_of_Status _ _)) as [ -> -> ].
  now rewrite (decode_of_Status _ _ H).
Qed.

Lemma coerce_StatusCause_valid (c : StatusCause) :
  valid_StatusCause c = true -> coerce_StatusCause c = c.
Proof.
  destruct c as [ type message field ]. unfold valid_StatusCause, coerce_StatusCause.
  cbn [Cause_Type Cause_Message Cause_Field].
  intros [ [ H1 H2 ]%andb_true_iff H3 ]%andb_true_iff.
  now rewrite !ToValid_valid.
Qed.

Lemma coerce_StatusDetails_valid (d : StatusDetails) :
  valid_StatusDetails d = true -> coerce_StatusDetails d = d.
Proof.
  destruct d as [ name uid causes retry ].
  unfold valid_StatusDetails, coerce_StatusDetails.
  cbn [Details_Name Details_UID Details_Causes Details_RetryAfterSeconds].
  intros [ [ H1 H2 ]%andb_true_iff H3 ]%andb_true_iff.
  rewrite !ToValid_valid by assumption. f_equal.
  induction causes as [ | c l IH ]; [ reflexivity | ].
  cbn [forallb] in H3. apply andb_true_iff in H3 as [ Hc Hl ].
  cbn [map]. now rewrite coerce_StatusCause_valid, IH.
Qed.

Lemma coerce_Status_valid (s : Status) :
  valid_Status s = true -> coerce_Status s = s.
Proof.
  destruct s as [ status code reason message details ].
  unfold valid_Status, coerce_Status.
  cbn [Status_Status Status_Code Status_Reason Status_Message Status_Details].
  intros [ [ [ H1 H2 ]%andb_true_iff H3 ]%andb_true_iff H4 ]%andb_true_iff.
  rewrite !ToValid_valid by assumption. f_equal.
  destruct details as [ d | ]; [ | reflexivity ].
  cbn [option_map]. now rewrite coerce_StatusDetails_valid.
Qed.

(** *** Round trip through [FromResponse] *)

Lemma retryAfterSeconds_missing (resp : http.Response) :
  http.Header_ resp !! "Retry-After" = None -> retryAfterSeconds resp = (0, false).
Proof.
  intros H. unfold retryAfterSeconds, http.Header_Get. now rewrite H.
Qed.

(** C9, as stated, fails: [json.Marshal] coerces a string to valid UTF-8, so
    a status whose message holds the byte [0xFF] comes back with [U+FFFD]
    (three bytes) in its place. *)
Lemma FromResponse_round_trip_invalid_utf8 :
  FromResponse json.Unmarshal
    (response_with_body 400
       (json.Marshal true (ErrStatus (NewBadRequest (String (utf8.chr 255) "")))))
  = Ok (ofStatusError (NewBadRequest utf8.replacement), true)
  /\ String.length utf8.replacement = 3%nat.
Proof. split; vm_compute; reflexivity. Qed.

(** C9 (amended): a [Status] whose numbers are [int32] values, encoded in the
    wire format (compact or indented) and carried by a response with a code
    outside [200, 204] and no [Retry-After] header, comes back from
    [FromResponse] with [hasError = true] as the same [Status] with every
    string coerced to valid UTF-8; it is equal to the original, field for
    field, when the strings of the original are valid UTF-8.  This holds
    whether or not the scalar fields are written with [omitempty]. *)
Theorem FromResponse_round_trip
    (omitempty indented : bool) (s : Status) (resp : http.Response) :
  int32_Status s = true ->
  ~ success_code resp ->
  http.Header_ resp !! "Retry-After" = None ->
  http.Body resp
  = {| io.data := if indented then json.MarshalIndent omitempty s
                  else json.Marshal omitempty s;
       io.err := nilError |} ->
  FromResponse json.Unmarshal resp
  = Ok (ofStatusError {| ErrStatus := coerce_Status s |}, true)
  /\ (valid_Status s = true ->
      FromResponse json.Unmarshal resp = Ok (ofStatusError {| ErrStatus := s |}, true)).
Proof.
  intros Hint Hcode Hheader Hbody.
  assert (H : FromResponse json.Unmarshal resp
              = Ok (ofStatusError {| ErrStatus := coerce_Status s |}, true)).
  { rewrite FromResponse_unfold.
    destruct (_ && _) eqn:Es; [ apply success_code_dec in Es; contradiction | ].
    rewrite Hbody. cbn [io.err io.data notNil].
    destruct (Unmarshal_Marshal omitempty s Hint) as [ Hc Hi ].
    destruct indented; [ rewrite Hi | rewrite Hc ]; cbn [fst snd notNil];
      now rewrite (retryAfterSeconds_missing _ Hheader). }
  split; [ exact H | ].
  intros Hvalid. rewrite H. now rewrite (coerce_Status_valid _ Hvalid).
Qed.

Lemma FromResponse_round_trip_witness :
  FromResponse json.Unmarshal
    (response_with_body 404
       (json.MarshalIndent true (ErrStatus (NewNotFound "pod" "1"))))
  = Ok (ofStatusError (NewNotFound "pod" "1"), true).
Proof.
  refine (proj2 (FromResponse_round_trip true true
                   (ErrStatus (NewNotFound "pod" "1"))
                   (response_with_body 404
                      (json.MarshalIndent true (ErrStatus (NewNotFound "pod" "1"))))
                   _ _ _ _) _).
  - reflexivity.
  - unfold success_code. simpl. lia.
  - reflexivity.
  - reflexivity.
  - vm_compute. reflexivity.
Defined.

(** ** Field errors and causes *)

Lemma NewInvalid_causes_app (causes : list StatusCause) (errs : field.ErrorList) :
  NewInvalid_causes causes errs = (causes ++ map cause_of errs)%list.
Proof.
  revert causes. induction errs as [ | err rest IH ]; intros causes.
  - cbn [NewInvalid_causes map]. now rewrite app_nil_r.
  - cbn [NewInvalid_causes map]. rewrite IH. now rewrite <- app_assoc.
Qed.

(** X1: [NewInvalid] records exactly one cause per field error, in the order
    of the list: the i-th cause carries the type, the [ErrorBody] text and
    the field path of the i-th field error, and there is no other cause. *)
Theorem NewInvalid_one_cause_per_field_error
    (Aggregate_v : field.ErrorList -> string) (name : string)
    (errs : field.ErrorList) :
  Status_Details (ErrStatus (NewInvalid Aggregate_v name errs))
  = Some {| Details_Name := name; Details_UID := "";
            Details_Causes := map cause_of errs;
            Details_RetryAfterSeconds := 0 |}
  /\ List.length (map cause_of errs) = List.length errs
  /\ (forall (i : nat) (err : field.Error),
        nth_error errs i = Some err ->
        nth_error (map cause_of errs) i
        = Some {| Cause_Type := field.Type_ err;
                  Cause_Message := field.ErrorBody err;
                  Cause_Field := field.Field err |}).
Proof.
  split; [ | split ].
  - unfold NewInvalid. cbn [ErrStatus Status_Details].
    now rewrite NewInvalid_causes_app.
  - apply length_map.
  - intros i err H. now rewrite nth_error_map, H.
Qed.

Lemma find_cause_spec (name : CauseType) (causes : list StatusCause) (c : StatusCause) :
  find_cause name causes = Some c <->
  exists before after,
    causes = (before ++ c :: after)%list
    /\ Cause_Type c = name
    /\ List.Forall (fun x => Cause_Type x <> name) before.
Proof.
  split.
  - induction causes as [ | x rest IH ]; [ discriminate | ].
    cbn [find_cause]. destruct (String.eqb (Cause_Type x) name) eqn:E.
    + intros [= <-]. exists [], rest. apply String.eqb_eq in E. now repeat split.
    + intros H. destruct (IH H) as (before & after & -> & Ht & Hb).
      exists (x :: before), after. repeat split; [ assumption | ].
      constructor; [ now apply String.eqb_neq | assumption ].
  - intros (before & after & -> & Ht & Hb).
    induction Hb as [ | x before Hx _ IH ].
    + cbn [app find_cause]. apply String.eqb_eq in Ht. now rewrite Ht.
    + cbn [app find_cause]. apply String.eqb_neq in Hx. now rewrite Hx.
Qed.

Lemma find_cause_none (name : CauseType) (causes : list StatusCause) :
  find_cause name causes = None <->
  List.Forall (fun x => Cause_Type x <> name) causes.
Proof.
  induction causes as [ | x rest IH ]; cbn [find_cause].
  - split; [ constructor | reflexivity ].
  - destruct (String.eqb (Cause_Type x) name) eqn:E.
    + split; [ discriminate | ]. intros H. inversion H; subst.
      apply String.eqb_eq in E. contradiction.
    + rewrite IH. split.
      * intros H. constructor; [ now apply String.eqb_neq | assumption ].
      * intros H. now inversion H.
Qed.

Lemma wrap_all_As_UnexpectedObjectError (msgs : list string) (err : error) :
  errors.As_UnexpectedObjectError (wrap_all msgs err)
  = errors.As_UnexpectedObjectError err.
Proof. induction msgs as [ | m l IH ]; [ reflexivity | exact IH ]. Qed.

Lemma IsUnexpectedServerError_wrap_all (msgs : list string) (err : error) :
  IsUnexpectedServerError (wrap_all msgs err) = IsUnexpectedServerError err.
Proof. unfold IsUnexpectedServerError. now rewrite As_APIStatus_wrap_all. Qed.

(** X3: [IsUnexpectedServerError] and [HasStatusCause] look for the same
    cause type but differ on wrapped errors: on a [StatusError] itself they
    agree; wrapping does not change the answer of [IsUnexpectedServerError],
    while [HasStatusCause] answers [false] on every wrapper. *)
Theorem IsUnexpectedServerError_unwraps_HasStatusCause_does_not :
  (forall e : StatusError,
     IsUnexpectedServerError e
     = HasStatusCause e CauseTypeUnexpectedServerResponse)
  /\ (forall msgs err,
        IsUnexpectedServerError (wrap_all msgs err) = IsUnexpectedServerError err)
  /\ (forall prefix (e : StatusError),
        HasStatusCause (fmt.Errorf_w prefix e) CauseTypeUnexpectedServerResponse
        = false)
  /\ (forall err,
        IsUnexpectedServerError err = true <->
        exists (e : StatusError) d c,
          errors.As_APIStatus err = Some e
          /\ Status_Details (ErrStatus e) = Some d
          /\ In c (Details_Causes d)
          /\ Cause_Type c = CauseTypeUnexpectedServerResponse).
Proof.
  split; [ | split; [ | split ] ].
  - intros e. unfold IsUnexpectedServerError, HasStatusCause.
    cbn [errors.As_APIStatus GetStatusCause].
    destruct (Status_Details _); [ | reflexivity ].
    now destruct (find_cause _ _).
  - apply IsUnexpectedServerError_wrap_all.
  - reflexivity.
  - intros err. unfold IsUnexpectedServerError, StatusError_Status.
    destruct (errors.As_APIStatus err) as [ e | ].
    + destruct (Status_Details (ErrStatus e)) as [ d | ] eqn:Ed.
      * destruct (find_cause _ (Details_Causes d)) as [ c | ] eqn:Ef.
        -- split; [ intros _ | reflexivity ].
           apply find_cause_spec in Ef as (before & after & H1 & H2 & _).
           exists e, d, c. repeat split; try assumption.
           rewrite H1. apply in_elt.
        -- split; [ discriminate | ].
           intros (e' & d' & c & [= <-] & Hd & Hin & Ht).
           rewrite Ed in Hd. injection Hd as <-.
           apply find_cause_none in Ef.
           rewrite List.Forall_forall in Ef. now destruct (Ef c Hin).
      * split; [ discriminate | ].
        intros (e' & d' & c & [= <-] & Hd & _). congruence.
    + split; [ discriminate | ]. intros (e' & d' & c & H & _). discriminate.
Qed.

(** X4: [IsUnexpectedServerError] on the errors the constructors build, at
    any wrap depth: it answers the [isUnexpectedResponse] flag handed to
    [NewGenericServerResponse]; it answers [false] on the error of every
    constructor that records no cause, and on [NewInternalError], whose one
    cause has the empty type; on [NewInvalid] it answers whether a field
    error has the type [UnexpectedServerResponse]. *)
Theorem IsUnexpectedServerError_of_constructors
    (Quote : string -> string) (Aggregate_v : field.ErrorList -> string)
    (msgs : list string) :
  (forall code verb name serverMessage retryAfterSeconds isUnexpectedResponse,
     IsUnexpectedServerError
       (wrap_all msgs
          (NewGenericServerResponse Quote code verb name serverMessage
             retryAfterSeconds isUnexpectedResponse))
     = isUnexpectedResponse)
  /\ (forall name errs,
        IsUnexpectedServerError (wrap_all msgs (NewInvalid Aggregate_v name errs))
        = existsb
            (fun err => String.eqb (field.Type_ err) CauseTypeUnexpectedServerResponse)
            errs)
  /\ (forall err,
        match NewInternalError err with
        | Ok e => IsUnexpectedServerError (wrap_all msgs e) = false
        | Panic => err = nilError
        end)
  /\ (forall name uid,
        IsUnexpectedServerError (wrap_all msgs (NewNotFound name uid)) = false
        /\ IsUnexpectedServerError (wrap_all msgs (NewAlreadyExists name uid)) = false)
  /\ (forall name err,
        IsUnexpectedServerError (wrap_all msgs (NewForbidden name err)) = false
        /\ IsUnexpectedServerError (wrap_all msgs (NewConflict name err)) = false)
  /\ (forall text,
        IsUnexpectedServerError (wrap_all msgs (NewUnauthorized text)) = false
        /\ IsUnexpectedServerError (wrap_all msgs (NewBadRequest text)) = false
        /\ IsUnexpectedServerError (wrap_all msgs (NewServiceUnavailable text)) = false
        /\ IsUnexpectedServerError (wrap_all msgs (NewMethodNotSupported text)) = false
        /\ IsUnexpectedServerError (wrap_all msgs (NewTooManyRequestsError text)) = false
        /\ IsUnexpectedServerError (wrap_all msgs (NewRequestEntityTooLargeError text))
           = false)
  /\ (forall text retryAfterSeconds,
        IsUnexpectedServerError
          (wrap_all msgs (NewTooManyRequests text retryAfterSeconds)) = false
        /\ IsUnexpectedServerError
             (wrap_all msgs (NewServerTimeout text retryAfterSeconds)) = false
        /\ IsUnexpectedServerError
             (wrap_all msgs (NewTimeoutError text retryAfterSeconds)) = false).
Proof.
  repeat split; intros; rewrite ?IsUnexpectedServerError_wrap_all; try reflexivity.
  - unfold NewGenericServerResponse.
    destruct (GenericServerResponse_reason_message _ _ _ _) as [ reason message ].
    now destruct isUnexpectedResponse.
  - unfold IsUnexpectedServerError, NewInvalid, StatusError_Status.
    cbn [errors.As_APIStatus ErrStatus Status_Details Details_Causes].
    rewrite NewInvalid_causes_app. cbn [app].
    induction errs as [ | err rest IH ]; [ reflexivity | ].
    cbn [map find_cause existsb cause_of Cause_Type].
    destruct (String.eqb (field.Type_ err) _); [ reflexivity | exact IH ].
  - destruct err; cbn [NewInternalError Error go_bind];
      rewrite ?IsUnexpectedServerError_wrap_all; reflexivity.
Qed.

Lemma IsUnexpectedObjectError_wrap_all (msgs : list string) (err : error) :
  notNil err = true ->
  IsUnexpectedObjectError (wrap_all msgs err) = IsUnexpectedObjectError err.
Proof.
  intros H. unfold IsUnexpectedObjectError.
  rewrite wrap_all_As_UnexpectedObjectError, H.
  destruct msgs; [ exact (f_equal (fun b => b && _) H) | reflexivity ].
Qed.

Lemma As_UnexpectedObjectError_chain (err : error) :
  match errors.As_UnexpectedObjectError err with
  | Some _ => true
  | None => false
  end = existsb is_UnexpectedObjectError (chain err).
Proof.
  induction err as [ | s | msg inner IH | e | u ]; try reflexivity.
  cbn [errors.As_UnexpectedObjectError chain existsb is_UnexpectedObjectError orb].
  exact IH.
Qed.

Lemma SuggestsClientDelay_wrap_all (msgs : list string) (err : error) :
  SuggestsClientDelay (wrap_all msgs err) = SuggestsClientDelay err.
Proof. unfold SuggestsClientDelay. now rewrite As_APIStatus_wrap_all. Qed.

(** X7: what [SuggestsClientDelay] never does.  Wrapping an error does not
    change its answer; an answer of [false] always comes with 0 seconds; an
    answer of [true] comes with a positive number of seconds unless the
    reason is [ServerTimeout], and always with the retry hint of the status
    found. *)
Theorem SuggestsClientDelay_invariants (err : error) :
  (forall msgs, SuggestsClientDelay (wrap_all msgs err) = SuggestsClientDelay err)
  /\ (snd (SuggestsClientDelay err) = false -> fst (SuggestsClientDelay err) = 0)
  /\ (snd (SuggestsClientDelay err) = true ->
      ReasonForError err <> StatusReasonServerTimeout ->
      0 < fst (SuggestsClientDelay err))
  /\ (snd (SuggestsClientDelay err) = true ->
      exists (e : StatusError) d,
        errors.As_APIStatus err = Some e
        /\ Status_Details (ErrStatus e) = Some d
        /\ fst (SuggestsClientDelay err) = Details_RetryAfterSeconds d).
Proof.
  split; [ intros; apply SuggestsClientDelay_wrap_all | ].
  unfold SuggestsClientDelay, ReasonForError, StatusError_Status.
  destruct (errors.As_APIStatus err) as [ e | ];
    [ | repeat split; discriminate ].
  destruct (Status_Details (ErrStatus e)) as [ d | ] eqn:Ed;
    [ | repeat split; discriminate ].
  destruct (String.eqb (Status_Reason (ErrStatus e)) StatusReasonServerTimeout) eqn:Er.
  - apply String.eqb_eq in Er. cbn [fst snd].
    split; [ discriminate | ]. split; [ intros _ H; contradiction | ].
    intros _. exists e, d. auto.
  - destruct (0 <? Details_RetryAfterSeconds d) eqn:El; cbn [fst snd].
    + split; [ discriminate | ]. split; [ intros _ _; now apply Z.ltb_lt | ].
      intros _. exists e, d. auto.
    + repeat split; discriminate.
Qed.

Lemma GenericServerResponse_not_ServerTimeout
    (Quote : string -> string) (code : Z) (verb serverMessage : string) :
  String.eqb (fst (GenericServerResponse_reason_message Quote code verb serverMessage))
    StatusReasonServerTimeout = false.
Proof.
  unfold GenericServerResponse_reason_message.
  repeat (match goal with
          | |- context [ if ?b then _ else _ ] => destruct b
          end; try reflexivity).
Qed.

(** X8: the delay the constructors suggest, at any wrap depth.
    [NewServerTimeout] always suggests a delay, of the seconds given
    converted to [int32], zero and negative values included; [NewTimeoutError],
    [NewTooManyRequests] and [NewGenericServerResponse] suggest the converted
    seconds exactly when they are positive, and otherwise answer 0 and
    [false]; the constructors that record no retry hint never suggest a
    delay. *)
Theorem SuggestsClientDelay_of_constructors
    (Quote : string -> string) (msgs : list string) (text : string) (seconds : Z) :
  SuggestsClientDelay (wrap_all msgs (NewServerTimeout text seconds))
  = (int32 seconds, true)
  /\ SuggestsClientDelay (wrap_all msgs (NewTimeoutError text seconds))
     = (if 0 <? int32 seconds then (int32 seconds, true) else (0, false))
  /\ SuggestsClientDelay (wrap_all msgs (NewTooManyRequests text seconds))
     = (if 0 <? int32 seconds then (int32 seconds, true) else (0, false))
  /\ (forall code verb name isUnexpectedResponse,
        SuggestsClientDelay
          (wrap_all msgs
             (NewGenericServerResponse Quote code verb name text seconds
                isUnexpectedResponse))
        = (if 0 <? int32 seconds then (int32 seconds, true) else (0, false)))
  /\ SuggestsClientDelay (wrap_all msgs (NewTooManyRequestsError text)) = (0, false)
  /\ SuggestsClientDelay (wrap_all msgs (NewServiceUnavailable text)) = (0, false)
  /\ (forall uid,
        SuggestsClientDelay (wrap_all msgs (NewNotFound text uid)) = (0, false))
  /\ (forall err,
        match NewInternalError err with
        | Ok e => SuggestsClientDelay (wrap_all msgs e) = (0, false)
        | Panic => err = nilError
        end).
Proof.
  repeat split; intros; rewrite ?SuggestsClientDelay_wrap_all; try reflexivity.
  - unfold SuggestsClientDelay, NewGenericServerResponse, StatusError_Status.
    pose proof (GenericServerResponse_not_ServerTimeout Quote code verb text) as H.
    destruct (GenericServerResponse_reason_message _ _ _ _) as [ reason message ].
    cbn [fst] in H.
    cbn [errors.As_APIStatus ErrStatus Status_Details Status_Reason
         Details_RetryAfterSeconds].
    now rewrite H.
  - destruct err; cbn [NewInternalError Error go_bind];
      rewrite ?SuggestsClientDelay_wrap_all; reflexivity.
Qed.

(** X9: [retryAfterSeconds] answers [(i, true)] exactly when the
    [Retry-After] header is an optionally signed decimal integer that
    denotes [i] within the range of [int], and [(0, false)] otherwise;
    [checkWait] gives that answer only for the code 429 and the codes from
    500 on, and [(0, false)] for every other code, whatever the header. *)
Theorem checkWait_only_429_and_5xx (resp : http.Response) :
  (forall i,
     retryAfterSeconds resp = (i, true) <->
     decimal_integer (retry_after_header resp) i)
  /\ (snd (retryAfterSeconds resp) = false -> retryAfterSeconds resp = (0, false))
  /\ (forall i,
        checkWait resp = (i, true) <->
        (http.StatusCode resp = 429 \/ 500 <= http.StatusCode resp)
        /\ decimal_integer (retry_after_header resp) i)
  /\ (snd (checkWait resp) = false -> checkWait resp = (0, false))
  /\ (http.StatusCode resp <> 429 -> http.StatusCode resp < 500 ->
      checkWait resp = (0, false)).
Proof.
  assert (Hr : forall i,
             retryAfterSeconds resp = (i, true) <->
             decimal_integer (retry_after_header resp) i).
  { intros i. split; [ | apply retryAfterSeconds_decimal ].
    unfold retryAfterSeconds. fold (retry_after_header resp).
    destruct (0 <? len (retry_after_header resp)); [ | discriminate ].
    destruct (strconv.Atoi (retry_after_header resp)) as [ j | ] eqn:Ea;
      [ | discriminate ].
    intros [= <-]. now apply Atoi_decimal. }
  assert (Hf : snd (retryAfterSeconds resp) = false ->
               retryAfterSeconds resp = (0, false)).
  { unfold retryAfterSeconds.
    destruct (0 <? _); [ | reflexivity ].
    destruct (strconv.Atoi _); [ discriminate | reflexivity ]. }
  split; [ exact Hr | ]. split; [ exact Hf | ].
  unfold checkWait, http.StatusTooManyRequests.
  destruct (http.StatusCode resp =? 429) eqn:E1;
    [ apply Z.eqb_eq in E1 | apply Z.eqb_neq in E1 ];
    (destruct (500 <=? http.StatusCode resp) eqn:E2;
     [ apply Z.leb_le in E2 | apply Z.leb_gt in E2 ]); cbn [orb].
  1-3: (split; [ intros i; rewrite Hr; intuition lia | ]);
       (split; [ exact Hf | ]); intros; lia.
  split; [ intros i; split; [ discriminate | intros [ [ ? | ? ] _ ]; lia ] | ].
  split; reflexivity.
Qed.

(** ** [ErrorToAPIStatus], once more *)

Lemma ErrorToAPIStatus_StatusError (GoSyntax_v : error -> string) (e : StatusError) :
  ErrorToAPIStatus GoSyntax_v e
  = Ok (normalized (ErrStatus e),
        if valid_status (Status_Status (normalized (ErrStatus e))) then []
        else [ errors.New
                 ("apiserver received an error with wrong status field : "
                  ++ GoSyntax_v e) ]).
Proof.
  destruct e as [ [ st code reason message details ] ].
  unfold ErrorToAPIStatus, normalized, valid_status, StatusError_Status,
    set_Status_Status, set_Status_Code.
  cbn [ErrStatus Status_Status Status_Code Status_Reason Status_Message Status_Details].
  destruct st as [ | c st ].
  - change (len "" =? 0) with true. cbn iota.
    cbn [Status_Status Status_Code].
    change (String.eqb StatusFailure StatusSuccess) with false.
    change (String.eqb StatusFailure StatusFailure) with true.
    cbn iota. destruct (code =? 0); reflexivity.
  - replace (len (String c st) =? 0) with false
      by (symmetry; apply Z.eqb_neq; unfold len; simpl; lia).
    replace (String.eqb (String c st) "") with false by reflexivity.
    cbn [Status_Status Status_Code].
    destruct (String.eqb (String c st) StatusSuccess) eqn:ES.
    + cbn [orb]. destruct (code =? 0); reflexivity.
    + cbn [orb]. destruct (String.eqb (String c st) StatusFailure) eqn:EF;
        destruct (code =? 0); reflexivity.
Qed.

Lemma normalized_status_nonempty (s : Status) : Status_Status (normalized s) <> "".
Proof.
  unfold normalized. cbn [Status_Status].
  destruct (String.eqb (Status_Status s) "") eqn:E; [ discriminate | ].
  now apply String.eqb_neq.
Qed.

Lemma normalized_code_nonzero (s : Status) : Status_Code (normalized s) <> 0.
Proof.
  unfold normalized. cbn [Status_Code].
  destruct (Status_Code s =? 0) eqn:E; [ | now apply Z.eqb_neq ].
  destruct (String.eqb _ StatusSuccess); discriminate.
Qed.

Lemma normalized_fixpoint (s : Status) :
  Status_Status s <> "" -> Status_Code s <> 0 -> normalized s = s.
Proof.
  intros Hs Hc. destruct s as [ st code reason message details ].
  unfold normalized. cbn [Status_Status Status_Code Status_Reason Status_Message
                          Status_Details] in *.
  apply String.eqb_neq in Hs. apply Z.eqb_neq in Hc. now rewrite Hs, Hc.
Qed.

Lemma normalized_idempotent (s : Status) : normalized (normalized s) = normalized s.
Proof.
  apply normalized_fixpoint;
    [ apply normalized_status_nonempty | apply normalized_code_nonzero ].
Qed.

(** X10: the status [ErrorToAPIStatus] returns is always complete: its
    status field is never empty and its code is never 0; it is logged to
    [runtime.HandleError] exactly when the status field is neither
    [Success] nor [Failure]; and converting the [StatusError] of the
    returned status again returns the same status, unchanged. *)
Theorem ErrorToAPIStatus_complete_and_idempotent
    (GoSyntax_v : error -> string) (err : error) (s : Status) (logged : list error) :
  ErrorToAPIStatus GoSyntax_v err = Ok (s, logged) ->
  Status_Status s <> ""
  /\ Status_Code s <> 0
  /\ (logged = [] <-> valid_status (Status_Status s) = true)
  /\ exists logged',
       ErrorToAPIStatus GoSyntax_v (ofStatusError {| ErrStatus := s |})
       = Ok (s, logged').
Proof.
  intros H.
  assert (Hn : normalized s = s /\ (logged = [] <-> valid_status (Status_Status s) = true)).
  { destruct err as [ | t | msg inner | e | u ]; try discriminate;
      try (injection H as <- <-; split; [ reflexivity | split; reflexivity ]).
    rewrite ErrorToAPIStatus_StatusError in H. injection H as <- <-.
    split; [ apply normalized_idempotent | ].
    destruct (valid_status _); split; congruence. }
  destruct Hn as [ Hn Hl ].
  split; [ rewrite <- Hn; apply normalized_status_nonempty | ].
  split; [ rewrite <- Hn; apply normalized_code_nonzero | ].
  split; [ exact Hl | ].
  rewrite ErrorToAPIStatus_StatusError. cbn [ErrStatus]. rewrite Hn. eauto.
Qed.

Lemma ErrorToAPIStatus_complete_and_idempotent_witness :
  Status_Code
    {| Status_Status := StatusFailure; Status_Code := 500;
       Status_Reason := "NotFound"; Status_Message := ""; Status_Details := None |}
  <> 0.
Proof.
  refine (proj1 (proj2 (ErrorToAPIStatus_complete_and_idempotent (fun _ => "")
            (ofStatusError
               {| ErrStatus :=
                    {| Status_Status := ""; Status_Code := 0;
                       Status_Reason := "NotFound"; Status_Message := "";
                       Status_Details := None |} |})
            _ [] _))).
  reflexivity.
Defined.

(** X11: [NewAlreadyExists] words its message as [NewNotFound] does: for
    the same name and uid the two errors have the same text, [name not
    found] when the uid is empty and [name (uid) not found] otherwise, and
    the same details; they differ in code and reason only. *)
Theorem NewAlreadyExists_message_of_NewNotFound (name uid : string) :
  Error (NewAlreadyExists name uid) = Error (NewNotFound name uid)
  /\ Error (NewNotFound name uid)
     = Ok (if String.eqb uid "" then name ++ " not found"
           else name ++ " (" ++ uid ++ ") not found")
  /\ Status_Details (ErrStatus (NewAlreadyExists name uid))
     = Status_Details (ErrStatus (NewNotFound name uid))
  /\ IsAlreadyExists (NewAlreadyExists name uid) = true
  /\ IsNotFound (NewAlreadyExists name uid) = false.
Proof.
  repeat split.
  unfold Error, fmt.v, StatusError_Error, NewNotFound.
  cbn [ErrStatus Status_Message]. destruct uid; reflexivity.
Qed.

(** ** Debug output *)

(** X12: [DebugError] of a [StatusError] whose numbers are [int32] values
    always answers with the [%s] format and one operand, the indented JSON
    of the status; that text is read back by [json.Unmarshal] without an
    error as the status itself, its strings coerced to valid UTF-8. *)
Theorem DebugError_is_the_status_in_json (omitempty : bool) (e : StatusError) :
  int32_Status (ErrStatus e) = true ->
  exists out,
    StatusError_DebugError (json_MarshalIndent omitempty) e
    = ("server response object: %s", [ operand_string out ])
    /\ json.Unmarshal (list_byte_of_string out) Status_zero
       = (coerce_Status (ErrStatus e), nilError).
Proof.
  intros H.
  exists (string_of_list_byte (json.MarshalIndent omitempty (ErrStatus e))).
  split; [ reflexivity | ].
  rewrite list_byte_of_string_of_list_byte.
  apply (Unmarshal_Marshal omitempty _ H).
Qed.

Lemma DebugError_is_the_status_in_json_witness :
  exists out,
    StatusError_DebugError (json_MarshalIndent true) (NewBadRequest "bad")
    = ("server response object: %s", [ operand_string out ])
    /\ json.Unmarshal (list_byte_of_string out) Status_zero
       = (coerce_Status (ErrStatus (NewBadRequest "bad")), nilError).
Proof.
  apply (DebugError_is_the_status_in_json true (NewBadRequest "bad")).
  reflexivity.
Defined.

(** ** Response writers *)

Lemma WriteRawJSON_calls (omitempty : bool) (statusCode : Z) (object : Status) :
  httputils.WriteRawJSON omitempty statusCode object
  = [ ResponseWriter.Header_Set "Content-Type" "application/json";
      ResponseWriter.WriteHeader statusCode;
      ResponseWriter.Write (json.MarshalIndent omitempty object) ].
Proof. reflexivity. Qed.

Lemma WriteError_calls (GoSyntax_v : error -> string) (omitempty : bool)
    (err : error) (s : Status) (logged : list error) :
  ErrorToAPIStatus GoSyntax_v err = Ok (s, logged) ->
  httputils.WriteError GoSyntax_v omitempty err
  = Ok ((match positive_hint s with
         | Some n => [ ResponseWriter.Header_Set "Retry-After" (fmt.d n) ]
         | None => []
         end
         ++ [ ResponseWriter.Header_Set "Content-Type" "application/json";
              ResponseWriter.WriteHeader (Status_Code s);
              ResponseWriter.Write (json.MarshalIndent omitempty s) ])%list,
        logged).
Proof.
  intros H. unfold httputils.WriteError. rewrite H. cbn [go_bind].
  rewrite WriteRawJSON_calls. unfold positive_hint, strconv_Itoa.
  destruct (Status_Details s) as [ d | ]; [ | reflexivity ].
  now destruct (0 <? Details_RetryAfterSeconds d).
Qed.

Lemma written_parts (hint : option Z) (code : Z) (body : list Byte.byte) :
  let calls :=
    (match hint with
     | Some n => [ ResponseWriter.Header_Set "Retry-After" (fmt.d n) ]
     | None => []
     end
     ++ [ ResponseWriter.Header_Set "Content-Type" "application/json";
          ResponseWriter.WriteHeader code;
          ResponseWriter.Write body ])%list in
  ResponseWriter.StatusCode calls = Some code
  /\ ResponseWriter.Body calls = body
  /\ ResponseWriter.Header calls !! "Content-Type" = Some [ "application/json" ]
  /\ ResponseWriter.Header calls !! "Retry-After"
     = option_map (fun n => [ fmt.d n ]) hint.
Proof.
  unfold ResponseWriter.Header.
  destruct hint as [ n | ]; cbn [app ResponseWriter.StatusCode ResponseWriter.Body
                                 fold_left option_map];
    (split; [ reflexivity | ]); (split; [ apply app_nil_r | ]); split.
  - apply lookup_insert_eq.
  - etrans; [ apply lookup_insert_ne; discriminate | apply lookup_insert_eq ].
  - apply lookup_insert_eq.
  - etrans; [ apply lookup_insert_ne; discriminate | apply lookup_empty ].
Qed.

Lemma is_int32_int_range (n : Z) :
  is_int32 n = true -> int_min <= n <= int_max.
Proof.
  unfold is_int32, int32_min, int32_max, int_min, int_max.
  intros [ ?%Z.leb_le ?%Z.leb_le ]%andb_true_iff. lia.
Qed.

Lemma is_int32_id (n : Z) : is_int32 n = true -> int32 n = n.
Proof.
  unfold is_int32. intros [ ?%Z.leb_le ?%Z.leb_le ]%andb_true_iff.
  apply int32_id. lia.
Qed.

Lemma positive_hint_int32 (s : Status) (n : Z) :
  int32_Status s = true -> positive_hint s = Some n ->
  is_int32 n = true /\ 0 < n
  /\ exists d, Status_Details s = Some d /\ Details_RetryAfterSeconds d = n.
Proof.
  unfold int32_Status, positive_hint.
  destruct (Status_Details s) as [ d | ]; [ | discriminate ].
  intros [ _ H ]%andb_true_iff.
  destruct (0 <? Details_RetryAfterSeconds d) eqn:E; [ | discriminate ].
  intros [= <-]. apply Z.ltb_lt in E. eauto.
Qed.

(** What a response that carries the calls of [WriteError] gives to
    [retryAfterSeconds]. *)
Lemma retryAfterSeconds_carried
    (hint : option Z) (code : Z) (body : list Byte.byte) (resp : http.Response) :
  match hint with Some n => is_int32 n = true | None => True end ->
  carries
    (match hint with
     | Some n => [ ResponseWriter.Header_Set "Retry-After" (fmt.d n) ]
     | None => []
     end
     ++ [ ResponseWriter.Header_Set "Content-Type" "application/json";
          ResponseWriter.WriteHeader code;
          ResponseWriter.Write body ])%list resp ->
  http.StatusCode resp = code
  /\ http.Body resp = {| io.data := body; io.err := nilError |}
  /\ retryAfterSeconds resp
     = match hint with Some n => (n, true) | None => (0, false) end.
Proof.
  intros Hn (Hc & Hh & Hb).
  destruct (written_parts hint code body) as (Wc & Wb & _ & Wh).
  cbv zeta in Wc, Wb, Wh.
  rewrite Wc in Hc. rewrite Wb in Hb. injection Hc as Hc.
  split; [ now symmetry | ]. split; [ exact Hb | ].
  unfold http.Header_Get in Hh. rewrite Wh in Hh.
  destruct hint as [ n | ]; cbn [option_map] in Hh.
  - apply retryAfterSeconds_decimal. rewrite Hh.
    apply fmt_d_decimal. now apply is_int32_int_range.
  - apply retryAfterSeconds_not_decimal. rewrite Hh.
    intros i. apply empty_not_decimal.
Qed.

Lemma with_retry_same (s : Status) (n : Z) :
  (exists d, Status_Details s = Some d /\ Details_RetryAfterSeconds d = n) ->
  with_retry n (coerce_Status s) = coerce_Status s.
Proof.
  intros (d & Hd & Hn). destruct s as [ st code reason message details ].
  cbn [Status_Details] in Hd. subst details. destruct d as [ name uid causes r ].
  cbn [Details_RetryAfterSeconds] in Hn. subst r. reflexivity.
Qed.

Lemma FromResponse_carried
    (omitempty : bool) (s : Status) (resp : http.Response) :
  int32_Status s = true ->
  carries
    (match positive_hint s with
     | Some n => [ ResponseWriter.Header_Set "Retry-After" (fmt.d n) ]
     | None => []
     end
     ++ [ ResponseWriter.Header_Set "Content-Type" "application/json";
          ResponseWriter.WriteHeader (Status_Code s);
          ResponseWriter.Write (json.MarshalIndent omitempty s) ])%list resp ->
  FromResponse json.Unmarshal resp
  = if (200 <=? Status_Code s) && (Status_Code s <=? 204)
    then Ok (nilError, false)
    else Ok (ofStatusError {| ErrStatus := coerce_Status s |}, true).
Proof.
  intros Hint Hcar.
  assert (Hn : match positive_hint s with
               | Some n => is_int32 n = true
               | None => True
               end).
  { destruct (positive_hint s) as [ n | ] eqn:E; [ | exact I ].
    now destruct (positive_hint_int32 s n Hint E). }
  destruct (retryAfterSeconds_carried _ _ _ _ Hn Hcar) as (Hc & Hb & Hr).
  rewrite FromResponse_unfold, Hc.
  change http.StatusOK with 200. change http.StatusNoContent with 204.
  destruct (_ && _); [ reflexivity | ].
  rewrite Hb. cbn [io.err io.data notNil].
  destruct (Unmarshal_Marshal omitempty s Hint) as [ _ -> ].
  cbn [fst snd notNil]. rewrite Hr.
  destruct (positive_hint s) as [ n | ] eqn:E; cbn [fst snd]; [ | reflexivity ].
  destruct (positive_hint_int32 s n Hint E) as (Hi & _ & Hd).
  rewrite (is_int32_id _ Hi). now rewrite (with_retry_same s n Hd).
Qed.

Lemma recorded_carries (calls : list ResponseWriter.call) (code : Z) :
  ResponseWriter.StatusCode calls = Some code -> carries calls (recorded calls).
Proof.
  intros H. unfold carries, recorded. cbn [http.StatusCode http.Body].
  rewrite H. repeat split.
Qed.

(** X13: what [httputils.WriteError] writes for an error, [FromResponse]
    reads back.  When [ErrorToAPIStatus] gives the status [s] for the error,
    with [int32] numbers, [WriteError] returns, handing on what was logged,
    and from every response that carries its calls (the code, the
    [Retry-After] header if one was set, and the body), [FromResponse]
    returns the [StatusError] of [s], its strings coerced to valid UTF-8,
    with [hasError = true]; unless the code of [s] lies in [200, 204], when
    it returns no error at all. *)
Theorem WriteError_is_read_back_by_FromResponse
    (GoSyntax_v : error -> string) (omitempty : bool)
    (err : error) (s : Status) (logged : list error) :
  ErrorToAPIStatus GoSyntax_v err = Ok (s, logged) ->
  int32_Status s = true ->
  exists calls,
    httputils.WriteError GoSyntax_v omitempty err = Ok (calls, logged)
    /\ forall resp,
         carries calls resp ->
         FromResponse json.Unmarshal resp
         = if (200 <=? Status_Code s) && (Status_Code s <=? 204)
           then Ok (nilError, false)
           else Ok (ofStatusError {| ErrStatus := coerce_Status s |}, true).
Proof.
  intros H Hint. eexists. split; [ apply (WriteError_calls _ _ _ _ _ H) | ].
  intros resp. now apply FromResponse_carried.
Qed.

Lemma WriteError_is_read_back_by_FromResponse_witness :
  exists calls,
    httputils.WriteError (fun _ => "") true (NewTooManyRequests "slow down" 7)
    = Ok (calls, [])
    /\ FromResponse json.Unmarshal (recorded calls)
       = Ok (ofStatusError (NewTooManyRequests "slow down" 7), true).
Proof.
  destruct (WriteError_is_read_back_by_FromResponse (fun _ => "") true
              (NewTooManyRequests "slow down" 7)
              (ErrStatus (NewTooManyRequests "slow down" 7)) [])
    as (calls & Hw & Hr); [ reflexivity | reflexivity | ].
  exists calls. split; [ exact Hw | ].
  rewrite (Hr (recorded calls)); [ reflexivity | ].
  injection Hw as <-. now apply (recorded_carries _ 429).
Defined.

(** X14: the [Retry-After] header of [httputils.WriteError].  The header is
    set exactly when the status has details with a positive retry hint, to
    the decimal text of the hint; a response that carries the calls gives
    [retryAfterSeconds] that same number, and [(0, false)] when no header was
    set; for a [StatusError] whose reason is not [ServerTimeout] this is the
    answer [SuggestsClientDelay] gives on the error that was written. *)
Theorem WriteError_retry_after_header
    (GoSyntax_v : error -> string) (omitempty : bool)
    (err : error) (s : Status) (logged : list error) :
  ErrorToAPIStatus GoSyntax_v err = Ok (s, logged) ->
  int32_Status s = true ->
  exists calls,
    httputils.WriteError GoSyntax_v omitempty err = Ok (calls, logged)
    /\ ResponseWriter.Header calls !! "Retry-After"
       = option_map (fun n => [ fmt.d n ]) (positive_hint s)
    /\ forall resp,
         carries calls resp ->
         retryAfterSeconds resp
         = match positive_hint s with
           | Some n => (n, true)
           | None => (0, false)
           end
         /\ (exposes_Status err = true ->
             ReasonForError err <> StatusReasonServerTimeout ->
             retryAfterSeconds resp = SuggestsClientDelay err).
Proof.
  intros H Hint. eexists. split; [ apply (WriteError_calls _ _ _ _ _ H) | ].
  split; [ apply written_parts | ].
  intros resp Hcar.
  assert (Hn : match positive_hint s with
               | Some n => is_int32 n = true
               | None => True
               end).
  { destruct (positive_hint s) as [ n | ] eqn:E; [ | exact I ].
    now destruct (positive_hint_int32 s n Hint E). }
  destruct (retryAfterSeconds_carried _ _ _ _ Hn Hcar) as (_ & _ & Hr).
  split; [ exact Hr | ].
  intros He Hreason. rewrite Hr.
  destruct err as [ | t | msg inner | e | u ]; try discriminate.
  rewrite ErrorToAPIStatus_StatusError in H. injection H as <- _.
  unfold SuggestsClientDelay, positive_hint, ReasonForError, StatusError_Status in *.
  cbn [errors.As_APIStatus] in *.
  replace (Status_Details (normalized (ErrStatus e)))
    with (Status_Details (ErrStatus e)) by reflexivity.
  destruct (Status_Details (ErrStatus e)) as [ d | ]; [ | reflexivity ].
  apply String.eqb_neq in Hreason. rewrite Hreason.
  now destruct (0 <? Details_RetryAfterSeconds d).
Qed.

Lemma WriteError_retry_after_header_witness :
  exists calls,
    httputils.WriteError (fun _ => "") true (NewTimeoutError "late" 30)
    = Ok (calls, [])
    /\ ResponseWriter.Header calls !! "Retry-After" = Some [ "30" ]
    /\ retryAfterSeconds (recorded calls) = (30, true)
    /\ SuggestsClientDelay (NewTimeoutError "late" 30) = (30, true).
Proof.
  destruct (WriteError_retry_after_header (fun _ => "") true
              (NewTimeoutError "late" 30)
              (ErrStatus (NewTimeoutError "late" 30)) [])
    as (calls & Hw & Hh & Hr); [ reflexivity | reflexivity | ].
  exists calls. split; [ exact Hw | ]. split; [ exact Hh | ].
  destruct (Hr (recorded calls)) as [ H1 H2 ].
  { injection Hw as <-. now apply (recorded_carries _ 504). }
  split; [ exact H1 | ].
  rewrite <- H2; [ exact H1 | reflexivity | discriminate ].
Defined.

Lemma http_WriteRawJSON_calls (omitempty : bool) (statusCode : Z) (object : Status) :
  apiutils_http.WriteRawJSON omitempty statusCode object
  = httputils.WriteRawJSON omitempty statusCode object.
Proof. reflexivity. Qed.

(** X16: [WriteError] of the package [http] panics on a nil pointer and
    otherwise writes the status as it is: the code of the status, 0
    included, goes to [WriteHeader], no [Retry-After] header is set whatever
    the retry hint, and the body is the indented JSON of the status, not
    normalized.  It makes the same calls as [httputils.WriteError] on the
    same error when the status field is set, the code is not 0 and there is
    no positive retry hint. *)
Theorem http_WriteError_writes_the_status_as_it_is
    (GoSyntax_v : error -> string) (omitempty : bool) (e : StatusError) :
  apiutils_http.WriteError omitempty None = Panic
  /\ exists calls,
       apiutils_http.WriteError omitempty (Some e) = Ok calls
       /\ ResponseWriter.StatusCode calls = Some (Status_Code (ErrStatus e))
       /\ ResponseWriter.Header calls !! "Retry-After" = None
       /\ ResponseWriter.Body calls = json.MarshalIndent omitempty (ErrStatus e)
       /\ (Status_Status (ErrStatus e) <> "" ->
           Status_Code (ErrStatus e) <> 0 ->
           positive_hint (ErrStatus e) = None ->
           exists logged,
             httputils.WriteError GoSyntax_v omitempty e = Ok (calls, logged)).
Proof.
  split; [ reflexivity | ].
  eexists. split; [ reflexivity | ].
  rewrite http_WriteRawJSON_calls, WriteRawJSON_calls.
  destruct (written_parts None (Status_Code (ErrStatus e))
              (json.MarshalIndent omitempty (ErrStatus e))) as (Hc & Hb & _ & Hh).
  cbv zeta in Hc, Hb, Hh. cbn [app option_map] in Hc, Hb, Hh.
  split; [ exact Hc | ]. split; [ exact Hh | ]. split; [ exact Hb | ].
  intros Hs Hcode Hhint. eexists.
  rewrite (WriteError_calls _ _ _ _ _ (ErrorToAPIStatus_StatusError GoSyntax_v e)).
  rewrite (normalized_fixpoint _ Hs Hcode), Hhint. reflexivity.
Qed.

Lemma http_WriteError_writes_the_status_as_it_is_witness :
  exists logged,
    httputils.WriteError (fun _ => "") true (NewNotFound "test" "")
    = Ok ([ ResponseWriter.Header_Set "Content-Type" "application/json";
            ResponseWriter.WriteHeader 404;
            ResponseWriter.Write
              (json.MarshalIndent true (ErrStatus (NewNotFound "test" ""))) ],
          logged).
Proof.
  destruct (http_WriteError_writes_the_status_as_it_is (fun _ => "") true
              (NewNotFound "test" "")) as [ _ (calls & Hc & _ & _ & _ & H) ].
  injection Hc as <-.
  apply H; [ discriminate | discriminate | reflexivity ].
Defined.

Lemma normalized_valid (s : Status) :
  valid_Status s = true -> valid_Status (normalized s) = true.
Proof.
  unfold valid_Status, normalized.
  cbn [Status_Status Status_Reason Status_Message Status_Details].
  intros [ [ [ H1 H2 ]%andb_true_iff H3 ]%andb_true_iff H4 ]%andb_true_iff.
  rewrite H2, H3, H4.
  destruct (String.eqb (Status_Status s) ""); [ reflexivity | now rewrite H1 ].
Qed.

Lemma normalized_int32 (s : Status) :
  int32_Status s = true -> int32_Status (normalized s) = true.
Proof.
  unfold int32_Status, normalized. cbn [Status_Code Status_Details].
  intros [ H1 H2 ]%andb_true_iff. rewrite H2.
  destruct (Status_Code s =? 0); [ | now rewrite H1 ].
  now destruct (String.eqb _ StatusSuccess).
Qed.

Lemma normalized_code_matches (s : Status) (code : Z) :
  code <> 0 -> code <> 200 -> code <> 500 ->
  (Status_Code (normalized s) =? code) = (Status_Code s =? code).
Proof.
  intros H0 H2 H5. unfold normalized. cbn [Status_Code].
  destruct (Status_Code s =? 0) eqn:E; [ | reflexivity ].
  apply Z.eqb_eq in E. rewrite E.
  assert (H : forall z, z <> code -> (z =? code) = false)
    by (intros z Hz; now apply Z.eqb_neq).
  destruct (String.eqb _ StatusSuccess); rewrite !H by lia; reflexivity.
Qed.

(** X17: classification survives the wire.  A [StatusError] whose strings
    are valid UTF-8 and whose numbers are [int32] values, written by
    [httputils.WriteError] with a code outside [200, 204] once normalized,
    is read by [FromResponse] from any response that carries the calls as
    the [StatusError] of the normalized status; on it the reason, hence
    every classifier defined by a reason, the two classifiers with a code
    fallback, [IsUnexpectedServerError], [SuggestsClientDelay] and the text
    give what they give on the error that was written. *)
Theorem classification_survives_the_wire
    (GoSyntax_v : error -> string) (omitempty : bool) (e : StatusError) :
  valid_Status (ErrStatus e) = true ->
  int32_Status (ErrStatus e) = true ->
  ~ 200 <= Status_Code (normalized (ErrStatus e)) <= 204 ->
  exists calls logged,
    httputils.WriteError GoSyntax_v omitempty e = Ok (calls, logged)
    /\ forall resp,
         carries calls resp ->
         exists back,
           FromResponse json.Unmarshal resp = Ok (back, true)
           /\ back = ofStatusError {| ErrStatus := normalized (ErrStatus e) |}
           /\ ReasonForError back = ReasonForError e
           /\ IsTooManyRequests back = IsTooManyRequests e
           /\ IsRequestEntityTooLargeError back = IsRequestEntityTooLargeError e
           /\ IsUnexpectedServerError back = IsUnexpectedServerError e
           /\ SuggestsClientDelay back = SuggestsClientDelay e
           /\ Error back = Error e.
Proof.
  intros Hvalid Hint Hcode.
  eexists. eexists.
  split; [ apply (WriteError_calls _ _ _ _ _ (ErrorToAPIStatus_StatusError GoSyntax_v e)) | ].
  intros resp Hcar. eexists. split.
  { rewrite (FromResponse_carried omitempty _ resp (normalized_int32 _ Hint) Hcar).
    destruct (_ && _) eqn:E.
    - apply andb_true_iff in E as [ ?%Z.leb_le ?%Z.leb_le ]. lia.
    - now rewrite (coerce_Status_valid _ (normalized_valid _ Hvalid)). }
  split; [ reflexivity | ].
  unfold ReasonForError, IsTooManyRequests, IsRequestEntityTooLargeError,
    IsUnexpectedServerError, SuggestsClientDelay, ReasonForError, StatusError_Status.
  cbn [errors.As_APIStatus ErrStatus].
  change (Status_Reason (normalized (ErrStatus e))) with (Status_Reason (ErrStatus e)).
  change (Status_Details (normalized (ErrStatus e))) with (Status_Details (ErrStatus e)).
  unfold http.StatusTooManyRequests, http.StatusRequestEntityTooLarge.
  rewrite !normalized_code_matches by lia.
  repeat split.
Qed.

Lemma classification_survives_the_wire_witness :
  exists calls logged back,
    httputils.WriteError (fun _ => "") true (NewNotFound "test" "")
    = Ok (calls, logged)
    /\ FromResponse json.Unmarshal (recorded calls) = Ok (back, true)
    /\ IsNotFound back = true.
Proof.
  destruct (classification_survives_the_wire (fun _ => "") true
              (NewNotFound "test" "")) as (calls & logged & Hw & Hr).
  - vm_compute. reflexivity.
  - reflexivity.
  - change (Status_Code (normalized (ErrStatus (NewNotFound "test" "")))) with 404.
    lia.
  - destruct (Hr (recorded calls)) as (back & Hf & _ & Hreason & _).
    { injection Hw as <- _. now apply (recorded_carries _ 404). }
    exists calls, logged, back. split; [ exact Hw | ]. split; [ exact Hf | ].
    unfold IsNotFound. now rewrite Hreason.
Defined.

(** X18: a wrapper loses its status on the wire.  [httputils.WriteError]
    does not unwrap: for a [%w] wrapper, whatever it wraps, it writes the
    code 500 and logs nothing, and [FromResponse] reads from any response
    that carries the calls the [Failure]/500 [StatusError] whose message is
    the text of the wrapper, coerced to valid UTF-8, and whose reason is
    [Unknown]; so a wrapped [StatusError] that [ReasonForError] still
    classifies on the writing side is classified [Unknown] on the reading
    side. *)
Theorem WriteError_of_a_wrapper_loses_the_status
    (GoSyntax_v : error -> string) (omitempty : bool)
    (msg : string) (inner : error) :
  exists calls,
    httputils.WriteError GoSyntax_v omitempty (wrapError msg inner) = Ok (calls, [])
    /\ ResponseWriter.StatusCode calls = Some 500
    /\ forall resp,
         carries calls resp ->
         FromResponse json.Unmarshal resp
         = Ok (ofStatusError {| ErrStatus := synthesized (utf8.ToValid msg) |}, true)
         /\ ReasonForError
              (ofStatusError {| ErrStatus := synthesized (utf8.ToValid msg) |})
            = StatusReasonUnknown
         /\ ReasonForError (wrapError msg inner) = ReasonForError inner.
Proof.
  eexists. split; [ apply WriteError_calls; reflexivity | ].
  split; [ reflexivity | ].
  intros resp Hcar.
  split; [ | split; reflexivity ].
  now rewrite (FromResponse_carried omitempty (synthesized msg) resp eq_refl Hcar).
Qed.

(** ** Constructors and classifiers together *)

Ltac classify :=
  unfold classified_only_as, classifiers;
  repeat (apply List.Forall_cons || apply List.Forall_nil);
  cbn [fst snd];
  unfold IsNotFound, IsAlreadyExists, IsConflict, IsInvalid, IsNotAcceptable,
    IsUnsupportedMediaType, IsMethodNotSupported, IsServiceUnavailable,
    IsBadRequest, IsUnauthorized, IsForbidden, IsTimeout, IsServerTimeout,
    IsInternalError, IsTooManyRequests, IsRequestEntityTooLargeError;
  rewrite ?ReasonForError_wrap_all, ?As_APIStatus_wrap_all;
  reflexivity.

(** X20: outside the success range, [FromResponse] makes no use of the
    status code of the response: two responses with codes outside
    [200, 204], the same [Retry-After] header and the same body give the
    same result, whatever the decoder; the code of the error returned is the
    one the body holds. *)
Theorem FromResponse_ignores_the_response_code
    (json_Unmarshal : list Byte.byte -> Status -> Status * error)
    (resp resp' : http.Response) :
  ~ success_code resp ->
  ~ success_code resp' ->
  retry_after_header resp = retry_after_header resp' ->
  http.Body resp = http.Body resp' ->
  FromResponse json_Unmarshal resp = FromResponse json_Unmarshal resp'.
Proof.
  intros Hc Hc' Hh Hb. rewrite !FromResponse_unfold.
  destruct (_ && _) eqn:E; [ apply success_code_dec in E; contradiction | ].
  destruct (_ && _) eqn:E' in |- *; [ apply success_code_dec in E'; contradiction | ].
  assert (Hr : retryAfterSeconds resp = retryAfterSeconds resp').
  { unfold retryAfterSeconds. fold (retry_after_header resp).
    fold (retry_after_header resp'). now rewrite Hh. }
  now rewrite Hb, Hr.
Qed.

Lemma FromResponse_ignores_the_response_code_witness :
  FromResponse json.Unmarshal
    (response_with_body 404
       (json.Marshal true (ErrStatus (NewServiceUnavailable "down"))))
  = FromResponse json.Unmarshal
      (response_with_body 503
         (json.Marshal true (ErrStatus (NewServiceUnavailable "down")))).
Proof.
  apply FromResponse_ignores_the_response_code;
    [ unfold success_code; simpl; lia | unfold success_code; simpl; lia
    | reflexivity | reflexivity ].
Defined.

(** ** Permissions *)

Import auth.

Lemma strings_Split_nonempty (s : string) (sep : ascii) :
  exists piece pieces, strings_Split s sep = piece :: pieces.
Proof.
  destruct s as [ | c rest ]; cbn [strings_Split]; [ eauto | ].
  destruct (Ascii.eqb c sep); [ eauto | ].
  destruct (strings_Split rest sep); eauto.
Qed.

Lemma strings_Split_length (s : string) (sep : ascii) :
  List.length (strings_Split s sep) = S (count_byte sep s).
Proof.
  unfold count_byte.
  induction s as [ | c rest IH ]; [ reflexivity | ].
  cbn [strings_Split list_ascii_of_string List.filter].
  destruct (Ascii.eqb c sep).
  - cbn [List.length]. now rewrite IH.
  - destruct (strings_Split rest sep); [ discriminate IH | exact IH ].
Qed.

Lemma strings_Join_Split (s : string) (sep : ascii) :
  strings_Join (strings_Split s sep) (String sep "") = s.
Proof.
  unfold strings_Join.
  induction s as [ | c rest IH ]; [ reflexivity | ].
  cbn [strings_Split].
  destruct (Ascii.eqb c sep) eqn:E.
  - apply Ascii.eqb_eq in E. subst c.
    destruct (strings_Split_nonempty rest sep) as (q & qs & Hq).
    rewrite Hq in *. cbn [String.concat] in *.
    rewrite IH. reflexivity.
  - destruct (strings_Split_nonempty rest sep) as (q & qs & Hq).
    rewrite Hq in *. destruct qs as [ | q' qs ].
    + cbn [String.concat] in *. now rewrite IH.
    + cbn [String.concat] in *. rewrite append_cons. now rewrite IH.
Qed.

Lemma strings_Split_free (s : string) (sep : ascii) :
  forallb (free_of sep) (strings_Split s sep) = true.
Proof.
  induction s as [ | c rest IH ]; [ reflexivity | ].
  cbn [strings_Split].
  destruct (Ascii.eqb c sep) eqn:E.
  - cbn [forallb]. exact IH.
  - destruct (strings_Split rest sep) as [ | q qs ]; cbn [forallb] in *.
    + unfold free_of. cbn. now rewrite E.
    + apply andb_true_iff in IH as [ Hq Hqs ]. rewrite Hqs, andb_true_r.
      unfold free_of in *. cbn [list_ascii_of_string forallb]. now rewrite E, Hq.
Qed.

Lemma strings_Split_free_piece (x : string) (sep : ascii) :
  free_of sep x = true -> strings_Split x sep = [ x ].
Proof.
  unfold free_of. induction x as [ | c x IH ]; [ reflexivity | ].
  cbn [list_ascii_of_string forallb strings_Split].
  intros [ Hc Hx ]%andb_true_iff. apply negb_true_iff in Hc.
  now rewrite Hc, (IH Hx).
Qed.

Lemma strings_Split_app (x y : string) (sep : ascii) :
  free_of sep x = true ->
  strings_Split (x ++ String sep y) sep = x :: strings_Split y sep.
Proof.
  unfold free_of. induction x as [ | c x IH ].
  - intros _. change ("" ++ String sep y) with (String sep y).
    cbn [strings_Split]. now rewrite Ascii.eqb_refl.
  - cbn [list_ascii_of_string forallb].
    intros [ Hc Hx ]%andb_true_iff. apply negb_true_iff in Hc.
    rewrite append_cons. cbn [strings_Split]. now rewrite Hc, (IH Hx).
Qed.

Lemma strings_Split_app_sep (x y : string) (sep : ascii) :
  free_of sep x = true ->
  strings_Split (x ++ String sep "" ++ y) sep = x :: strings_Split y sep.
Proof. apply strings_Split_app. Qed.

Lemma strings_Contains_byte (s : string) (c : ascii) :
  strings_Contains s (String c "") = negb (free_of c s).
Proof.
  unfold free_of. induction s as [ | x rest IH ]; [ reflexivity | ].
  cbn [strings_Contains list_ascii_of_string forallb String.prefix].
  rewrite IH.
  destruct (ascii_dec c x) as [ -> | Hn ].
  - rewrite Ascii.eqb_refl. now destruct rest.
  - apply Ascii.eqb_neq in Hn. rewrite Ascii.eqb_sym in Hn. now rewrite Hn.
Qed.

Lemma ParsePermissionString_parts (s a b c d : string) :
  strings_Split s "." = [ a; b; c; d ] ->
  ParsePermissionString s
  = ({| Namespace := a; Service := b; Resource := c; Verb := d |}, nilError).
Proof. intros H. unfold ParsePermissionString. now rewrite H. Qed.

Lemma Permission_String_append (p : Permission) :
  Permission_String p
  = Namespace p ++ "." ++ Service p ++ "." ++ Resource p ++ "." ++ Verb p.
Proof. reflexivity. Qed.

Lemma ParsePermissionString_cases (s : string) :
  if Nat.eqb (count_byte "." s) 3 then
    exists p,
      ParsePermissionString s = (p, nilError)
      /\ Permission_String p = s
      /\ forallb (free_of ".") (fields p) = true
  else
    ParsePermissionString s
    = (Permission_zero,
       errorString
         ("expected 4 parts, got " ++ fmt.d (Z.of_nat (S (count_byte "." s))))).
Proof.
  pose proof (strings_Split_length s ".") as Hl.
  pose proof (strings_Join_Split s ".") as Hj.
  pose proof (strings_Split_free s ".") as Hf.
  destruct (Nat.eqb (count_byte "." s) 3) eqn:E.
  - apply Nat.eqb_eq in E. rewrite E in Hl.
    destruct (strings_Split s ".") as [ | a [ | b [ | c [ | d [ | x l ] ] ] ] ] eqn:Hs;
      try discriminate.
    exists {| Namespace := a; Service := b; Resource := c; Verb := d |}.
    split; [ now apply ParsePermissionString_parts | ].
    split; [ exact Hj | exact Hf ].
  - apply Nat.eqb_neq in E. unfold ParsePermissionString. rewrite Hl.
    replace (Z.of_nat (S (count_byte "." s)) =? 4) with false; [ reflexivity | ].
    symmetry. apply Z.eqb_neq. lia.
Qed.

(** X21: [ParsePermissionString] succeeds exactly on the strings with
    three dots.  Then the four fields are the pieces between the dots, no
    field holds a dot, and [String] of the permission is the input again.
    On every other string it returns the zero permission and the error
    [expected 4 parts, got n], where [n] is the number of dots plus one. *)
Theorem ParsePermissionString_three_dots (s : string) :
  (count_byte "." s = 3%nat <->
   exists p, ParsePermissionString s = (p, nilError))
  /\ (forall p,
        ParsePermissionString s = (p, nilError) ->
        Permission_String p = s /\ forallb (free_of ".") (fields p) = true)
  /\ (count_byte "." s <> 3%nat ->
      ParsePermissionString s
      = (Permission_zero,
         errorString
           ("expected 4 parts, got "
            ++ fmt.d (Z.of_nat (S (count_byte "." s)))))).
Proof.
  pose proof (ParsePermissionString_cases s) as H.
  destruct (Nat.eqb (count_byte "." s) 3) eqn:E.
  - apply Nat.eqb_eq in E. destruct H as (p & Hp & Hs & Hf).
    split; [ split; [ intros _; eauto | intros _; exact E ] | ].
    split; [ | intros Hn; contradiction ].
    intros q Hq. rewrite Hp in Hq. injection Hq as <-. auto.
  - apply Nat.eqb_neq in E.
    split; [ split; [ intros Hc; contradiction | ] | ].
    + intros (p & Hp). rewrite H in Hp. discriminate.
    + split; [ | intros _; exact H ].
      intros p Hp. rewrite H in Hp. discriminate.
Qed.

(** X22: [ParsePermissionString] undoes [String] exactly on the
    permissions none of whose fields holds a dot: for these, parsing the
    text gives the permission back with no error; for a permission with a
    dot in a field, parsing its text does not give it back. *)
Theorem ParsePermissionString_of_String (p : Permission) :
  ParsePermissionString (Permission_String p) = (p, nilError)
  <-> forallb (free_of ".") (fields p) = true.
Proof.
  split.
  - intros H.
    pose proof (ParsePermissionString_cases (Permission_String p)) as Hp.
    destruct (Nat.eqb _ 3).
    + destruct Hp as (q & Hq & _ & Hf). rewrite H in Hq. now injection Hq as <-.
    + rewrite H in Hp. discriminate.
  - destruct p as [ a b c d ]. unfold fields. cbn [forallb Namespace Service Resource Verb].
    intros [ Ha [ Hb [ Hc [ Hd _ ]%andb_true_iff ]%andb_true_iff ]%andb_true_iff ]%andb_true_iff.
    apply ParsePermissionString_parts. rewrite Permission_String_append.
    cbn [Namespace Service Resource Verb].
    rewrite !strings_Split_app_sep by assumption.
    now rewrite strings_Split_free_piece.
Qed.

Lemma FulfillsRequirement_fields (r : PermissionRequirement) (p : Permission) :
  FulfillsRequirement r p
  = field_matches (Namespace r) (Namespace p)
    && field_matches (Service r) (Service p)
    && field_matches (Resource r) (Resource p)
    && field_matches (Verb r) (Verb p).
Proof.
  unfold FulfillsRequirement, field_matches.
  repeat match goal with
         | |- context [ String.eqb ?a ?b ] =>
             let b' := fresh "b" in
             generalize (String.eqb a b); intros b'
         end.
  repeat match goal with b : bool |- _ => destruct b end; reflexivity.
Qed.

Lemma field_matches_exact (r p : string) :
  String.eqb p Wildcard = false ->
  field_matches r p = true <-> r = p.
Proof.
  intros H. unfold field_matches. rewrite H, orb_false_r. apply String.eqb_eq.
Qed.

(** X23: [FulfillsRequirement] compares field by field: a field of the
    permission matches when it is equal to the field of the requirement or
    is the wildcard.  Hence every requirement is fulfilled by the permission
    with the same fields and by the permission of four wildcards; a
    permission none of whose fields is the wildcard fulfils exactly the
    requirement with the same fields; and replacing fields of a fulfilling
    permission by the wildcard keeps it fulfilling. *)
Theorem FulfillsRequirement_field_by_field (r : PermissionRequirement) (p : Permission) :
  FulfillsRequirement r p
  = field_matches (Namespace r) (Namespace p)
    && field_matches (Service r) (Service p)
    && field_matches (Resource r) (Resource p)
    && field_matches (Verb r) (Verb p)
  /\ FulfillsRequirement r r = true
  /\ FulfillsRequirement r
       {| Namespace := Wildcard; Service := Wildcard;
          Resource := Wildcard; Verb := Wildcard |} = true
  /\ (forallb (fun f => negb (String.eqb f Wildcard)) (fields p) = true ->
      (FulfillsRequirement r p = true <-> r = p))
  /\ (FulfillsRequirement r p = true ->
      forall w1 w2 w3 w4 : bool,
        FulfillsRequirement r
          {| Namespace := if w1 then Wildcard else Namespace p;
             Service := if w2 then Wildcard else Service p;
             Resource := if w3 then Wildcard else Resource p;
             Verb := if w4 then Wildcard else Verb p |} = true).
Proof.
  split; [ apply FulfillsRequirement_fields | ].
  split; [ rewrite FulfillsRequirement_fields; unfold field_matches;
           now rewrite !String.eqb_refl | ].
  split; [ rewrite FulfillsRequirement_fields; unfold field_matches;
           cbn [Namespace Service Resource Verb];
           now rewrite !String.eqb_refl, !orb_true_r | ].
  split.
  - destruct r as [ a b c d ], p as [ a' b' c' d' ]. unfold fields.
    cbn [forallb Namespace Service Resource Verb].
    intros [ Ha [ Hb [ Hc [ Hd _ ]%andb_true_iff ]%andb_true_iff ]%andb_true_iff ]%andb_true_iff.
    apply negb_true_iff in Ha, Hb, Hc, Hd.
    rewrite FulfillsRequirement_fields. cbn [Namespace Service Resource Verb].
    rewrite !andb_true_iff, !field_matches_exact by assumption.
    split; [ intros [ [ [ -> -> ] -> ] -> ]; reflexivity | ].
    intros [= -> -> -> ->]. auto.
  - rewrite !FulfillsRequirement_fields. cbn [Namespace Service Resource Verb].
    intros [ [ [ H1 H2 ]%andb_true_iff H3 ]%andb_true_iff H4 ]%andb_true_iff
      w1 w2 w3 w4.
    unfold field_matches in *.
    rewrite FulfillsRequirement_fields. unfold field_matches.
    cbn [Namespace Service Resource Verb].
    destruct w1, w2, w3, w4;
      rewrite ?String.eqb_refl, ?orb_true_r, ?H1, ?H2, ?H3, ?H4; reflexivity.
Qed.

Lemma free_of_not_eq (c : ascii) (s : string) :
  free_of c s = true -> String.eqb s (String c "") = false.
Proof.
  unfold free_of. destruct s as [ | x rest ]; [ reflexivity | ].
  cbn [list_ascii_of_string forallb]. intros [ Hx _ ]%andb_true_iff.
  apply negb_true_iff in Hx. cbn [String.eqb]. now rewrite Hx.
Qed.

Lemma FulfillsRequirement_exact (r : PermissionRequirement) (p : Permission) :
  forallb (free_of "*") (fields p) = true ->
  FulfillsRequirement r p = true <-> r = p.
Proof.
  destruct r as [ a b c d ], p as [ a' b' c' d' ]. unfold fields.
  cbn [forallb Namespace Service Resource Verb].
  intros [ Ha [ Hb [ Hc [ Hd _ ]%andb_true_iff ]%andb_true_iff ]%andb_true_iff ]%andb_true_iff.
  apply free_of_not_eq in Ha, Hb, Hc, Hd.
  rewrite FulfillsRequirement_fields. cbn [Namespace Service Resource Verb].
  rewrite !andb_true_iff, !field_matches_exact by assumption.
  split; [ intros [ [ [ -> -> ] -> ] -> ]; reflexivity | ].
  intros [= -> -> -> ->]. auto.
Qed.

Lemma free_of_app (c : ascii) (a b : string) :
  free_of c (a ++ b) = free_of c a && free_of c b.
Proof.
  unfold free_of. induction a as [ | x a IH ]; [ reflexivity | ].
  rewrite append_cons. cbn [list_ascii_of_string forallb].
  now rewrite IH, andb_assoc.
Qed.

Lemma free_of_fields (c : ascii) (p : Permission) :
  c <> "."%char ->
  free_of c (Permission_String p) = forallb (free_of c) (fields p).
Proof.
  intros Hc. rewrite Permission_String_append. unfold fields.
  assert (Hd : free_of c "." = true).
  { unfold free_of. cbn [list_ascii_of_string forallb].
    destruct (Ascii.eqb "." c) eqn:E; [ | reflexivity ].
    apply Ascii.eqb_eq in E. congruence. }
  rewrite !free_of_app, Hd. cbn [forallb andb]. now rewrite andb_true_r.
Qed.

Lemma ParsePermissionRequirementOrDie_cases (s : string) :
  ParsePermissionRequirementOrDie s
  = if free_of "*" s && Nat.eqb (count_byte "." s) 3
    then Ok (fst (ParsePermissionString s))
    else Panic.
Proof.
  unfold ParsePermissionRequirementOrDie, Wildcard.
  rewrite strings_Contains_byte.
  destruct (free_of "*" s); [ | reflexivity ]. cbn [negb andb].
  pose proof (ParsePermissionString_cases s) as H.
  destruct (Nat.eqb _ 3).
  - destruct H as (p & -> & _). reflexivity.
  - now rewrite H.
Qed.

(** X24: [ParsePermissionRequirementOrDie] returns exactly on the strings
    with three dots and no asterisk at all, and panics on every other
    string, one whose asterisk is only part of a field included.  A
    requirement it returns has no dot and no asterisk in any field, and
    [String] of it is the input; so between two requirements it returned,
    one fulfils the other exactly when the two inputs were the same
    string. *)
Theorem ParsePermissionRequirementOrDie_explicit (s : string) :
  (if free_of "*" s && Nat.eqb (count_byte "." s) 3 then
     exists r,
       ParsePermissionRequirementOrDie s = Ok r
       /\ PermissionRequirement_String r = s
       /\ forallb (free_of ".") (fields r) = true
       /\ forallb (free_of "*") (fields r) = true
   else ParsePermissionRequirementOrDie s = Panic)
  /\ (forall s' r r',
        ParsePermissionRequirementOrDie s = Ok r ->
        ParsePermissionRequirementOrDie s' = Ok r' ->
        (FulfillsRequirement r r' = true <-> s = s')).
Proof.
  assert (Hok : forall t r,
             ParsePermissionRequirementOrDie t = Ok r ->
             Permission_String r = t
             /\ forallb (free_of ".") (fields r) = true
             /\ forallb (free_of "*") (fields r) = true).
  { intros t r. rewrite ParsePermissionRequirementOrDie_cases.
    destruct (free_of "*" t) eqn:Ew; [ | discriminate ]. cbn [andb].
    pose proof (ParsePermissionString_cases t) as H.
    destruct (Nat.eqb _ 3); [ | discriminate ].
    destruct H as (p & -> & Hs & Hf). cbn [fst]. intros [= <-].
    split; [ exact Hs | ]. split; [ exact Hf | ].
    rewrite <- free_of_fields by discriminate. now rewrite Hs. }
  split.
  - destruct (free_of "*" s && Nat.eqb (count_byte "." s) 3) eqn:E.
    + pose proof (ParsePermissionRequirementOrDie_cases s) as H. rewrite E in H.
      eexists. split; [ exact H | ]. apply (Hok _ _ H).
    + rewrite ParsePermissionRequirementOrDie_cases. now rewrite E.
  - intros s' r r' Hr Hr'.
    destruct (Hok _ _ Hr) as (Hs & _ & _).
    destruct (Hok _ _ Hr') as (Hs' & _ & Hw').
    assert (Hexact : FulfillsRequirement r r' = true <-> r = r').
    { apply FulfillsRequirement_exact. exact Hw'. }
    rewrite Hexact. split; [ intros ->; congruence | ].
    intros ->. rewrite Hr in Hr'. now injection Hr'.
Qed.

Lemma ParsePermissionRequirementOrDie_explicit_witness :
  FulfillsRequirement
    {| Namespace := "namespace"; Service := "service";
       Resource := "resource"; Verb := "verb" |}
    {| Namespace := "namespace"; Service := "service";
       Resource := "resource"; Verb := "other" |} = true
  <-> "namespace.service.resource.verb" = "namespace.service.resource.other".
Proof.
  apply (proj2 (ParsePermissionRequirementOrDie_explicit
                  "namespace.service.resource.verb")
           "namespace.service.resource.other"); reflexivity.
Defined.

Lemma NewPermissionRequirementGroup_loop_spec
    (out : list PermissionRequirement) (requirements : list string) :
  match NewPermissionRequirementGroup_loop out requirements with
  | Ok group =>
      exists parsed,
        group = (out ++ parsed)%list
        /\ Forall2 (fun s r => ParsePermissionRequirementOrDie s = Ok r)
             requirements parsed
  | Panic =>
      exists before s after,
        requirements = (before ++ s :: after)%list
        /\ ParsePermissionRequirementOrDie s = Panic
  end.
Proof.
  revert out. induction requirements as [ | s rest IH ]; intros out.
  - cbn [NewPermissionRequirementGroup_loop]. exists []. split; [ | constructor ].
    now rewrite app_nil_r.
  - cbn [NewPermissionRequirementGroup_loop].
    destruct (ParsePermissionRequirementOrDie s) as [ r | ] eqn:Hs; cbn [go_bind].
    + specialize (IH (out ++ [ r ])%list).
      destruct (NewPermissionRequirementGroup_loop _ rest) as [ group | ].
      * destruct IH as (parsed & -> & Hall). exists (r :: parsed).
        split; [ now rewrite <- app_assoc | ]. now constructor.
      * destruct IH as (before & t & after & -> & Ht).
        exists (s :: before), t, after. split; [ reflexivity | exact Ht ].
    + exists [], s, rest. split; [ reflexivity | exact Hs ].
Qed.

(** X25: [NewPermissionRequirementGroup] parses its arguments in order.
    It returns exactly when each of them is an explicit requirement, and
    then the group has one requirement per argument, in the order of the
    arguments, the i-th parsed from the i-th; it panics as soon as one
    argument holds an asterisk or does not have three dots.  No argument
    gives the empty group. *)
Theorem NewPermissionRequirementGroup_in_order (requirements : list string) :
  match NewPermissionRequirementGroup requirements with
  | Ok group =>
      Forall2 (fun s r => ParsePermissionRequirementOrDie s = Ok r)
        requirements group
      /\ List.length group = List.length requirements
      /\ map PermissionRequirement_String group = requirements
  | Panic =>
      exists s,
        In s requirements
        /\ (free_of "*" s && Nat.eqb (count_byte "." s) 3) = false
  end
  /\ NewPermissionRequirementGroup [] = Ok [].
Proof.
  split; [ | reflexivity ].
  unfold NewPermissionRequirementGroup.
  pose proof (NewPermissionRequirementGroup_loop_spec [] requirements) as H.
  destruct (NewPermissionRequirementGroup_loop [] requirements) as [ group | ].
  - destruct H as (parsed & -> & Hall). cbn [app].
    split; [ exact Hall | ].
    split; [ symmetry; eapply Forall2_length; exact Hall | ].
    induction Hall as [ | s r ss rs Hs _ IH ]; [ reflexivity | ].
    cbn [map]. rewrite IH. f_equal.
    pose proof (ParsePermissionRequirementOrDie_cases s) as Hc.
    rewrite Hs in Hc.
    destruct (free_of "*" s); [ | discriminate ]. cbn [andb] in Hc.
    pose proof (ParsePermissionString_cases s) as Hp.
    destruct (Nat.eqb _ 3); [ | discriminate ].
    destruct Hp as (p & Hp & Hstr & _). rewrite Hp in Hc. now injection Hc as ->.
  - destruct H as (before & s & after & -> & Hs). exists s.
    split; [ apply in_elt | ].
    rewrite ParsePermissionRequirementOrDie_cases in Hs.
    now destruct (_ && _).
Qed.

Lemma field_matches_trans (a b c : string) :
  field_matches a b = true -> field_matches b c = true -> field_matches a c = true.
Proof.
  unfold field_matches.
  intros [ ->%String.eqb_eq | Hb ]%orb_true_iff H; [ exact H | ].
  apply orb_true_iff in H as [ <-%String.eqb_eq | Hc ];
    [ now rewrite Hb, orb_true_r | now rewrite Hc, orb_true_r ].
Qed.

Lemma field_matches_antisym (a b : string) :
  field_matches a b = true -> field_matches b a = true -> a = b.
Proof.
  unfold field_matches.
  intros [ ->%String.eqb_eq | Hb%String.eqb_eq ]%orb_true_iff; [ reflexivity | ].
  intros [ ->%String.eqb_eq | Ha%String.eqb_eq ]%orb_true_iff; congruence.
Qed.

(** X26: read on permissions alone, [FulfillsRequirement] is a partial
    order with the permission of four wildcards on top: it is reflexive;
    it is transitive (when [p] fulfils [r] and [q] fulfils [p], read as a
    requirement, [q] fulfils [r]); two permissions that fulfil each other
    are equal; and the requirement of four wildcards is fulfilled by the
    permission of four wildcards only. *)
Theorem FulfillsRequirement_partial_order (r p q : Permission) :
  FulfillsRequirement r r = true
  /\ (FulfillsRequirement r p = true -> FulfillsRequirement p q = true ->
      FulfillsRequirement r q = true)
  /\ (FulfillsRequirement r p = true -> FulfillsRequirement p r = true -> r = p)
  /\ (FulfillsRequirement
        {| Namespace := Wildcard; Service := Wildcard;
           Resource := Wildcard; Verb := Wildcard |} p = true ->
      p = {| Namespace := Wildcard; Service := Wildcard;
             Resource := Wildcard; Verb := Wildcard |}).
Proof.
  rewrite !FulfillsRequirement_fields.
  split; [ unfold field_matches; now rewrite !String.eqb_refl | ].
  split; [ | split ].
  - intros [ [ [ A1 A2 ]%andb_true_iff A3 ]%andb_true_iff A4 ]%andb_true_iff
           [ [ [ B1 B2 ]%andb_true_iff B3 ]%andb_true_iff B4 ]%andb_true_iff.
    rewrite (field_matches_trans _ _ _ A1 B1), (field_matches_trans _ _ _ A2 B2),
      (field_matches_trans _ _ _ A3 B3), (field_matches_trans _ _ _ A4 B4).
    reflexivity.
  - intros [ [ [ A1 A2 ]%andb_true_iff A3 ]%andb_true_iff A4 ]%andb_true_iff
           [ [ [ B1 B2 ]%andb_true_iff B3 ]%andb_true_iff B4 ]%andb_true_iff.
    destruct r as [ a b c d ], p as [ a' b' c' d' ].
    cbn [Namespace Service Resource Verb] in *.
    now rewrite (field_matches_antisym _ _ A1 B1), (field_matches_antisym _ _ A2 B2),
      (field_matches_antisym _ _ A3 B3), (field_matches_antisym _ _ A4 B4).
  - destruct p as [ a b c d ]. cbn [Namespace Service Resource Verb].
    unfold field_matches.
    intros [ [ [ A1 A2 ]%andb_true_iff A3 ]%andb_true_iff A4 ]%andb_true_iff.
    assert (H : forall x,
               String.eqb Wildcard x || String.eqb x Wildcard = true ->
               x = Wildcard).
    { intros x [ Hx%String.eqb_eq | Hx%String.eqb_eq ]%orb_true_iff; congruence. }
    now rewrite (H a A1), (H b A2), (H c A3), (H d A4).
Qed.

Lemma FulfillsRequirement_partial_order_witness :
  FulfillsRequirement
    {| Namespace := "namespace"; Service := "service";
       Resource := "resource"; Verb := "verb" |}
    {| Namespace := "*"; Service := "*"; Resource := "*"; Verb := "*" |} = true.
Proof.
  apply (proj1 (proj2 (FulfillsRequirement_partial_order
                  {| Namespace := "namespace"; Service := "service";
                     Resource := "resource"; Verb := "verb" |}
                  {| Namespace := "namespace"; Service := "*";
                     Resource := "resource"; Verb := "*" |}
                  {| Namespace := "*"; Service := "*";
                     Resource := "*"; Verb := "*" |})));
    reflexivity.
Defined.

(** ** Reading and writing together *)

(** * Properties of the functions on every error value *)

(** ** Searching what [Unwrap] yields *)






Lemma As_APIStatus_wrapError (msg : string) (err : full.error) :
  full.As_APIStatus (full.wrapError msg err) = full.As_APIStatus err.
Proof.
  unfold full.wrapError. cbn [full.As_APIStatus first_found].
  now destruct (full.As_APIStatus err).
Qed.

Lemma As_APIStatus_wrap_all_full (msgs : list string) (err : full.error) :
  full.As_APIStatus (full.wrap_all msgs err) = full.As_APIStatus err.
Proof.
  induction msgs as [ | m l IH ]; [ reflexivity | ].
  cbn [full.wrap_all fold_right]. rewrite As_APIStatus_wrapError. exact IH.
Qed.

Lemma As_APIStatus_Errorf_w (prefix : string) (err : full.error) :
  full.As_APIStatus (full.Errorf_w prefix err) = full.As_APIStatus err.
Proof.
  destruct err; try reflexivity; unfold full.Errorf_w; apply As_APIStatus_wrapError.
Qed.


Lemma ReasonForError_wrap_all_full (msgs : list string) (err : full.error) :
  full.ReasonForError (full.wrap_all msgs err) = full.ReasonForError err.
Proof. unfold full.ReasonForError. now rewrite As_APIStatus_wrap_all_full. Qed.

(** ** The two embeddings agree *)

Lemma plain_notNil (err : error) : full.notNil (plain err) = notNil err.
Proof. now destruct err. Qed.

Lemma plain_Error (err : error) : full.Error (plain err) = Error err.
Proof. now destruct err. Qed.

Lemma plain_fmt_v (err : error) : full.fmt_v (plain err) = fmt.v err.
Proof. now destruct err. Qed.

Lemma plain_Errorf_w (prefix : string) (err : error) :
  full.Errorf_w prefix (plain err) = plain (fmt.Errorf_w prefix err).
Proof.
  destruct err; try reflexivity;
    unfold full.Errorf_w, fmt.Errorf_w; cbn [plain];
    now rewrite <- ?plain_fmt_v.
Qed.

Lemma plain_wrap_all (msgs : list string) (err : error) :
  full.wrap_all msgs (plain err) = plain (wrap_all msgs err).
Proof.
  induction msgs as [ | m l IH ]; [ reflexivity | ].
  change (full.wrap_all (m :: l) (plain err))
    with (full.wrapError m (full.wrap_all l (plain err))).
  now rewrite IH.
Qed.

Lemma plain_As_APIStatus (err : error) :
  full.As_APIStatus (plain err)
  = option_map (fun e => Ok (ErrStatus e)) (errors.As_APIStatus err).
Proof.
  induction err as [ | s | msg inner IH | e | u ]; try reflexivity.
  cbn [plain errors.As_APIStatus]. now rewrite As_APIStatus_wrapError.
Qed.

Lemma plain_As_UnexpectedObjectError (err : error) :
  full.As_UnexpectedObjectError (plain err)
  = option_map Some (errors.As_UnexpectedObjectError err).
Proof.
  induction err as [ | s | msg inner IH | e | u ]; try reflexivity.
  cbn [plain errors.As_UnexpectedObjectError full.wrapError
       full.As_UnexpectedObjectError first_found].
  rewrite IH. now destruct (errors.As_UnexpectedObjectError inner).
Qed.




Lemma plain_IsUnexpectedServerError (err : error) :
  full.IsUnexpectedServerError (plain err) = Ok (IsUnexpectedServerError err).
Proof.
  unfold full.IsUnexpectedServerError, IsUnexpectedServerError.
  rewrite plain_As_APIStatus.
  destruct (errors.As_APIStatus err) as [ e | ]; [ | reflexivity ].
  cbn [option_map full.APIStatus_Status go_bind]. unfold StatusError_Status.
  destruct (Status_Details (ErrStatus e)); [ | reflexivity ].
  now destruct (find_cause _ _).
Qed.

Lemma plain_IsUnexpectedObjectError (err : error) :
  full.IsUnexpectedObjectError (plain err) = IsUnexpectedObjectError err.
Proof.
  unfold full.IsUnexpectedObjectError, IsUnexpectedObjectError.
  rewrite plain_notNil, plain_As_UnexpectedObjectError.
  now destruct (errors.As_UnexpectedObjectError err).
Qed.


Lemma plain_GetStatusCause (err : error) (name : CauseType) :
  full.GetStatusCause (plain err) name = Ok (GetStatusCause err name).
Proof.
  destruct err as [ | s | msg inner | e | u ]; try reflexivity.
  unfold full.GetStatusCause, GetStatusCause, StatusError_Status.
  cbn [plain full.assert_APIStatus full.APIStatus_Status go_bind].
  unfold StatusError_Status.
  destruct (Status_Details (ErrStatus e)); [ | reflexivity ].
  now destruct (find_cause _ _).
Qed.

Lemma plain_NewInternalError (err : error) :
  full.NewInternalError (plain err) = NewInternalError err.
Proof.
  unfold full.NewInternalError, NewInternalError.
  rewrite plain_Error, plain_fmt_v. reflexivity.
Qed.

Lemma plain_ErrorToAPIStatus
    (GoSyntax_v : full.error -> string) (err : error) :
  go_map fst (full.ErrorToAPIStatus GoSyntax_v (plain err))
  = go_map fst (ErrorToAPIStatus (fun e => GoSyntax_v (plain e)) err).
Proof.
  destruct err as [ | s | msg inner | e | u ]; try reflexivity.
  unfold full.ErrorToAPIStatus, ErrorToAPIStatus.
  cbn [plain full.assert_APIStatus full.APIStatus_Status go_bind].
  repeat match goal with
         | |- context [ if ?b then _ else _ ] => destruct b
         end; reflexivity.
Qed.

(** ** Constructors *)

Lemma NewInvalid_causes_full (causes : list StatusCause) (errs : full.ErrorList) :
  match full.NewInvalid_causes causes errs with
  | Ok _ => forallb full.readable errs = true
  | Panic => forallb full.readable errs = false
  end.
Proof.
  revert causes. induction errs as [ | [ err | ] rest IH ]; intros causes;
    [ reflexivity | | reflexivity ].
  cbn [full.NewInvalid_causes forallb full.readable].
  destruct (full.ErrorBody err) as [ message | ]; [ | reflexivity ].
  cbn [go_bind andb]. apply IH.
Qed.

Lemma NewInvalid_causes_plain (causes : list StatusCause) (errs : field.ErrorList) :
  full.NewInvalid_causes causes (map plain_FieldError errs)
  = Ok (NewInvalid_causes causes errs).
Proof.
  revert causes. induction errs as [ | err rest IH ]; intros causes;
    [ reflexivity | ].
  cbn [map plain_FieldError full.NewInvalid_causes NewInvalid_causes
       full.ErrorBody full.Type_ full.Field go_bind].
  apply IH.
Qed.

Lemma plain_NewInvalid
    (Aggregate_v : full.ErrorList -> string) (name : string)
    (errs : field.ErrorList) :
  full.NewInvalid Aggregate_v name (map plain_FieldError errs)
  = Ok (NewInvalid (fun l => Aggregate_v (map plain_FieldError l)) name errs).
Proof.
  unfold full.NewInvalid, NewInvalid. now rewrite NewInvalid_causes_plain.
Qed.

(** C1, as stated, fails: two constructors call a method or read a field
    of their argument.  [NewInternalError] calls [err.Error()], which panics
    on the nil error and on a nil [*StatusError] or
    [*UnexpectedObjectError] held by the interface; [NewInvalid] reads
    [err.Type] of each element of the list, which panics on a nil
    element, and calls its [ErrorBody]. *)
Lemma constructors_panic :
  full.NewInternalError full.nilError = Panic
  /\ full.NewInternalError (full.ptrStatusError None) = Panic
  /\ full.NewInternalError (full.ptrUnexpectedObjectError None) = Panic
  /\ full.NewInvalid (fun _ => "") "name" [ None ] = Panic.
Proof. repeat split. Qed.

(** C1 (amended): every canonical constructor that returns gives a
    [StatusError] with status [Failure] and the fixed code and reason of its
    kind.  The constructors that take only strings and numbers return for
    every argument; so do [NewForbidden] and [NewConflict], which only
    print their error, for every error value, nil pointers included.
    [NewInvalid] returns exactly when no element of the list is nil and
    the [ErrorBody] of every element returns, and [NewInternalError]
    exactly when [err.Error()] returns; otherwise they panic. *)
Theorem constructors_fixed_code_reason (Aggregate_v : full.ErrorList -> string) :
  (forall name uid, failure_with 404 StatusReasonNotFound (NewNotFound name uid))
  /\ (forall name uid,
        failure_with 409 StatusReasonAlreadyExists (NewAlreadyExists name uid))
  /\ (forall reason, failure_with 401 StatusReasonUnauthorized (NewUnauthorized reason))
  /\ (forall name err,
        failure_with 403 StatusReasonForbidden (full.NewForbidden name err))
  /\ (forall name err,
        failure_with 409 StatusReasonConflict (full.NewConflict name err))
  /\ (forall name errs,
        match full.NewInvalid Aggregate_v name errs with
        | Ok e =>
            failure_with 422 StatusReasonInvalid e
            /\ forallb full.readable errs = true
        | Panic => forallb full.readable errs = false
        end)
  /\ (forall reason, failure_with 400 StatusReasonBadRequest (NewBadRequest reason))
  /\ (forall message retry,
        failure_with 429 StatusReasonTooManyRequests (NewTooManyRequests message retry))
  /\ (forall reason,
        failure_with 503 StatusReasonServiceUnavailable (NewServiceUnavailable reason))
  /\ (forall action,
        failure_with 405 StatusReasonMethodNotAllowed (NewMethodNotSupported action))
  /\ (forall operation retry,
        failure_with 500 StatusReasonServerTimeout (NewServerTimeout operation retry))
  /\ (forall err,
        match full.NewInternalError err with
        | Ok e =>
            failure_with 500 StatusReasonInternalError e
            /\ exists text, full.Error err = Ok text
        | Panic => full.Error err = Panic
        end)
  /\ (forall message retry,
        failure_with 504 StatusReasonTimeout (NewTimeoutError message retry))
  /\ (forall message,
        failure_with 413 StatusReasonRequestEntityTooLarge
          (NewRequestEntityTooLargeError message)).
Proof.
  repeat match goal with |- _ /\ _ => split end; intros;
    try (repeat split; reflexivity).
  - unfold full.NewInvalid.
    pose proof (NewInvalid_causes_full [] errs) as H.
    destruct (full.NewInvalid_causes [] errs); cbn [go_bind].
    + split; [ repeat split | exact H ].
    + exact H.
  - unfold full.NewInternalError.
    destruct (full.Error err) as [ text | ]; cbn [go_bind].
    + split; [ repeat split | eauto ].
    + reflexivity.
Qed.

(** ** Classifiers *)







(** ** Retry advisor *)



(** ** Wire converter *)

Lemma ErrorToAPIStatus_of_Status
    (GoSyntax_v : full.error -> string) (err : full.error) (s : Status) :
  full.assert_APIStatus err = Some (Ok s) ->
  full.ErrorToAPIStatus GoSyntax_v err
  = Ok (normalized s,
        if valid_status (Status_Status (normalized s)) then []
        else [ full.errorString
                 ("apiserver received an error with wrong status field : "
                  ++ GoSyntax_v err) ]).
Proof.
  intros H. unfold full.ErrorToAPIStatus. rewrite H.
  cbn [full.APIStatus_Status go_bind].
  destruct s as [ st code reason message details ].
  unfold normalized, valid_status, set_Status_Status, set_Status_Code.
  cbn [Status_Status Status_Code Status_Reason Status_Message Status_Details].
  destruct st as [ | c st ].
  - change (len "" =? 0) with true. cbn iota.
    cbn [Status_Status Status_Code].
    change (String.eqb StatusFailure StatusSuccess) with false.
    change (String.eqb StatusFailure StatusFailure) with true.
    cbn iota. destruct (code =? 0); reflexivity.
  - replace (len (String c st) =? 0) with false
      by (symmetry; apply Z.eqb_neq; unfold len; simpl; lia).
    replace (String.eqb (String c st) "") with false by reflexivity.
    cbn [Status_Status Status_Code].
    destruct (String.eqb (String c st) StatusSuccess) eqn:ES.
    + cbn [orb]. destruct (code =? 0); reflexivity.
    + cbn [orb]. destruct (String.eqb (String c st) StatusFailure) eqn:EF;
        destruct (code =? 0); reflexivity.
Qed.

Lemma ErrorToAPIStatus_full_cases
    (GoSyntax_v : full.error -> string) (err : full.error) :
  match full.assert_APIStatus err with
  | Some (Ok s) =>
      full.ErrorToAPIStatus GoSyntax_v err
      = Ok (normalized s,
            if valid_status (Status_Status (normalized s)) then []
            else [ full.errorString
                     ("apiserver received an error with wrong status field : "
                      ++ GoSyntax_v err) ])
  | Some Panic => full.ErrorToAPIStatus GoSyntax_v err = Panic
  | None =>
      match full.Error err with
      | Ok text => full.ErrorToAPIStatus GoSyntax_v err = Ok (synthesized text, [])
      | Panic => full.ErrorToAPIStatus GoSyntax_v err = Panic
      end
  end.
Proof.
  destruct (full.assert_APIStatus err) as [ [ s | ] | ] eqn:E.
  - now apply ErrorToAPIStatus_of_Status.
  - unfold full.ErrorToAPIStatus. now rewrite E.
  - unfold full.ErrorToAPIStatus. rewrite E.
    destruct (full.Error err); reflexivity.
Qed.

(** C8, as stated, fails on three kinds of values: the nil error and a
    nil [*UnexpectedObjectError] have no [Status] method and reach the
    call of [err.Error()], which panics; a nil [*StatusError] has the
    method, and the call of [Status()] panics. *)
Lemma ErrorToAPIStatus_panics :
  full.ErrorToAPIStatus (fun _ => "") full.nilError = Panic
  /\ full.ErrorToAPIStatus (fun _ => "") (full.ptrUnexpectedObjectError None) = Panic
  /\ full.ErrorToAPIStatus (fun _ => "") (full.ptrStatusError None) = Panic.
Proof. repeat split. Qed.

(** C8 (amended): [ErrorToAPIStatus] tests the error value itself.  When
    the value has a [Status] method, of whatever type, and the call
    returns, [ErrorToAPIStatus] returns that status normalized (an empty
    status field becomes [Failure]; a zero code becomes 200 on [Success]
    and 500 otherwise) and hands one error to [runtime.HandleError]
    exactly when the status field is neither [Success] nor [Failure],
    raising nothing to the caller.  When the value has no such method and
    its [Error] method returns, the result is the fresh
    [Failure]/500/[Unknown] status whose message is that text.  It panics
    exactly when the method it calls panics: on the nil error, on a nil
    [*StatusError], on a nil [*UnexpectedObjectError]. *)
Theorem ErrorToAPIStatus_normalizes
    (GoSyntax_v : full.error -> string) (err : full.error) :
  match full.assert_APIStatus err with
  | Some (Ok s) =>
      full.ErrorToAPIStatus GoSyntax_v err
      = Ok (normalized s,
            if valid_status (Status_Status (normalized s)) then []
            else [ full.errorString
                     ("apiserver received an error with wrong status field : "
                      ++ GoSyntax_v err) ])
      /\ Status_Status (normalized s)
         = (if String.eqb (Status_Status s) "" then StatusFailure
            else Status_Status s)
      /\ Status_Code (normalized s)
         = (if Status_Code s =? 0
            then if String.eqb (Status_Status (normalized s)) StatusSuccess
                 then 200 else 500
            else Status_Code s)
      /\ Status_Reason (normalized s) = Status_Reason s
      /\ Status_Message (normalized s) = Status_Message s
      /\ Status_Details (normalized s) = Status_Details s
  | Some Panic => full.ErrorToAPIStatus GoSyntax_v err = Panic
  | None =>
      match full.Error err with
      | Ok text =>
          full.ErrorToAPIStatus GoSyntax_v err
          = Ok ({| Status_Status := StatusFailure; Status_Code := 500;
                   Status_Reason := StatusReasonUnknown; Status_Message := text;
                   Status_Details := None |}, [])
      | Panic => full.ErrorToAPIStatus GoSyntax_v err = Panic
      end
  end.
Proof.
  pose proof (ErrorToAPIStatus_full_cases GoSyntax_v err) as H.
  destruct (full.assert_APIStatus err) as [ [ s | ] | ]; [ | exact H | exact H ].
  split; [ exact H | ]. repeat split.
Qed.


(** ** Causes, objects *)

(** X2: [GetStatusCause] tests the error value itself for a [Status]
    method and makes no use of [Unwrap].  When the value has none (the nil
    error, a wrapper, an [UnexpectedObjectError]) it returns the zero cause
    and [false]; when the call of [Status()] returns, it returns the first
    cause of the given type among the details and [true], or the zero cause
    and [false] when there are no details or no such cause; when the call
    panics, as on a nil [*StatusError] held by the interface, which the
    test [apierr == nil] does not catch, it panics. *)
Theorem GetStatusCause_first_of_type (err : full.error) (name : CauseType) :
  full.GetStatusCause err name
  = match full.assert_APIStatus err with
    | None => Ok (StatusCause_zero, false)
    | Some Panic => Panic
    | Some (Ok s) =>
        Ok (match Status_Details s with
            | Some d =>
                match find_cause name (Details_Causes d) with
                | Some c => (c, true)
                | None => (StatusCause_zero, false)
                end
            | None => (StatusCause_zero, false)
            end)
    end
  /\ (forall c,
        full.GetStatusCause err name = Ok (c, true) <->
        exists s d before after,
          full.assert_APIStatus err = Some (Ok s)
          /\ Status_Details s = Some d
          /\ Details_Causes d = (before ++ c :: after)%list
          /\ Cause_Type c = name
          /\ List.Forall (fun x => Cause_Type x <> name) before)
  /\ (full.HasStatusCause err name = Panic <->
      full.assert_APIStatus err = Some Panic)
  /\ (forall prefix,
        full.GetStatusCause (full.Errorf_w prefix err) name
        = Ok (StatusCause_zero, false))
  /\ full.GetStatusCause (full.ptrStatusError None) name = Panic.
Proof.
  assert (H : full.GetStatusCause err name
              = match full.assert_APIStatus err with
                | None => Ok (StatusCause_zero, false)
                | Some Panic => Panic
                | Some (Ok s) =>
                    Ok (match Status_Details s with
                        | Some d =>
                            match find_cause name (Details_Causes d) with
                            | Some c => (c, true)
                            | None => (StatusCause_zero, false)
                            end
                        | None => (StatusCause_zero, false)
                        end)
                end).
  { unfold full.GetStatusCause.
    destruct (full.assert_APIStatus err) as [ [ s | ] | ]; try reflexivity.
    cbn [full.APIStatus_Status go_bind].
    destruct (Status_Details s) as [ d | ]; [ | reflexivity ].
    now destruct (find_cause _ _). }
  split; [ exact H | ].
  split; [ | split; [ | split; [ | reflexivity ] ] ].
  - intros c. rewrite H. split.
    + destruct (full.assert_APIStatus err) as [ [ s | ] | ]; try discriminate.
      destruct (Status_Details s) as [ d | ] eqn:Ed; [ | discriminate ].
      destruct (find_cause name (Details_Causes d)) as [ c' | ] eqn:Ef;
        [ | discriminate ].
      intros [= <-]. apply find_cause_spec in Ef as (before & after & H1 & H2 & H3).
      exists s, d, before, after. auto.
    + intros (s & d & before & after & -> & Hd & Hc & Ht & Hb). rewrite Hd.
      assert (Hf : find_cause name (Details_Causes d) = Some c)
        by (apply find_cause_spec; eauto).
      now rewrite Hf.
  - unfold full.HasStatusCause. rewrite H.
    destruct (full.assert_APIStatus err) as [ [ s | ] | ]; cbn [go_bind];
      split; (discriminate || reflexivity).
  - intros prefix. now destruct err.
Qed.

Lemma IsUnexpectedObjectError_wrapError (msg : string) (err : full.error) :
  full.IsUnexpectedObjectError (full.wrapError msg err)
  = full.IsUnexpectedObjectError err.
Proof.
  unfold full.IsUnexpectedObjectError, full.wrapError.
  cbn [full.notNil full.As_UnexpectedObjectError first_found andb].
  destruct err; try reflexivity.
  cbn [full.notNil andb]. now destruct (full.As_UnexpectedObjectError _).
Qed.

Lemma IsUnexpectedObjectError_wrap_all_full (msgs : list string) (err : full.error) :
  full.IsUnexpectedObjectError (full.wrap_all msgs err)
  = full.IsUnexpectedObjectError err.
Proof.
  induction msgs as [ | m l IH ]; [ reflexivity | ].
  change (full.wrap_all (m :: l) err) with (full.wrapError m (full.wrap_all l err)).
  now rewrite IsUnexpectedObjectError_wrapError.
Qed.

(** X5: [FromObject] on a non-nil [*Status] returns the [StatusError] of
    that status, whose text is the status message and which is classified
    by the reason of the status and is no [UnexpectedObjectError]; on a nil
    [*Status] it panics, since the case [*Status] of the type switch takes
    the nil pointer and [*t] reads through it; on any other object, the
    nil interface included, it returns an [UnexpectedObjectError] whose
    text is [unexpected object: ] followed by what [%v] prints for the
    object, with reason [Unknown].  What it returns is never nil, and the
    classification is the same under any wrapping with [%w]. *)
Theorem FromObject_status_or_unexpected (obj : full.object) (msgs : list string) :
  match obj with
  | full.object_Status None => full.FromObject obj = Panic
  | full.object_Status (Some s) =>
      exists err,
        full.FromObject obj = Ok err
        /\ err = full.ptrStatusError (Some {| ErrStatus := s |})
        /\ full.notNil err = true
        /\ full.Error err = Ok (Status_Message s)
        /\ full.ReasonForError (full.wrap_all msgs err) = Ok (Status_Reason s)
        /\ full.IsUnexpectedObjectError (full.wrap_all msgs err) = false
  | full.object_other v =>
      exists err,
        full.FromObject obj = Ok err
        /\ full.notNil err = true
        /\ full.Error err = Ok ("unexpected object: " ++ v)
        /\ full.ReasonForError (full.wrap_all msgs err) = Ok StatusReasonUnknown
        /\ full.IsUnexpectedObjectError (full.wrap_all msgs err) = true
  end.
Proof.
  destruct obj as [ [ s | ] | v ]; [ | reflexivity | ];
    eexists; (split; [ reflexivity | ]);
    rewrite ReasonForError_wrap_all_full, IsUnexpectedObjectError_wrap_all_full;
    repeat split.
Qed.


(** ** Writing *)



Lemma plain_WriteError
    (GoSyntax_v : full.error -> string) (omitempty : bool) (err : error) :
  go_map fst (full.WriteError GoSyntax_v omitempty (plain err))
  = go_map fst (httputils.WriteError (fun e => GoSyntax_v (plain e)) omitempty err).
Proof.
  destruct err as [ | s | msg inner | e | u ]; try reflexivity.
  unfold full.WriteError, httputils.WriteError.
  rewrite (ErrorToAPIStatus_of_Status GoSyntax_v (plain e) (ErrStatus e) eq_refl).
  rewrite ErrorToAPIStatus_StatusError. reflexivity.
Qed.


(** X19: each of the fifteen constructors with a fixed reason builds an
    error on which, at any wrap depth, the classifier of that reason
    answers [true] and each of the other fifteen classifiers answers
    [false], the two classifiers with a code fallback included.  This
    holds whenever the constructor returns: [NewInvalid] and
    [NewInternalError] may panic on their argument. *)
Theorem constructors_classified_only_by_their_own_classifier
    (Aggregate_v : full.ErrorList -> string) (msgs : list string) :
  (forall name uid,
     classified_only_as StatusReasonNotFound (wrap_all msgs (NewNotFound name uid))
     /\ classified_only_as StatusReasonAlreadyExists
          (wrap_all msgs (NewAlreadyExists name uid)))
  /\ (forall name err,
        classified_only_as StatusReasonForbidden
          (wrap_all msgs (full.NewForbidden name err))
        /\ classified_only_as StatusReasonConflict
             (wrap_all msgs (full.NewConflict name err)))
  /\ (forall name errs e,
        full.NewInvalid Aggregate_v name errs = Ok e ->
        classified_only_as StatusReasonInvalid (wrap_all msgs e))
  /\ (forall text,
        classified_only_as StatusReasonUnauthorized
          (wrap_all msgs (NewUnauthorized text))
        /\ classified_only_as StatusReasonBadRequest
             (wrap_all msgs (NewBadRequest text))
        /\ classified_only_as StatusReasonServiceUnavailable
             (wrap_all msgs (NewServiceUnavailable text))
        /\ classified_only_as StatusReasonMethodNotAllowed
             (wrap_all msgs (NewMethodNotSupported text))
        /\ classified_only_as StatusReasonTooManyRequests
             (wrap_all msgs (NewTooManyRequestsError text))
        /\ classified_only_as StatusReasonRequestEntityTooLarge
             (wrap_all msgs (NewRequestEntityTooLargeError text)))
  /\ (forall text seconds,
        classified_only_as StatusReasonTooManyRequests
          (wrap_all msgs (NewTooManyRequests text seconds))
        /\ classified_only_as StatusReasonServerTimeout
             (wrap_all msgs (NewServerTimeout text seconds))
        /\ classified_only_as StatusReasonTimeout
             (wrap_all msgs (NewTimeoutError text seconds)))
  /\ (forall err e,
        full.NewInternalError err = Ok e ->
        classified_only_as StatusReasonInternalError (wrap_all msgs e)).
Proof.
  repeat match goal with |- _ /\ _ => split end; intros;
    try solve [ repeat split; classify ].
  - unfold full.NewInvalid in *.
    destruct (full.NewInvalid_causes [] errs); [ | discriminate ].
    cbn [go_bind] in *. injection H as <-. classify.
  - unfold full.NewInternalError in *.
    destruct (full.Error err); [ | discriminate ].
    cbn [go_bind] in *. injection H as <-. classify.
Qed.

(** ** Reading and writing together *)




Lemma plain_retryAfterSeconds (resp : http.Response) :
  full.retryAfterSeconds (plain_Response resp) = retryAfterSeconds resp.
Proof. reflexivity. Qed.

(** On a response of the first part, [FromResponse] of [full] returns what
    [FromResponse] of the first part returns. *)
Lemma plain_FromResponse
    (json_Unmarshal : list Byte.byte -> Status -> Status * error)
    (resp : http.Response) :
  full.FromResponse
    (fun data status =>
       (fst (json_Unmarshal data status), plain (snd (json_Unmarshal data status))))
    (Some (plain_Response resp))
  = go_map (fun r => (plain (fst r), snd r)) (FromResponse json_Unmarshal resp).
Proof.
  unfold full.FromResponse, FromResponse, ioutil.ReadAll.
  cbn [plain_Response full.StatusCode full.Body full.ReadAll go_bind].
  destruct (_ && _); [ reflexivity | ].
  rewrite plain_notNil.
  destruct (notNil (io.err (http.Body resp))).
  { rewrite plain_Errorf_w, plain_NewInternalError.
    destruct (NewInternalError _); reflexivity. }
  destruct (json_Unmarshal (io.data (http.Body resp)) Status_zero)
    as [ status derr ].
  cbn [fst snd]. rewrite plain_notNil.
  destruct (notNil derr).
  { rewrite plain_Errorf_w, plain_NewInternalError.
    destruct (NewInternalError _); reflexivity. }
  change (full.retryAfterSeconds _) with (retryAfterSeconds resp).
  destruct (retryAfterSeconds resp) as [ seconds [ | ] ]; [ | reflexivity ].
  destruct (Status_Details status); reflexivity.
Qed.
